(** * Lab3 compiler core: three-address code, optimizer and interpreter

    A shallow embedding of [ir.h], [codegen.h], [semantic.h], [optimizer.h]
    and [interpreter.h] of the lab3 compiler, and the properties of the
    design document checked against it.

    Conventions.
    - A C++ [int] is a [Z]; the results of [+], [-], [*] and unary [-] are
      brought back into the 32-bit two's complement range by [wrap] (signed
      overflow is undefined in C++; the wrap is what the usual targets do,
      and the optimizer and the interpreter share it).
    - [INT_MIN / -1] and [INT_MIN % -1] are undefined too, and there the
      division instruction of the usual targets traps: the process is
      killed (SIGFPE) and the call never returns.  Neither [foldConstants]
      nor [executeBinOp] guards this case; it is the [Trap] case of
      [outcome] in the interpreter and the result [None] in the optimizer.
    - [std::unordered_map<std::string, V>] is a [gmap string V],
      [std::unordered_set<std::string>] a [gset string].
    - [std::runtime_error] thrown inside [Interpreter::execute] is the
      [Throw] case of [outcome]; the [catch] of [execute] turns it into the
      result [false].
    - The [while] loop of [execute] need not terminate; it is run with a
      bound on the number of iterations and yields [None] when the bound is
      reached.  It yields [None] as well when the process is killed by the
      trap: in both cases [execute] returns neither [true] nor [false]. *)

From Stdlib Require Import ZArith String List DecimalString.
From Stdlib Require DecimalZ DecimalPos.
From stdpp Require Import gmap strings list.

Local Open Scope string_scope.
Local Open Scope Z_scope.

(** ** C++ [int] and [std::to_string] *)

Definition wrap (z : Z) : Z := (z + 2 ^ 31) mod 2 ^ 32 - 2 ^ 31.

Definition to_string (v : Z) : string := NilZero.string_of_int (Z.to_int v).

Definition INT_MIN : Z := - 2 ^ 31.

(** The one [int] division whose quotient is not an [int]: [/] and [%] of
    [INT_MIN] by [-1] trap. *)
Definition divTraps (dividend divisor : Z) : bool :=
  (dividend =? INT_MIN) && (divisor =? -1).

(** ** ir.h *)

Module BinOp.
Inductive t :=
| ADD | SUB | MUL | DIV | MOD
| EQ | NE | LT | GT | LE | GE
| AND | OR.
End BinOp.

Module UnOp.
Inductive t := NEG | NOT.
End UnOp.

Module InstrType.
Inductive t :=
| BIN_OP | UN_OP | ASSIGN | CONST | LABEL | GOTO | IF_GOTO
| CALL | RETURN | PRINT | NOP.

Definition eqb (a b : t) : bool :=
  match a, b with
  | BIN_OP, BIN_OP | UN_OP, UN_OP | ASSIGN, ASSIGN | CONST, CONST
  | LABEL, LABEL | GOTO, GOTO | IF_GOTO, IF_GOTO | CALL, CALL
  | RETURN, RETURN | PRINT, PRINT | NOP, NOP => true
  | _, _ => false
  end.
End InstrType.

Module Operand.
Module Type_.
Inductive t := VAR | CONST | TEMP.
End Type_.

Record t := mk { type : Type_.t; name : string; value : Z }.

(** [Operand()] *)
Definition default : t := mk Type_.VAR EmptyString 0.
(** [Operand(const std::string& n, Type t = Type::VAR)] *)
Definition named (n : string) (ty : Type_.t) : t := mk ty n 0.
(** [Operand(int v)] *)
Definition of_int (v : Z) : t := mk Type_.CONST (to_string v) v.

Definition str (op : t) : string := name op.

Definition isConst (op : t) : bool :=
  match type op with Type_.CONST => true | _ => false end.
Definition isTemp (op : t) : bool :=
  match type op with Type_.TEMP => true | _ => false end.
Definition isVar (op : t) : bool :=
  match type op with Type_.VAR => true | _ => false end.
End Operand.

Module Instruction.
Record t := mk {
  type : InstrType.t;
  result : Operand.t;
  op1 : Operand.t;
  op2 : Operand.t;
  label : string;
  binOp : BinOp.t;
  unOp : UnOp.t;
  args : list Operand.t;
  funcName : string
}.

(** [Instruction()] *)
Definition default : t :=
  mk InstrType.NOP Operand.default Operand.default Operand.default EmptyString
     BinOp.ADD UnOp.NEG [] EmptyString.

Definition set_type (ty : InstrType.t) (i : t) : t :=
  mk ty (result i) (op1 i) (op2 i) (label i) (binOp i) (unOp i) (args i) (funcName i).
Definition set_result (r : Operand.t) (i : t) : t :=
  mk (type i) r (op1 i) (op2 i) (label i) (binOp i) (unOp i) (args i) (funcName i).
Definition set_op1 (o : Operand.t) (i : t) : t :=
  mk (type i) (result i) o (op2 i) (label i) (binOp i) (unOp i) (args i) (funcName i).
Definition set_op2 (o : Operand.t) (i : t) : t :=
  mk (type i) (result i) (op1 i) o (label i) (binOp i) (unOp i) (args i) (funcName i).
Definition set_label (l : string) (i : t) : t :=
  mk (type i) (result i) (op1 i) (op2 i) l (binOp i) (unOp i) (args i) (funcName i).
Definition set_binOp (o : BinOp.t) (i : t) : t :=
  mk (type i) (result i) (op1 i) (op2 i) (label i) o (unOp i) (args i) (funcName i).
Definition set_unOp (o : UnOp.t) (i : t) : t :=
  mk (type i) (result i) (op1 i) (op2 i) (label i) (binOp i) o (args i) (funcName i).
Definition set_args (a : list Operand.t) (i : t) : t :=
  mk (type i) (result i) (op1 i) (op2 i) (label i) (binOp i) (unOp i) a (funcName i).
Definition set_funcName (f : string) (i : t) : t :=
  mk (type i) (result i) (op1 i) (op2 i) (label i) (binOp i) (unOp i) (args i) f.

Definition createBinOp (res : Operand.t) (op : BinOp.t) (a b : Operand.t) : t :=
  set_op2 b (set_op1 a (set_binOp op (set_result res (set_type InstrType.BIN_OP default)))).

Definition createUnOp (res : Operand.t) (op : UnOp.t) (operand : Operand.t) : t :=
  set_op1 operand (set_unOp op (set_result res (set_type InstrType.UN_OP default))).

Definition createAssign (dst src : Operand.t) : t :=
  set_op1 src (set_result dst (set_type InstrType.ASSIGN default)).

Definition createLabel (lbl : string) : t :=
  set_label lbl (set_type InstrType.LABEL default).

Definition createGoto (lbl : string) : t :=
  set_label lbl (set_type InstrType.GOTO default).

Definition createIfGoto (cond : Operand.t) (lbl : string) : t :=
  set_label lbl (set_op1 cond (set_type InstrType.IF_GOTO default)).

Definition createCall (res : Operand.t) (func : string) (arguments : list Operand.t) : t :=
  set_args arguments (set_funcName func (set_result res (set_type InstrType.CALL default))).

Definition createReturn (v : Operand.t) : t :=
  set_op1 v (set_type InstrType.RETURN default).

Definition createPrint (v : Operand.t) : t :=
  set_op1 v (set_type InstrType.PRINT default).
End Instruction.

Module IRProgram.
Record t := mk {
  instructions : list Instruction.t;
  variableTypes : gmap string Z;   (* 0: int, 1: bool *)
  symbolTable : gmap string Z      (* var -> line defined *)
}.

Definition empty : t := mk [] ∅ ∅.

Definition set_instructions (l : list Instruction.t) (p : t) : t :=
  mk l (variableTypes p) (symbolTable p).
Definition set_variableTypes (m : gmap string Z) (p : t) : t :=
  mk (instructions p) m (symbolTable p).

Definition addInstruction (instr : Instruction.t) (p : t) : t :=
  set_instructions (instructions p ++ [instr]) p.
End IRProgram.

(** ** interpreter.h *)

(** The result of a call that may throw [std::runtime_error(what)], or
    during which the process may be killed by the division trap: [Trap] is
    no exception, no [catch] sees it. *)
Inductive outcome (A : Type) :=
| Ok (a : A)
| Throw (what : string)
| Trap.
Arguments Ok {A} a.
Arguments Throw {A} what.
Arguments Trap {A}.

#[global] Instance outcome_bind : MBind outcome := fun A B k m =>
  match m with
  | Ok a => k a
  | Throw w => Throw w
  | Trap => Trap
  end.

Module Interpreter.
Record t := mk {
  variables : gmap string Z;
  output : list string;
  pc : Z
}.

Definition fresh : t := mk ∅ [] 0.

Definition set_variables (m : gmap string Z) (self : t) : t :=
  mk m (output self) (pc self).
Definition set_pc (n : Z) (self : t) : t :=
  mk (variables self) (output self) n.
Definition push_output (s : string) (self : t) : t :=
  mk (variables self) (output self ++ [s]) (pc self).

Definition getValue (self : t) (op : Operand.t) : outcome Z :=
  if Operand.isConst op then Ok (Operand.value op)
  else if Operand.isVar op then
    match variables self !! Operand.str op with
    | Some v => Ok v
    | None => Throw ("Undefined variable: " +:+ Operand.str op)
    end
  else Ok 0.

Definition setValue (self : t) (op : Operand.t) (v : Z) : t :=
  if Operand.isVar op
  then set_variables (<[Operand.str op := v]> (variables self)) self
  else self.

Definition b2i (b : bool) : Z := if b then 1 else 0.
Definition truthy (z : Z) : bool := negb (z =? 0).

(** The [switch] of [executeBinOp]: the value of [result], the throw, or
    the trap of [left / right] and [left % right]. *)
Definition binResult (op : BinOp.t) (left right : Z) : outcome Z :=
  match op with
  | BinOp.ADD => Ok (wrap (left + right))
  | BinOp.SUB => Ok (wrap (left - right))
  | BinOp.MUL => Ok (wrap (left * right))
  | BinOp.DIV =>
      if right =? 0 then Throw "Division by zero"
      else if divTraps left right then Trap
      else Ok (Z.quot left right)
  | BinOp.MOD =>
      if right =? 0 then Throw "Modulo by zero"
      else if divTraps left right then Trap
      else Ok (Z.rem left right)
  | BinOp.EQ => Ok (b2i (left =? right))
  | BinOp.NE => Ok (b2i (negb (left =? right)))
  | BinOp.LT => Ok (b2i (left <? right))
  | BinOp.GT => Ok (b2i (left >? right))
  | BinOp.LE => Ok (b2i (left <=? right))
  | BinOp.GE => Ok (b2i (left >=? right))
  | BinOp.AND => Ok (b2i (truthy left && truthy right))
  | BinOp.OR => Ok (b2i (truthy left || truthy right))
  end.

Definition executeBinOp (self : t) (instr : Instruction.t) : outcome t :=
  left ← getValue self (Instruction.op1 instr);
  right ← getValue self (Instruction.op2 instr);
  result ← binResult (Instruction.binOp instr) left right;
  Ok (setValue self (Instruction.result instr) result).

Definition unResult (op : UnOp.t) (operand : Z) : Z :=
  match op with
  | UnOp.NEG => wrap (- operand)
  | UnOp.NOT => if truthy operand then 0 else 1
  end.

Definition executeUnOp (self : t) (instr : Instruction.t) : outcome t :=
  operand ← getValue self (Instruction.op1 instr);
  Ok (setValue self (Instruction.result instr)
        (unResult (Instruction.unOp instr) operand)).

Definition executeAssign (self : t) (instr : Instruction.t) : outcome t :=
  v ← getValue self (Instruction.op1 instr);
  Ok (setValue self (Instruction.result instr) v).

Definition isLabel (lbl : string) (instr : Instruction.t) : bool :=
  InstrType.eqb (Instruction.type instr) InstrType.LABEL
  && String.eqb (Instruction.label instr) lbl.

(** The scan of [findLabel] from index [i] on. *)
Fixpoint findLabelFrom (i : Z) (instrs : list Instruction.t) (lbl : string)
  : outcome Z :=
  match instrs with
  | [] => Throw ("Label not found: " +:+ lbl)
  | instr :: rest =>
      if isLabel lbl instr then Ok i else findLabelFrom (i + 1) rest lbl
  end.

Definition findLabel (program : IRProgram.t) (lbl : string) : outcome Z :=
  findLabelFrom 0 (IRProgram.instructions program) lbl.

(** What one turn of the [while] loop does after fetching [instr]:
    go on (the [pc++] is included), or leave by [return true]. *)
Inductive signal :=
| Next (self : t)
| ReturnTrue (self : t).

Definition advance (self : t) : signal := Next (set_pc (pc self + 1) self).

Definition dispatch (program : IRProgram.t) (self : t) (instr : Instruction.t)
  : outcome signal :=
  match Instruction.type instr with
  | InstrType.BIN_OP => s ← executeBinOp self instr; Ok (advance s)
  | InstrType.UN_OP => s ← executeUnOp self instr; Ok (advance s)
  | InstrType.ASSIGN => s ← executeAssign self instr; Ok (advance s)
  | InstrType.LABEL => Ok (advance self)
  | InstrType.GOTO =>
      i ← findLabel program (Instruction.label instr);
      Ok (advance (set_pc (i - 1) self))
  | InstrType.IF_GOTO =>
      condValue ← getValue self (Instruction.op1 instr);
      if condValue =? 0 then
        i ← findLabel program (Instruction.label instr);
        Ok (advance (set_pc (i - 1) self))
      else Ok (advance self)
  | InstrType.PRINT =>
      v ← getValue self (Instruction.op1 instr);
      Ok (advance (push_output (to_string v) self))
  | InstrType.RETURN => Ok (ReturnTrue self)
  | InstrType.CALL =>
      if String.eqb (Instruction.funcName instr) "print" then
        match Instruction.args instr with
        | a0 :: _ =>
            v ← getValue self a0;
            Ok (advance (push_output (to_string v) self))
        | [] => Ok (advance self)
        end
      else Ok (advance self)
  | InstrType.NOP => Ok (advance self)
  | InstrType.CONST => Ok (advance self)   (* no [case]: falls out of the switch *)
  end.

(** The [while] loop with at most [fuel] turns.  [Some (b, self)]: the
    loop was left with result [b] in interpreter state [self]; [None]: it
    was still running after [fuel] turns, or the process was killed by the
    division trap, which the [catch] of [execute] does not see.  The counter
    is never negative at the head of the loop, so [Z.to_nat] is the index. *)
Fixpoint loop (fuel : nat) (program : IRProgram.t) (self : t)
  : option (bool * t) :=
  match fuel with
  | O => None
  | S fuel' =>
      if pc self <? Z.of_nat (length (IRProgram.instructions program)) then
        match IRProgram.instructions program !! Z.to_nat (pc self) with
        | None => None
        | Some instr =>
            match dispatch program self instr with
            | Throw _ => Some (false, self)
            | Trap => None
            | Ok (ReturnTrue s) => Some (true, s)
            | Ok (Next s) => loop fuel' program s
            end
        end
      else Some (true, self)
  end.

(** The entry of [execute]: clear, then [variables[var] = 0] for every
    key of [variableTypes]. *)
Definition reset (self : t) (program : IRProgram.t) : t :=
  mk ((fun _ => 0) <$> IRProgram.variableTypes program) [] 0.

Definition execute (fuel : nat) (self : t) (program : IRProgram.t)
  : option (bool * t) :=
  loop fuel program (reset self program).

Definition getOutput (self : t) : list string := output self.

(** Vocabulary for statements about runs (not in the source): the
    instruction the loop fetches in state [self], if it goes on; and the
    state at the head of the loop after [n] completed turns. *)
Definition fetch (program : IRProgram.t) (self : t) : option Instruction.t :=
  if pc self <? Z.of_nat (length (IRProgram.instructions program))
  then IRProgram.instructions program !! Z.to_nat (pc self)
  else None.

Fixpoint after (n : nat) (program : IRProgram.t) (self : t) : option t :=
  match n with
  | O => Some self
  | S n' =>
      match fetch program self with
      | Some instr =>
          match dispatch program self instr with
          | Ok (Next s) => after n' program s
          | _ => None
          end
      | None => None
      end
  end.
End Interpreter.

(** ** optimizer.h *)

Module Optimizer.
(** The optimizer throws nothing; [None] is the process killed by the
    division trap while folding. *)

(** The [switch] of the BIN_OP branch of [foldConstants]. *)
Definition foldBin (op : BinOp.t) (val1 val2 : Z) : option Z :=
  match op with
  | BinOp.ADD => Some (wrap (val1 + val2))
  | BinOp.SUB => Some (wrap (val1 - val2))
  | BinOp.MUL => Some (wrap (val1 * val2))
  | BinOp.DIV =>
      if negb (val2 =? 0)
      then if divTraps val1 val2 then None else Some (Z.quot val1 val2)
      else Some 0
  | BinOp.MOD =>
      if negb (val2 =? 0)
      then if divTraps val1 val2 then None else Some (Z.rem val1 val2)
      else Some 0
  | BinOp.EQ => Some (if val1 =? val2 then 1 else 0)
  | BinOp.NE => Some (if negb (val1 =? val2) then 1 else 0)
  | BinOp.LT => Some (if val1 <? val2 then 1 else 0)
  | BinOp.GT => Some (if val1 >? val2 then 1 else 0)
  | BinOp.LE => Some (if val1 <=? val2 then 1 else 0)
  | BinOp.GE => Some (if val1 >=? val2 then 1 else 0)
  | BinOp.AND => Some (if negb (val1 =? 0) && negb (val2 =? 0) then 1 else 0)
  | BinOp.OR => Some (if negb (val1 =? 0) || negb (val2 =? 0) then 1 else 0)
  end.

Definition foldUn (op : UnOp.t) (val : Z) : Z :=
  match op with
  | UnOp.NEG => wrap (- val)
  | UnOp.NOT => if negb (val =? 0) then 0 else 1
  end.

(** The body of the loop of [foldConstants], on one instruction. *)
Definition foldInstr (instr : Instruction.t) : option Instruction.t :=
  match Instruction.type instr with
  | InstrType.BIN_OP =>
      if Operand.isConst (Instruction.op1 instr)
         && Operand.isConst (Instruction.op2 instr)
      then
        let val1 := Operand.value (Instruction.op1 instr) in
        let val2 := Operand.value (Instruction.op2 instr) in
        foldedValue ← foldBin (Instruction.binOp instr) val1 val2;
        Some (Instruction.set_op1 (Operand.of_int foldedValue)
                (Instruction.set_type InstrType.ASSIGN instr))
      else Some instr
  | InstrType.UN_OP =>
      if Operand.isConst (Instruction.op1 instr) then
        let val := Operand.value (Instruction.op1 instr) in
        let foldedValue := foldUn (Instruction.unOp instr) val in
        Some (Instruction.set_op1 (Operand.of_int foldedValue)
                (Instruction.set_type InstrType.ASSIGN instr))
      else Some instr
  | _ => Some instr
  end.

(** The loop over the instructions, in order: it ends with a program when
    every instruction folds. *)
Definition foldConstants (input : IRProgram.t) : option IRProgram.t :=
  instrs ← mapM foldInstr (IRProgram.instructions input);
  Some (IRProgram.set_instructions instrs input).

(** [type == ASSIGN || type == BIN_OP || type == UN_OP] *)
Definition writesResult (instr : Instruction.t) : bool :=
  match Instruction.type instr with
  | InstrType.ASSIGN | InstrType.BIN_OP | InstrType.UN_OP => true
  | _ => false
  end.

(** First pass of [eliminateDeadCode], one instruction: "Mark assignments". *)
Definition markAssigned (assignedVars : gset string) (instr : Instruction.t)
  : gset string :=
  if writesResult instr
  then {[Operand.str (Instruction.result instr)]} ∪ assignedVars
  else assignedVars.

(** First pass of [eliminateDeadCode], one instruction: "Mark uses". *)
Definition markUsed (usedVars : gset string) (instr : Instruction.t)
  : gset string :=
  match Instruction.type instr with
  | InstrType.PRINT | InstrType.RETURN | InstrType.IF_GOTO
  | InstrType.UN_OP | InstrType.ASSIGN =>
      {[Operand.str (Instruction.op1 instr)]} ∪ usedVars
  | InstrType.BIN_OP =>
      {[Operand.str (Instruction.op2 instr)]}
        ∪ ({[Operand.str (Instruction.op1 instr)]} ∪ usedVars)
  | InstrType.CALL =>
      list_to_set (Operand.str <$> Instruction.args instr) ∪ usedVars
  | _ => usedVars
  end.

Definition assignedVarsOf (instrs : list Instruction.t) : gset string :=
  fold_left markAssigned instrs ∅.

Definition usedVarsOf (instrs : list Instruction.t) : gset string :=
  fold_left markUsed instrs ∅.

(** Second pass, one instruction: the value of [isDead]. *)
Definition isDead (assignedVars usedVars : gset string) (instr : Instruction.t)
  : bool :=
  writesResult instr
  && bool_decide (Operand.str (Instruction.result instr) ∈ assignedVars)
  && negb (bool_decide (Operand.str (Instruction.result instr) ∈ usedVars)).

Definition eliminateDeadCode (input : IRProgram.t) : IRProgram.t :=
  let instrs := IRProgram.instructions input in
  let usedVars := usedVarsOf instrs in
  let assignedVars := assignedVarsOf instrs in
  IRProgram.set_instructions
    (List.filter (fun instr => negb (isDead assignedVars usedVars instr)) instrs)
    input.

Definition optimize (input : IRProgram.t) : option IRProgram.t :=
  result ← foldConstants input;
  Some (eliminateDeadCode result).
End Optimizer.

(** ** parser.h: the AST (data only) *)

(** Induction over the syntax goes through the lists of children. *)
Scheme All for list.

(** [ExpressionPtr]: [NullExpr] is the null pointer.  The [dataType] field
    is set by the constructors only: ["bool"] by [ConstExpr(bool)], ["int"]
    by all others. *)
Inductive Expression :=
| NullExpr
| BinExpr (left : Expression) (op : BinOp.t) (right : Expression)
| UnExpr (op : UnOp.t) (operand : Expression)
| VarExpr (name : string)
| ConstExpr (value : Z + bool)
| CallExpr (funcName : string) (args : list Expression).

Definition Expression_dataType (e : Expression) : string :=
  match e with
  | ConstExpr (inr _) => "bool"
  | _ => "int"
  end.

(** [StatementPtr]: [NullStmt] is the null pointer; [PlainStmt] is a bare
    [Statement] object, which the parser builds for an expression statement
    and which no [dynamic_pointer_cast] of the visitors matches. *)
Inductive Statement :=
| NullStmt
| PlainStmt
| DeclStmt (varName dataType : string) (initializer : Expression) (line : Z)
| AssignStmt (varName : string) (value : Expression)
| IfStmt (condition : Expression) (thenBranch elseBranch : list Statement)
| WhileStmt (condition : Expression) (body : list Statement)
| ForStmt (init : Statement) (condition update : Expression) (body : list Statement)
| BlockStmt (statements : list Statement)
| ReturnStmt (value : Expression)
| PrintStmt (value : Expression).

Record Program := { statements : list Statement }.

(** [ProgramPtr]: [None] is the null pointer. *)
Definition ProgramPtr := option Program.

(** ** semantic.h *)

Module SemanticAnalyzer.
Record Symbol := mkSymbol {
  name : string;
  type : string;          (* "int", "bool", "func" *)
  definedLine : Z;
  initialized : bool
}.

Record t := mk {
  symbolTable : gmap string Symbol;
  errors : list string;
  warnings : list string
}.

Definition fresh : t := mk ∅ [] [].

Definition push_error (msg : string) (self : t) : t :=
  mk (symbolTable self) (errors self ++ [msg]) (warnings self).
Definition push_warning (msg : string) (self : t) : t :=
  mk (symbolTable self) (errors self) (warnings self ++ [msg]).
Definition set_symbolTable (m : gmap string Symbol) (self : t) : t :=
  mk m (errors self) (warnings self).

(** [symbolTable.count(name)] as a condition *)
Definition defined (self : t) (n : string) : bool :=
  bool_decide (is_Some (symbolTable self !! n)).

Definition isVariableDefined (self : t) (n : string) : bool := defined self n.

Definition getVariableType (self : t) (n : string) : string :=
  match symbolTable self !! n with
  | Some sym => type sym
  | None => EmptyString
  end.

Definition visitVarExpr (n : string) (self : t) : string * t :=
  match symbolTable self !! n with
  | None => ("int", push_error ("Undefined variable '" +:+ n +:+ "'") self)
  | Some sym =>
      let self1 :=
        if negb (initialized sym)
        then push_warning ("Variable '" +:+ n +:+ "' may be uninitialized") self
        else self in
      (type sym, self1)
  end.

Definition isComparison (op : BinOp.t) : bool :=
  match op with
  | BinOp.EQ | BinOp.NE | BinOp.LT | BinOp.GT | BinOp.LE | BinOp.GE => true
  | _ => false
  end.

Definition isLogical (op : BinOp.t) : bool :=
  match op with
  | BinOp.AND | BinOp.OR => true
  | _ => false
  end.

Definition warn_unless (ok : bool) (msg : string) (self : t) : t :=
  if ok then self else push_warning msg self.

(** [visitExpression] with [visitBinExpr], [visitUnExpr], [visitVarExpr]
    and [visitCallExpr] (which does not visit the arguments). *)
Fixpoint visitExpression (expr : Expression) (self : t) : string * t :=
  match expr with
  | NullExpr => ("int", self)
  | BinExpr l op r =>
      let '(leftType, self1) := visitExpression l self in
      let '(rightType, self2) := visitExpression r self1 in
      if isComparison op then ("bool", self2)
      else if isLogical op then
        let self3 :=
          warn_unless (String.eqb leftType "bool")
            ("Logical operator expects boolean, got " +:+ leftType) self2 in
        let self4 :=
          warn_unless (String.eqb rightType "bool")
            ("Logical operator expects boolean, got " +:+ rightType) self3 in
        ("bool", self4)
      else
        (leftType,
         warn_unless (String.eqb leftType rightType)
           "Type mismatch in binary operation" self2)
  | UnExpr op operand =>
      let '(opType, self1) := visitExpression operand self in
      match op with
      | UnOp.NEG =>
          ("int", warn_unless (String.eqb opType "int")
                    ("Unary minus expects int, got " +:+ opType) self1)
      | UnOp.NOT =>
          ("bool", warn_unless (String.eqb opType "bool")
                     ("Logical not expects bool, got " +:+ opType) self1)
      end
  | VarExpr n => visitVarExpr n self
  | ConstExpr _ => (Expression_dataType expr, self)
  | CallExpr _ _ => ("int", self)
  end.

Definition isNull (e : Expression) : bool :=
  match e with NullExpr => true | _ => false end.

Definition visitDecl (varName dataType : string) (initializer : Expression)
    (line : Z) (self : t) : t :=
  if defined self varName then
    push_error ("Variable '" +:+ varName +:+ "' already defined") self
  else
    let sym := mkSymbol varName dataType line (negb (isNull initializer)) in
    let self1 :=
      if negb (isNull initializer) then
        let '(exprType, s) := visitExpression initializer self in
        warn_unless (String.eqb exprType dataType)
          ("Type mismatch in initialization of '" +:+ varName +:+
           "': expected " +:+ dataType +:+ ", got " +:+ exprType) s
      else self in
    set_symbolTable (<[varName := sym]> (symbolTable self1)) self1.

Definition visitAssign (varName : string) (value : Expression) (self : t) : t :=
  match symbolTable self !! varName with
  | None => push_error ("Variable '" +:+ varName +:+ "' is not defined") self
  | Some _ =>
      let '(exprType, self1) := visitExpression value self in
      match symbolTable self1 !! varName with
      | None => self1   (* not reached: expressions leave the table alone *)
      | Some sym =>
          let varType := type sym in
          let self2 :=
            warn_unless (String.eqb exprType varType)
              ("Type mismatch in assignment to '" +:+ varName +:+
               "': expected " +:+ varType +:+ ", got " +:+ exprType) self1 in
          set_symbolTable
            (<[varName := mkSymbol (name sym) (type sym) (definedLine sym) true]>
               (symbolTable self2)) self2
      end
  end.

(** The condition check shared by [visitIfStatement],
    [visitWhileStatement] and [visitForStatement]. *)
Definition visitCondition (what : string) (condition : Expression) (self : t) : t :=
  let '(condType, self1) := visitExpression condition self in
  warn_unless (String.eqb condType "bool")
    (what +:+ " condition should be boolean, got " +:+ condType) self1.

Fixpoint visitStatement (stmt : Statement) (self : t) : t :=
  match stmt with
  | NullStmt => self
  | PlainStmt => self
  | DeclStmt varName dataType initializer line =>
      visitDecl varName dataType initializer line self
  | AssignStmt varName value => visitAssign varName value self
  | IfStmt condition thenBranch elseBranch =>
      let self1 := visitCondition "If" condition self in
      let self2 := fold_left (fun s st => visitStatement st s) thenBranch self1 in
      fold_left (fun s st => visitStatement st s) elseBranch self2
  | WhileStmt condition body =>
      let self1 := visitCondition "While" condition self in
      fold_left (fun s st => visitStatement st s) body self1
  | ForStmt init condition update body =>
      let self1 := visitStatement init self in
      let self2 :=
        if negb (isNull condition)
        then visitCondition "For" condition self1 else self1 in
      let self3 :=
        if negb (isNull update)
        then snd (visitExpression update self2) else self2 in
      fold_left (fun s st => visitStatement st s) body self3
  | BlockStmt statements =>
      fold_left (fun s st => visitStatement st s) statements self
  | ReturnStmt value =>
      if negb (isNull value) then snd (visitExpression value self) else self
  | PrintStmt value => snd (visitExpression value self)
  end.

(** The loop of [analyze] over the statements of the program. *)
Definition visitStatements (stmts : list Statement) (self : t) : t :=
  fold_left (fun s st => visitStatement st s) stmts self.

Definition empty {A} (l : list A) : bool :=
  match l with [] => true | _ => false end.

(** [analyze]: the result and the analyzer afterwards.  Nothing under
    [visitStatement] throws, so the [catch] branch is not reached. *)
Definition analyze (self : t) (program : ProgramPtr) : bool * t :=
  match program with
  | None => (false, self)
  | Some prog =>
      let self1 := visitStatements (statements prog) self in
      (empty (errors self1), self1)
  end.

Definition getErrors (self : t) : list string := errors self.
Definition getWarnings (self : t) : list string := warnings self.
End SemanticAnalyzer.

(** ** codegen.h *)

Module CodeGenerator.
Record t := mk {
  ir : IRProgram.t;
  tempCounter : Z;
  labelCounter : Z;
  variableTypes : gmap string Z
}.

Definition fresh : t := mk IRProgram.empty 0 0 ∅.

Definition genTemp (self : t) : string * t :=
  ("t" +:+ to_string (tempCounter self),
   mk (ir self) (tempCounter self + 1) (labelCounter self) (variableTypes self)).

Definition genLabel (self : t) : string * t :=
  ("L" +:+ to_string (labelCounter self),
   mk (ir self) (tempCounter self) (labelCounter self + 1) (variableTypes self)).

Definition emitInstruction (instr : Instruction.t) (self : t) : t :=
  mk (IRProgram.addInstruction instr (ir self))
     (tempCounter self) (labelCounter self) (variableTypes self).

(** [ir.variableTypes[varName] = typeCode; variableTypes[varName] = typeCode] *)
Definition registerType (varName dataType : string) (self : t) : t :=
  let typeCode := if String.eqb dataType "int" then 0 else 1 in
  mk (IRProgram.set_variableTypes
        (<[varName := typeCode]> (IRProgram.variableTypes (ir self))) (ir self))
     (tempCounter self) (labelCounter self)
     (<[varName := typeCode]> (variableTypes self)).

(** [genExpression] with [genBinExpr], [genUnExpr] and [genCallExpr]. *)
Fixpoint genExpression (expr : Expression) (self : t) : Operand.t * t :=
  match expr with
  | NullExpr => (Operand.of_int 0, self)
  | BinExpr l op r =>
      let '(left_, self1) := genExpression l self in
      let '(right_, self2) := genExpression r self1 in
      let '(result, self3) := genTemp self2 in
      let instr :=
        Instruction.createBinOp (Operand.named result Operand.Type_.TEMP)
          op left_ right_ in
      (Operand.named result Operand.Type_.TEMP, emitInstruction instr self3)
  | UnExpr op e =>
      let '(operand, self1) := genExpression e self in
      let '(result, self2) := genTemp self1 in
      let instr :=
        Instruction.createUnOp (Operand.named result Operand.Type_.TEMP)
          op operand in
      (Operand.named result Operand.Type_.TEMP, emitInstruction instr self2)
  | VarExpr n => (Operand.named n Operand.Type_.VAR, self)
  | ConstExpr (inl val) => (Operand.of_int val, self)
  | ConstExpr (inr val) => (Operand.of_int (if val then 1 else 0), self)
  | CallExpr fn arguments =>
      let '(args, self1) :=
        fold_left
          (fun '(acc, s) arg =>
             let '(o, s') := genExpression arg s in ((acc ++ [o])%list, s'))
          arguments ([], self) in
      let '(result, self2) := genTemp self1 in
      let instr :=
        Instruction.createCall (Operand.named result Operand.Type_.TEMP)
          fn args in
      (Operand.named result Operand.Type_.TEMP, emitInstruction instr self2)
  end.

Definition genDecl (varName dataType : string) (initializer : Expression)
    (self : t) : t :=
  let self1 := registerType varName dataType self in
  match initializer with
  | NullExpr => self1
  | _ =>
      let '(result, self2) := genExpression initializer self1 in
      emitInstruction
        (Instruction.createAssign (Operand.named varName Operand.Type_.VAR) result)
        self2
  end.

Definition genAssign (varName : string) (value : Expression) (self : t) : t :=
  let '(result, self1) := genExpression value self in
  emitInstruction
    (Instruction.createAssign (Operand.named varName Operand.Type_.VAR) result)
    self1.

(** [genStatement] with [genIfStatement], [genWhileStatement] and
    [genForStatement]. *)
Fixpoint genStatement (stmt : Statement) (self : t) : t :=
  match stmt with
  | NullStmt => self
  | PlainStmt => self
  | DeclStmt varName dataType initializer _ =>
      genDecl varName dataType initializer self
  | AssignStmt varName value => genAssign varName value self
  | IfStmt cond thenBranch elseBranch =>
      let '(condition, self1) := genExpression cond self in
      let '(elseLabel, self2) := genLabel self1 in
      let '(endLabel, self3) := genLabel self2 in
      let self4 :=
        emitInstruction (Instruction.createIfGoto condition elseLabel) self3 in
      let self5 := fold_left (fun s st => genStatement st s) thenBranch self4 in
      match elseBranch with
      | [] => emitInstruction (Instruction.createLabel elseLabel) self5
      | _ =>
          let self6 := emitInstruction (Instruction.createGoto endLabel) self5 in
          let self7 := emitInstruction (Instruction.createLabel elseLabel) self6 in
          let self8 := fold_left (fun s st => genStatement st s) elseBranch self7 in
          emitInstruction (Instruction.createLabel endLabel) self8
      end
  | WhileStmt cond body =>
      let '(loopLabel, self1) := genLabel self in
      let '(endLabel, self2) := genLabel self1 in
      let self3 := emitInstruction (Instruction.createLabel loopLabel) self2 in
      let '(condition, self4) := genExpression cond self3 in
      let self5 :=
        emitInstruction (Instruction.createIfGoto condition endLabel) self4 in
      let self6 := fold_left (fun s st => genStatement st s) body self5 in
      let self7 := emitInstruction (Instruction.createGoto loopLabel) self6 in
      emitInstruction (Instruction.createLabel endLabel) self7
  | ForStmt init cond update body =>
      let self0 := genStatement init self in
      let '(loopLabel, self1) := genLabel self0 in
      let '(endLabel, self2) := genLabel self1 in
      let self3 := emitInstruction (Instruction.createLabel loopLabel) self2 in
      let self4 :=
        match cond with
        | NullExpr => self3
        | _ =>
            let '(condition, s) := genExpression cond self3 in
            emitInstruction (Instruction.createIfGoto condition endLabel) s
        end in
      let self5 := fold_left (fun s st => genStatement st s) body self4 in
      let self6 :=
        match update with
        | NullExpr => self5
        | _ => snd (genExpression update self5)
        end in
      let self7 := emitInstruction (Instruction.createGoto loopLabel) self6 in
      emitInstruction (Instruction.createLabel endLabel) self7
  | BlockStmt statements =>
      fold_left (fun s st => genStatement st s) statements self
  | ReturnStmt NullExpr =>
      emitInstruction (Instruction.createReturn (Operand.of_int 0)) self
  | ReturnStmt value =>
      let '(result, self1) := genExpression value self in
      emitInstruction (Instruction.createReturn result) self1
  | PrintStmt value =>
      let '(result, self1) := genExpression value self in
      emitInstruction (Instruction.createPrint result) self1
  end.

(** First pass of [generate]: the declarations among the top-level
    statements. *)
Definition collectDecl (self : t) (stmt : Statement) : t :=
  match stmt with
  | DeclStmt varName dataType _ _ => registerType varName dataType self
  | _ => self
  end.

(** [generate]: the returned program and the generator afterwards. *)
Definition generate (self : t) (program : ProgramPtr) : IRProgram.t * t :=
  let self0 :=
    mk (IRProgram.set_instructions [] (ir self)) 0 0 (variableTypes self) in
  match program with
  | None => (ir self0, self0)
  | Some prog =>
      let self1 := fold_left collectDecl (statements prog) self0 in
      let self2 :=
        fold_left (fun s st => genStatement st s) (statements prog) self1 in
      (ir self2, self2)
  end.
End CodeGenerator.

(** ** Scenario programs *)

(** [int a = 2; int b = 3; print(a + b);] as the parser builds it. *)
Definition scenarioA : Program :=
  {| statements :=
       [ DeclStmt "a" "int" (ConstExpr (inl 2)) 1;
         DeclStmt "b" "int" (ConstExpr (inl 3)) 1;
         PrintStmt (BinExpr (VarExpr "a") BinOp.ADD (VarExpr "b")) ] |}.

Definition scenarioA_tac : IRProgram.t :=
  fst (CodeGenerator.generate CodeGenerator.fresh (Some scenarioA)).


(** * Vocabulary of the properties and example programs *)

(** [self'] comes from [self] by appending errors only. *)
Definition errorsGrow (self self' : SemanticAnalyzer.t) : Prop :=
  SemanticAnalyzer.errors self `prefix_of` SemanticAnalyzer.errors self'.

(** [t0 = 2 + 3], with the destination a Temporary as [genBinExpr] emits it. *)
Definition temp_add : Instruction.t :=
  Instruction.createBinOp (Operand.named "t0" Operand.Type_.TEMP) BinOp.ADD
    (Operand.of_int 2) (Operand.of_int 3).

(** [x = 1; print(x)] run on a new interpreter and on a used one. *)
Definition print_x : IRProgram.t :=
  IRProgram.mk
    [ Instruction.createAssign (Operand.named "x" Operand.Type_.VAR) (Operand.of_int 1);
      Instruction.createPrint (Operand.named "x" Operand.Type_.VAR) ]
    {["x" := 0]} ∅.

Definition used_interpreter : Interpreter.t :=
  Interpreter.mk {["x" := 41; "junk" := 7]} ["old"] 3.

Definition isDivOrMod (op : BinOp.t) : bool :=
  match op with
  | BinOp.DIV | BinOp.MOD => true
  | _ => false
  end.

(** A BIN_OP or UN_OP whose source operands are all Constants. *)
Definition constOperands (instr : Instruction.t) : bool :=
  match Instruction.type instr with
  | InstrType.BIN_OP =>
      Operand.isConst (Instruction.op1 instr)
      && Operand.isConst (Instruction.op2 instr)
  | InstrType.UN_OP => Operand.isConst (Instruction.op1 instr)
  | _ => false
  end.

(** A DIV or MOD whose second operand holds the value 0. *)
Definition zeroDivisor (instr : Instruction.t) : bool :=
  match Instruction.type instr with
  | InstrType.BIN_OP =>
      isDivOrMod (Instruction.binOp instr)
      && (Operand.value (Instruction.op2 instr) =? 0)
  | _ => false
  end.

(** A DIV or MOD of [INT_MIN] by [-1], by the values its operands hold. *)
Definition overflowDivision (instr : Instruction.t) : bool :=
  match Instruction.type instr with
  | InstrType.BIN_OP =>
      isDivOrMod (Instruction.binOp instr)
      && divTraps (Operand.value (Instruction.op1 instr))
           (Operand.value (Instruction.op2 instr))
  | _ => false
  end.

(** The instructions at which folding is killed: a DIV or MOD of the
    Constants [INT_MIN] and [-1]. *)
Definition foldTraps (instr : Instruction.t) : bool :=
  constOperands instr && overflowDivision instr.

(** The instruction [instr] rewritten into [result = v]. *)
Definition assignConst (v : Z) (instr : Instruction.t) : Instruction.t :=
  Instruction.set_op1 (Operand.of_int v)
    (Instruction.set_type InstrType.ASSIGN instr).









(** No instruction of the program is the Label [lbl]. *)
Definition noLabel (program : IRProgram.t) (lbl : string) : Prop :=
  Forall (fun instr => Interpreter.isLabel lbl instr = false)
    (IRProgram.instructions program).

(** The program contains a Goto or IfGoto whose target names no Label. *)
Definition danglingJump (program : IRProgram.t) : Prop :=
  exists instr,
    In instr (IRProgram.instructions program)
    /\ (Instruction.type instr = InstrType.GOTO
        \/ Instruction.type instr = InstrType.IF_GOTO)
    /\ noLabel program (Instruction.label instr).

(** A jump that is taken in state [self]: a Goto, or an IfGoto whose
    condition reads 0. *)
Definition jumpTaken (self : Interpreter.t) (instr : Instruction.t) : Prop :=
  Instruction.type instr = InstrType.GOTO
  \/ (Instruction.type instr = InstrType.IF_GOTO
      /\ Interpreter.getValue self (Instruction.op1 instr) = Ok 0).

(** [print(7); return 0; goto L9] with no label [L9]. *)
Definition unreached_dangling : IRProgram.t :=
  IRProgram.mk
    [ Instruction.createPrint (Operand.of_int 7);
      Instruction.createReturn (Operand.of_int 0);
      Instruction.createGoto "L9" ] ∅ ∅.

(** [ifz 1 goto L9] with no label [L9]: the jump is reached, not taken. *)
Definition untaken_dangling : IRProgram.t :=
  IRProgram.mk [ Instruction.createIfGoto (Operand.of_int 1) "L9" ] ∅ ∅.

(** [print(7); ifz 0 goto L9]. *)
Definition taken_dangling : IRProgram.t :=
  IRProgram.mk
    [ Instruction.createPrint (Operand.of_int 7);
      Instruction.createIfGoto (Operand.of_int 0) "L9" ] ∅ ∅.

(** The kinds that [optimize] must leave alone. *)
Definition isFrameInstr (instr : Instruction.t) : bool :=
  match Instruction.type instr with
  | InstrType.LABEL | InstrType.GOTO | InstrType.IF_GOTO | InstrType.PRINT
  | InstrType.RETURN | InstrType.CALL | InstrType.NOP => true
  | _ => false
  end.

(** A Print, Return or IfGoto: its [op1] is the operand it reads. *)
Definition isObserver (instr : Instruction.t) : bool :=
  match Instruction.type instr with
  | InstrType.PRINT | InstrType.RETURN | InstrType.IF_GOTO => true
  | _ => false
  end.

(** [t0 = a + b] and the program [t0 = a + b; print(t0)], where the
    temporary feeds a Print. *)
Definition add_a_b : Instruction.t :=
  Instruction.createBinOp (Operand.named "t0" Operand.Type_.TEMP) BinOp.ADD
    (Operand.named "a" Operand.Type_.VAR) (Operand.named "b" Operand.Type_.VAR).

Definition temp_feeds_print : IRProgram.t :=
  IRProgram.mk
    [ add_a_b; Instruction.createPrint (Operand.named "t0" Operand.Type_.TEMP) ]
    ∅ ∅.

(** [x = 1; t0 = 2 + 3; L0: print(t0); goto L0]: [x] is never read. *)
Definition dead_store : Instruction.t :=
  Instruction.createAssign (Operand.named "x" Operand.Type_.VAR) (Operand.of_int 1).

Definition with_dead_store : IRProgram.t :=
  IRProgram.mk
    [ dead_store;
      Instruction.createBinOp (Operand.named "t0" Operand.Type_.TEMP) BinOp.ADD
        (Operand.of_int 2) (Operand.of_int 3);
      Instruction.createLabel "L0";
      Instruction.createPrint (Operand.named "t0" Operand.Type_.TEMP);
      Instruction.createGoto "L0" ]
    {["x" := 0]} ∅.

(** What [optimize] returns for it: [t0 = 5; L0: print(t0); goto L0]. *)
Definition optimized_dead_store : IRProgram.t :=
  IRProgram.mk
    [ Instruction.set_op1 (Operand.of_int 5)
        (Instruction.set_type InstrType.ASSIGN
           (Instruction.createBinOp (Operand.named "t0" Operand.Type_.TEMP)
              BinOp.ADD (Operand.of_int 2) (Operand.of_int 3)));
      Instruction.createLabel "L0";
      Instruction.createPrint (Operand.named "t0" Operand.Type_.TEMP);
      Instruction.createGoto "L0" ]
    {["x" := 0]} ∅.

Definition isBinAdd (instr : Instruction.t) : bool :=
  match Instruction.type instr, Instruction.binOp instr with
  | InstrType.BIN_OP, BinOp.ADD => true
  | _, _ => false
  end.

(** The two parts of the scenario that the code does not meet: the one ADD
    of the generated code folds to the constant 5, and the optimized program
    runs to success with output ["5"]. *)
Definition scenarioA_folds_to_5 : Prop :=
  exists add,
    List.filter isBinAdd (IRProgram.instructions scenarioA_tac) = [add]
    /\ Optimizer.foldInstr add = Some (assignConst 5 add).

Definition scenarioA_prints_5 : Prop :=
  exists optimized fuel s,
    Optimizer.optimize scenarioA_tac = Some optimized
    /\ Interpreter.execute fuel Interpreter.fresh optimized = Some (true, s)
    /\ Interpreter.getOutput s = ["5"].

Definition redeclared (varName : string) : string :=
  "Variable '" +:+ varName +:+ "' already defined".

(** [int x = 1; int x = y; print(z);]: [x] is declared twice, and neither
    [y] (in the skipped initializer) nor [z] is declared. *)
Definition redeclaring : Program :=
  {| statements :=
       [ DeclStmt "x" "int" (ConstExpr (inl 1)) 1;
         DeclStmt "x" "int" (VarExpr "y") 2;
         PrintStmt (VarExpr "z") ] |}.

(** ** Vocabulary for runs, generated code and analysis *)

(** A Goto or an IfGoto. *)
Definition isJump (instr : Instruction.t) : bool :=
  match Instruction.type instr with
  | InstrType.GOTO | InstrType.IF_GOTO => true
  | _ => false
  end.

(** A program without Goto and IfGoto. *)
Definition jumpFree (program : IRProgram.t) : Prop :=
  Forall (fun instr => isJump instr = false) (IRProgram.instructions program).

(** A DIV or MOD instruction. *)
Definition isDivision (instr : Instruction.t) : bool :=
  match Instruction.type instr with
  | InstrType.BIN_OP => isDivOrMod (Instruction.binOp instr)
  | _ => false
  end.

(** The run of [program] from the state [self] reaches a DIV or MOD of
    [INT_MIN] by [-1]: the process is killed there. *)
Definition killedFrom (program : IRProgram.t) (self : Interpreter.t) : Prop :=
  exists (n : nat) s instr,
    Interpreter.after n program self = Some s
    /\ Interpreter.fetch program s = Some instr
    /\ Interpreter.dispatch program s instr = Trap.

(** The messages of the runtime errors. *)
Definition isRuntimeError (what : string) : Prop :=
  (exists x, what = "Undefined variable: " +:+ x)
  \/ what = "Division by zero"
  \/ what = "Modulo by zero"
  \/ (exists lbl, what = "Label not found: " +:+ lbl).

(** The operand names an instruction reads, as the first pass of
    [eliminateDeadCode] marks them. *)
Definition readNames (instr : Instruction.t) : list string :=
  match Instruction.type instr with
  | InstrType.PRINT | InstrType.RETURN | InstrType.IF_GOTO
  | InstrType.UN_OP | InstrType.ASSIGN =>
      [Operand.str (Instruction.op1 instr)]
  | InstrType.BIN_OP =>
      [Operand.str (Instruction.op1 instr); Operand.str (Instruction.op2 instr)]
  | InstrType.CALL => Operand.str <$> Instruction.args instr
  | _ => []
  end.

(** Some instruction of [instrs] reads the name [x]. *)
Definition readIn (instrs : list Instruction.t) (x : string) : Prop :=
  exists user, In user instrs /\ In x (readNames user).

(** No BIN_OP of the program is a DIV or MOD of two Constants with divisor 0. *)
Definition noConstZeroDivisor (program : IRProgram.t) : Prop :=
  Forall (fun instr => constOperands instr && zeroDivisor instr = false)
    (IRProgram.instructions program).

(** [x = 2 + 3; print(x)] with [x] declared. *)
Definition fold_and_print : IRProgram.t :=
  IRProgram.mk
    [ Instruction.createBinOp (Operand.named "x" Operand.Type_.VAR) BinOp.ADD
        (Operand.of_int 2) (Operand.of_int 3);
      Instruction.createPrint (Operand.named "x" Operand.Type_.VAR) ]
    {["x" := 0]} ∅.

(** What [foldConstants] returns for it: [x = 5; print(x)]. *)
Definition folded_and_print : IRProgram.t :=
  IRProgram.mk
    [ assignConst 5
        (Instruction.createBinOp (Operand.named "x" Operand.Type_.VAR) BinOp.ADD
           (Operand.of_int 2) (Operand.of_int 3));
      Instruction.createPrint (Operand.named "x" Operand.Type_.VAR) ]
    {["x" := 0]} ∅.

(** The messages of the fatal errors of the analyzer. *)
Definition isUndefinedVariable (msg : string) : Prop :=
  exists x, msg = "Undefined variable '" +:+ x +:+ "'".

Definition isSemanticError (msg : string) : Prop :=
  (exists x, msg = "Variable '" +:+ x +:+ "' already defined")
  \/ (exists x, msg = "Variable '" +:+ x +:+ "' is not defined")
  \/ isUndefinedVariable msg.

(** [self'] comes from [self] by appending errors that all satisfy [P]. *)
Definition appendsErrors (P : string -> Prop) (self self' : SemanticAnalyzer.t)
  : Prop :=
  exists new,
    SemanticAnalyzer.errors self' = (SemanticAnalyzer.errors self ++ new)%list
    /\ Forall P new.

(** Every symbol of [self] is still in the table of [self'], with its name,
    type and line, and still initialized if it was. *)
Definition tableGrows (self self' : SemanticAnalyzer.t) : Prop :=
  forall x sym,
    SemanticAnalyzer.symbolTable self !! x = Some sym ->
    exists sym',
      SemanticAnalyzer.symbolTable self' !! x = Some sym'
      /\ SemanticAnalyzer.name sym' = SemanticAnalyzer.name sym
      /\ SemanticAnalyzer.type sym' = SemanticAnalyzer.type sym
      /\ SemanticAnalyzer.definedLine sym' = SemanticAnalyzer.definedLine sym
      /\ (SemanticAnalyzer.initialized sym = true ->
          SemanticAnalyzer.initialized sym' = true).

(** Two analyzers that differ at most in their warnings. *)
Definition sameUpToWarnings (s1 s2 : SemanticAnalyzer.t) : Prop :=
  SemanticAnalyzer.symbolTable s1 = SemanticAnalyzer.symbolTable s2
  /\ SemanticAnalyzer.errors s1 = SemanticAnalyzer.errors s2.

(** An analyzer that knows [x] as an uninitialized [int], and the
    statements [bool x; x = 1;]. *)
Definition x_int : SemanticAnalyzer.Symbol :=
  SemanticAnalyzer.mkSymbol "x" "int" 1 false.

Definition knows_x : SemanticAnalyzer.t :=
  SemanticAnalyzer.mk {["x" := x_int]} [] [].

Definition redeclare_assign_x : list Statement :=
  [ DeclStmt "x" "bool" NullExpr 2; AssignStmt "x" (ConstExpr (inl 1)) ].

(** The instructions a generator holds, and the synthetic names. *)
Definition code (g : CodeGenerator.t) : list Instruction.t :=
  IRProgram.instructions (CodeGenerator.ir g).

Definition tname (k : Z) : string := "t" +:+ to_string k.

Definition lname (k : Z) : string := "L" +:+ to_string k.

(** The generator [g] with [chunk] appended to its instructions and [dt]
    more temporaries handed out. *)
Definition extend (g : CodeGenerator.t) (chunk : list Instruction.t) (dt : Z)
  : CodeGenerator.t :=
  CodeGenerator.mk
    (IRProgram.set_instructions (code g ++ chunk) (CodeGenerator.ir g))
    (CodeGenerator.tempCounter g + dt) (CodeGenerator.labelCounter g)
    (CodeGenerator.variableTypes g).

(** The number of operator nodes (binary, unary, call) of an expression. *)
Fixpoint opCount (expr : Expression) : nat :=
  match expr with
  | BinExpr l _ r => S (opCount l + opCount r)
  | UnExpr _ e => S (opCount e)
  | CallExpr _ arguments => S (list_sum (List.map opCount arguments))
  | _ => O
  end.

(** A BIN_OP, UN_OP or CALL: the instructions that expressions lower to. *)
Definition isExprInstr (instr : Instruction.t) : bool :=
  match Instruction.type instr with
  | InstrType.BIN_OP | InstrType.UN_OP | InstrType.CALL => true
  | _ => false
  end.

Definition resultName (instr : Instruction.t) : string :=
  Operand.str (Instruction.result instr).

(** A run of expression instructions that write the temporaries numbered
    from [t0] on, one after the other. *)
Definition exprChunk (t0 : Z) (chunk : list Instruction.t) : Prop :=
  Forall (fun instr => isExprInstr instr = true
                       /\ Operand.isTemp (Instruction.result instr) = true) chunk
  /\ resultName <$> chunk = tname <$> seqZ t0 (Z.of_nat (length chunk)).

(** The operand an expression lowers to, against the instructions emitted
    for it: the destination of the last one, or no Temporary when nothing
    was emitted. *)
Definition operandOf (op : Operand.t) (chunk : list Instruction.t) : Prop :=
  match last chunk with
  | Some instr => op = Instruction.result instr
  | None => Operand.isTemp op = false
  end.

Definition isLabelInstr (instr : Instruction.t) : bool :=
  InstrType.eqb (Instruction.type instr) InstrType.LABEL.

(** The names of the Label instructions, and of the destinations of the
    expression instructions, in the order of the code. *)
Definition labelNames (chunk : list Instruction.t) : list string :=
  Instruction.label <$> List.filter isLabelInstr chunk.

Definition tempNames (chunk : list Instruction.t) : list string :=
  resultName <$> List.filter isExprInstr chunk.

(** Every jump of [part] names a Label instruction of [whole]. *)
Definition resolvedIn (whole part : list Instruction.t) : Prop :=
  forall jump,
    In jump part -> isJump jump = true ->
    exists target,
      In target whole
      /\ Interpreter.isLabel (Instruction.label jump) target = true.

(** The destination kinds of generated code: an Assign writes a Variable,
    an expression instruction a Temporary. *)
Definition destKindOK (instr : Instruction.t) : bool :=
  match Instruction.type instr with
  | InstrType.ASSIGN => Operand.isVar (Instruction.result instr)
  | InstrType.BIN_OP | InstrType.UN_OP | InstrType.CALL =>
      Operand.isTemp (Instruction.result instr)
  | _ => true
  end.

Definition jumpTargets (chunk : list Instruction.t) : list string :=
  Instruction.label <$> List.filter isJump chunk.

(** Code whose destinations have the right kinds, whose temporaries are
    [t0 .. t1-1] in order, whose Label instructions carry the numbers [ks]
    and whose jumps go to the numbers [js], in the order of the code. *)
Definition openChunk (t0 t1 : Z) (ks js : list Z) (chunk : list Instruction.t)
  : Prop :=
  t0 <= t1
  /\ Forall (fun instr => destKindOK instr = true) chunk
  /\ tempNames chunk = tname <$> seqZ t0 (t1 - t0)
  /\ labelNames chunk = lname <$> ks
  /\ jumpTargets chunk = lname <$> js.

(** Code as above whose label numbers are distinct and from [l0 .. l1-1],
    and whose jumps all go to labels of the code itself. *)
Definition closedChunk (t0 t1 l0 l1 : Z) (chunk : list Instruction.t) : Prop :=
  exists ks js,
    openChunk t0 t1 ks js chunk
    /\ l0 <= l1
    /\ NoDup ks
    /\ (forall k, k ∈ ks -> l0 <= k < l1)
    /\ (forall j, j ∈ js -> j ∈ ks).

(** The generator [g'] holds the code of [g] followed by a closed chunk
    that uses the temporaries and labels between the counters of [g] and
    those of [g']. *)
Definition generates (g g' : CodeGenerator.t) : Prop :=
  exists chunk,
    code g' = (code g ++ chunk)%list
    /\ closedChunk (CodeGenerator.tempCounter g) (CodeGenerator.tempCounter g')
         (CodeGenerator.labelCounter g) (CodeGenerator.labelCounter g') chunk.

(** The condition part and the update part of [genForStatement], which
    are skipped for a null expression. *)
Definition forCond (cond : Expression) (endLabel : string) (g : CodeGenerator.t)
  : CodeGenerator.t :=
  match cond with
  | NullExpr => g
  | _ =>
      let '(condition, s) := CodeGenerator.genExpression cond g in
      CodeGenerator.emitInstruction
        (Instruction.createIfGoto condition endLabel) s
  end.

Definition forUpdate (update : Expression) (g : CodeGenerator.t)
  : CodeGenerator.t :=
  match update with
  | NullExpr => g
  | _ => snd (CodeGenerator.genExpression update g)
  end.

(** The variable-type table of the program a generator holds. *)
Definition vtOf (g : CodeGenerator.t) : gmap string Z :=
  IRProgram.variableTypes (CodeGenerator.ir g).

(** [int x = 0; while (x < 3) { print(x); x = x + 1; }] as the parser
    builds it. *)
Definition scenarioB : Program :=
  {| statements :=
       [ DeclStmt "x" "int" (ConstExpr (inl 0)) 1;
         WhileStmt (BinExpr (VarExpr "x") BinOp.LT (ConstExpr (inl 3)))
           [ PrintStmt (VarExpr "x");
             AssignStmt "x" (BinExpr (VarExpr "x") BinOp.ADD (ConstExpr (inl 1))) ] ] |}.

(** What a turn that goes on changes: the output is extended, no variable
    is dropped, and the counter moves to the next instruction or, for a
    jump, to the index [findLabel] gave. *)
Definition turnFrame (program : IRProgram.t) (self : Interpreter.t)
    (instr : Instruction.t) (s' : Interpreter.t) : Prop :=
  Interpreter.output self `prefix_of` Interpreter.output s'
  /\ dom (Interpreter.variables self) ⊆ dom (Interpreter.variables s')
  /\ (Interpreter.pc s' = Interpreter.pc self + 1
      \/ (isJump instr = true
          /\ Interpreter.findLabel program (Instruction.label instr)
             = Ok (Interpreter.pc s'))).

(** The type code [genDecl] and the first pass of [generate] compute:
    [(decl->dataType == "int") ? 0 : 1]. *)
Definition typeCodeOf (dataType : string) : Z :=
  if String.eqb dataType "int" then 0 else 1.

(** The declarations [genStatement] meets, with their type names, in the
    order it meets them: those of the statement itself, of both branches of
    an If, of the body of a While, of the initialiser and the body of a
    For, and of a block. *)
Fixpoint declsIn (stmt : Statement) : list (string * string) :=
  match stmt with
  | DeclStmt varName dataType _ _ => [(varName, dataType)]
  | IfStmt _ thenBranch elseBranch =>
      (flat_map declsIn thenBranch ++ flat_map declsIn elseBranch)%list
  | WhileStmt _ body => flat_map declsIn body
  | ForStmt init _ _ body => (declsIn init ++ flat_map declsIn body)%list
  | BlockStmt statements => flat_map declsIn statements
  | _ => []
  end.

(** The declarations the first pass of [generate] meets: the top-level
    ones. *)
Definition topDecls (stmts : list Statement) : list (string * string) :=
  flat_map (fun stmt => match stmt with
                        | DeclStmt varName dataType _ _ => [(varName, dataType)]
                        | _ => []
                        end) stmts.

(** [variableTypes[varName] = typeCode] for each declaration in turn. *)
Definition registerAll (decls : list (string * string)) (types : gmap string Z)
  : gmap string Z :=
  fold_left (fun m d => <[fst d := typeCodeOf (snd d)]> m) decls types.

(** Everything the two passes of [generate] register, in order. *)
Definition registered (prog : Program) : list (string * string) :=
  (topDecls (statements prog) ++ flat_map declsIn (statements prog))%list.

(** Two generators run side by side from [g1] and [g2]: [h1] and [h2] hold
    the same new instructions after those of [g1] and [g2], and agree on
    both counters. *)
Definition inStep (g1 g2 h1 h2 : CodeGenerator.t) : Prop :=
  exists chunk,
    code h1 = (code g1 ++ chunk)%list
    /\ code h2 = (code g2 ++ chunk)%list
    /\ CodeGenerator.tempCounter h1 = CodeGenerator.tempCounter h2
    /\ CodeGenerator.labelCounter h1 = CodeGenerator.labelCounter h2.

(** The errors of reading and computing: every error of the interpreter
    but "Label not found". *)
Definition isDataError (what : string) : Prop :=
  (exists x, what = "Undefined variable: " +:+ x)
  \/ what = "Division by zero"
  \/ what = "Modulo by zero".

(** [print(1 / 0);] as the parser builds it. *)
Definition print_div_zero : Program :=
  {| statements :=
       [ PrintStmt (BinExpr (ConstExpr (inl 1)) BinOp.DIV (ConstExpr (inl 0))) ] |}.

(** * Properties *)

(** ** Runs of the interpreter loop *)

Section Runs.
Variable program : IRProgram.t.

Lemma fetch_Some self instr :
  Interpreter.fetch program self = Some instr ->
  (Interpreter.pc self <? Z.of_nat (length (IRProgram.instructions program))) = true
  /\ IRProgram.instructions program !! Z.to_nat (Interpreter.pc self) = Some instr.
Proof.
  unfold Interpreter.fetch.
  destruct (Interpreter.pc self <? _); [auto | discriminate].
Qed.

Lemma loop_fetch fuel self instr :
  Interpreter.fetch program self = Some instr ->
  Interpreter.loop (S fuel) program self =
    match Interpreter.dispatch program self instr with
    | Throw _ => Some (false, self)
    | Trap => None
    | Ok (Interpreter.ReturnTrue s) => Some (true, s)
    | Ok (Interpreter.Next s) => Interpreter.loop fuel program s
    end.
Proof.
  intros Hf. apply fetch_Some in Hf as [Hlt Hat].
  cbn [Interpreter.loop]. rewrite Hlt, Hat. reflexivity.
Qed.

Lemma loop_after n : forall k self self',
  Interpreter.after n program self = Some self' ->
  Interpreter.loop (n + k) program self = Interpreter.loop k program self'.
Proof.
  induction n as [|n IH]; intros k self self' Hafter.
  - cbn in Hafter. injection Hafter as <-. reflexivity.
  - cbn [Interpreter.after] in Hafter.
    destruct (Interpreter.fetch program self) as [instr|] eqn:Hf; [|discriminate].
    change (S n + k)%nat with (S (n + k)).
    rewrite (loop_fetch _ _ _ Hf).
    destruct (Interpreter.dispatch program self instr) as [[s|s]|w|];
      try discriminate.
    now apply IH.
Qed.

Lemma loop_throw k self instr w :
  Interpreter.fetch program self = Some instr ->
  Interpreter.dispatch program self instr = Throw w ->
  Interpreter.loop (S k) program self = Some (false, self).
Proof. intros Hf Hd. rewrite (loop_fetch _ _ _ Hf), Hd. reflexivity. Qed.

(** More fuel does not change a result already reached. *)
Lemma loop_mono fuel : forall k self r,
  Interpreter.loop fuel program self = Some r ->
  Interpreter.loop (fuel + k) program self = Some r.
Proof.
  induction fuel as [|fuel IH]; intros k self r H; [discriminate|].
  change (S fuel + k)%nat with (S (fuel + k)).
  cbn [Interpreter.loop] in *.
  destruct (Interpreter.pc self <? _); [|exact H].
  destruct (IRProgram.instructions program !! _) as [instr|]; [|discriminate].
  destruct (Interpreter.dispatch program self instr) as [[s|s]|w|]; auto.
Qed.

Lemma loop_deterministic fuel1 fuel2 self r1 r2 :
  Interpreter.loop fuel1 program self = Some r1 ->
  Interpreter.loop fuel2 program self = Some r2 ->
  r1 = r2.
Proof.
  intros H1 H2.
  apply (loop_mono _ fuel2) in H1. apply (loop_mono _ fuel1) in H2.
  rewrite (Nat.add_comm fuel2 fuel1) in H2. congruence.
Qed.

(** A throw in the state reached after [n] turns ends [execute] with
    [false], whatever the interpreter object held before. *)
Lemma execute_throw prior n self instr w fuel :
  Interpreter.after n program (Interpreter.reset prior program) = Some self ->
  Interpreter.fetch program self = Some instr ->
  Interpreter.dispatch program self instr = Throw w ->
  (n < fuel)%nat ->
  Interpreter.execute fuel prior program = Some (false, self).
Proof.
  intros Hafter Hf Hd Hlt. unfold Interpreter.execute.
  replace fuel with (n + S (fuel - S n))%nat by lia.
  rewrite (loop_after _ _ _ _ Hafter). eapply loop_throw; eauto.
Qed.

Lemma execute_mono fuel k prior r :
  Interpreter.execute fuel prior program = Some r ->
  Interpreter.execute (fuel + k) prior program = Some r.
Proof. apply loop_mono. Qed.

Lemma execute_deterministic fuel1 fuel2 prior1 prior2 r1 r2 :
  Interpreter.execute fuel1 prior1 program = Some r1 ->
  Interpreter.execute fuel2 prior2 program = Some r2 ->
  r1 = r2.
Proof. apply loop_deterministic. Qed.
End Runs.

(** ** Operand reads and writes *)

Lemma getValue_const self op :
  Operand.isConst op = true ->
  Interpreter.getValue self op = Ok (Operand.value op).
Proof. unfold Interpreter.getValue. now intros ->. Qed.

Lemma getValue_var self op :
  Operand.isVar op = true ->
  Interpreter.getValue self op =
    match Interpreter.variables self !! Operand.str op with
    | Some v => Ok v
    | None => Throw ("Undefined variable: " +:+ Operand.str op)
    end.
Proof.
  unfold Interpreter.getValue, Operand.isVar, Operand.isConst.
  now destruct (Operand.type op).
Qed.

Lemma getValue_temp self op :
  Operand.isTemp op = true -> Interpreter.getValue self op = Ok 0.
Proof.
  unfold Interpreter.getValue, Operand.isTemp, Operand.isVar, Operand.isConst.
  now destruct (Operand.type op).
Qed.

Lemma setValue_var_read self op v :
  Operand.isVar op = true ->
  Interpreter.getValue (Interpreter.setValue self op v) op = Ok v.
Proof.
  intros Hvar. rewrite getValue_var by exact Hvar.
  unfold Interpreter.setValue. rewrite Hvar. cbn.
  now rewrite lookup_insert_eq.
Qed.

Lemma setValue_not_var self op v :
  Operand.isVar op = false -> Interpreter.setValue self op v = self.
Proof. unfold Interpreter.setValue. now intros ->. Qed.

(** With a Variable as destination the computed result is in the store
    afterwards. *)
Lemma executeBinOp_var_destination self instr l r v :
  Interpreter.getValue self (Instruction.op1 instr) = Ok l ->
  Interpreter.getValue self (Instruction.op2 instr) = Ok r ->
  Interpreter.binResult (Instruction.binOp instr) l r = Ok v ->
  Operand.isVar (Instruction.result instr) = true ->
  exists self',
    Interpreter.executeBinOp self instr = Ok self'
    /\ Interpreter.getValue self' (Instruction.result instr) = Ok v.
Proof.
  intros H1 H2 Hv Hvar. unfold Interpreter.executeBinOp.
  rewrite H1, H2. cbn. rewrite Hv. cbn.
  eexists. split; [reflexivity|]. now apply setValue_var_read.
Qed.

Lemma executeUnOp_var_destination self instr operand :
  Interpreter.getValue self (Instruction.op1 instr) = Ok operand ->
  Operand.isVar (Instruction.result instr) = true ->
  exists self',
    Interpreter.executeUnOp self instr = Ok self'
    /\ Interpreter.getValue self' (Instruction.result instr)
       = Ok (Interpreter.unResult (Instruction.unOp instr) operand).
Proof.
  intros H1 Hvar. unfold Interpreter.executeUnOp. rewrite H1. cbn.
  eexists. split; [reflexivity|]. now apply setValue_var_read.
Qed.

(** C1 (as the code behaves): a Temporary operand is not looked up in the
    store and not written to it.  Reading the never-stored temporary [t0]
    yields 0 instead of the fatal error; executing [t0 = 2 + 3] leaves the
    interpreter unchanged, and the read of [t0] after it yields 0, not 5. *)
Theorem C1_temporary_bypasses_store :
  let t0 := Operand.named "t0" Operand.Type_.TEMP in
  Interpreter.getValue Interpreter.fresh t0 = Ok 0
  /\ Interpreter.executeBinOp Interpreter.fresh temp_add = Ok Interpreter.fresh
  /\ (s ← Interpreter.executeBinOp Interpreter.fresh temp_add;
      Interpreter.getValue s t0) = Ok 0
  /\ Interpreter.binResult BinOp.ADD 2 3 = Ok 5.
Proof. repeat split. Qed.

(** ** Self-resetting execution *)

(** C9: [execute] starts from a state that depends on the program only
    (empty output, counter 0, every declared variable 0), so its result does
    not depend on what the interpreter object held before; and two calls that
    return, with whatever iteration bounds, return the same boolean and the
    same output list. *)
Theorem C9_execute_self_resetting (program : IRProgram.t)
    (prior1 prior2 : Interpreter.t) :
  Interpreter.output (Interpreter.reset prior1 program) = []
  /\ Interpreter.pc (Interpreter.reset prior1 program) = 0
  /\ (forall x, Interpreter.variables (Interpreter.reset prior1 program) !! x
                = (fun _ => 0) <$> (IRProgram.variableTypes program !! x))
  /\ (forall fuel, Interpreter.execute fuel prior1 program
                   = Interpreter.execute fuel prior2 program)
  /\ (forall fuel1 fuel2 b1 s1 b2 s2,
         Interpreter.execute fuel1 prior1 program = Some (b1, s1) ->
         Interpreter.execute fuel2 prior2 program = Some (b2, s2) ->
         b1 = b2 /\ Interpreter.getOutput s1 = Interpreter.getOutput s2).
Proof.
  split; [reflexivity|]. split; [reflexivity|].
  split; [intros x; cbn; apply lookup_fmap|].
  split; [reflexivity|].
  intros fuel1 fuel2 b1 s1 b2 s2 H1 H2.
  pose proof (execute_deterministic _ _ _ _ _ _ _ H1 H2) as Heq.
  injection Heq as -> ->. split; reflexivity.
Qed.

Lemma C9_witness :
  Interpreter.execute 3 Interpreter.fresh print_x
  = Interpreter.execute 3 used_interpreter print_x
  /\ true = true
  /\ Interpreter.getOutput (Interpreter.mk {["x" := 1]} ["1"] 2) = ["1"].
Proof.
  destruct (C9_execute_self_resetting print_x Interpreter.fresh used_interpreter)
    as (_ & _ & _ & Hsame & Hdet).
  split; [apply Hsame|].
  assert (H1 : Interpreter.execute 3 Interpreter.fresh print_x
               = Some (true, Interpreter.mk {["x" := 1]} ["1"] 2))
    by (vm_compute; reflexivity).
  assert (H2 : Interpreter.execute 7 used_interpreter print_x
               = Some (true, Interpreter.mk {["x" := 1]} ["1"] 2))
    by (vm_compute; reflexivity).
  destruct (Hdet _ _ _ _ _ _ H1 H2) as [Hb Hout].
  split; [exact Hb | exact Hout].
Defined.

(** ** Constant folding against interpretation *)

Lemma divTraps_divisor val1 val2 :
  divTraps val1 val2 = true -> val1 = INT_MIN /\ val2 = -1.
Proof. unfold divTraps. lia. Qed.

Lemma foldBin_binResult op val1 val2 :
  isDivOrMod op && (val2 =? 0) = false ->
  isDivOrMod op && divTraps val1 val2 = false ->
  exists v,
    Optimizer.foldBin op val1 val2 = Some v
    /\ Interpreter.binResult op val1 val2 = Ok v.
Proof.
  unfold Interpreter.binResult, Optimizer.foldBin, Interpreter.b2i,
    Interpreter.truthy.
  destruct op; cbn [isDivOrMod andb]; intros Hz Ht; try (eexists; now split);
    rewrite Hz, Ht; cbn; eexists; now split.
Qed.


Lemma foldUn_unResult op val :
  Interpreter.unResult op val = Optimizer.foldUn op val.
Proof. now destruct op. Qed.

Lemma dispatch_assignConst program self v instr :
  Interpreter.dispatch program self (assignConst v instr)
  = Ok (Interpreter.advance
          (Interpreter.setValue self (Instruction.result instr) v)).
Proof. reflexivity. Qed.




(** ** Division and modulo by zero *)


Lemma foldBin_None op val1 val2 :
  Optimizer.foldBin op val1 val2 = None
  <-> isDivOrMod op && divTraps val1 val2 = true.
Proof.
  unfold Optimizer.foldBin.
  destruct op; cbn; try (split; discriminate);
    destruct (divTraps val1 val2) eqn:Ht.
  - apply divTraps_divisor in Ht as [_ ->]. cbn. split; reflexivity.
  - destruct (negb _); split; discriminate.
  - apply divTraps_divisor in Ht as [_ ->]. cbn. split; reflexivity.
  - destruct (negb _); split; discriminate.
Qed.

(** Folding is killed exactly at a DIV or MOD of the Constants [INT_MIN]
    and [-1]. *)
Lemma foldInstr_None instr :
  Optimizer.foldInstr instr = None <-> foldTraps instr = true.
Proof.
  unfold Optimizer.foldInstr, foldTraps, constOperands, overflowDivision.
  destruct (Instruction.type instr); cbn; try (split; discriminate).
  - destruct (Operand.isConst (Instruction.op1 instr)
              && Operand.isConst (Instruction.op2 instr)); cbn;
      [|split; discriminate].
    rewrite <- foldBin_None.
    destruct (Optimizer.foldBin _ _ _); cbn; [split; discriminate | tauto].
  - destruct (Operand.isConst (Instruction.op1 instr)); cbn;
      split; discriminate || (rewrite ?andb_false_r; discriminate).
Qed.

(** What [foldConstants] returns, when it returns: the instructions folded
    one by one, and the tables as they were. *)
Lemma foldConstants_Some input output :
  Optimizer.foldConstants input = Some output <->
  mapM Optimizer.foldInstr (IRProgram.instructions input)
  = Some (IRProgram.instructions output)
  /\ IRProgram.variableTypes output = IRProgram.variableTypes input
  /\ IRProgram.symbolTable output = IRProgram.symbolTable input.
Proof.
  unfold Optimizer.foldConstants.
  destruct (mapM Optimizer.foldInstr (IRProgram.instructions input))
    as [instrs|]; cbn.
  - split.
    + intros [= <-]. auto.
    + intros (Hi & Hv & Hs). injection Hi as ->.
      destruct output, input; unfold IRProgram.set_instructions; cbn in *.
      now subst.
  - split; [discriminate | intros [H _]; discriminate].
Qed.

Lemma foldConstants_Forall2 input output :
  Optimizer.foldConstants input = Some output ->
  Forall2 (fun instr folded => Optimizer.foldInstr instr = Some folded)
    (IRProgram.instructions input) (IRProgram.instructions output).
Proof. intros H. apply foldConstants_Some in H as [H _]. now apply mapM_Some. Qed.

Lemma foldConstants_length input output :
  Optimizer.foldConstants input = Some output ->
  length (IRProgram.instructions output) = length (IRProgram.instructions input).
Proof.
  intros H. symmetry. eapply Forall2_length, foldConstants_Forall2, H.
Qed.

Lemma foldConstants_lookup input output (i : nat) instr :
  Optimizer.foldConstants input = Some output ->
  IRProgram.instructions input !! i = Some instr ->
  exists folded,
    IRProgram.instructions output !! i = Some folded
    /\ Optimizer.foldInstr instr = Some folded.
Proof.
  intros H Hat. eapply Forall2_lookup_l in Hat; [|eapply foldConstants_Forall2, H].
  exact Hat.
Qed.

Lemma foldConstants_In input output instr :
  Optimizer.foldConstants input = Some output ->
  In instr (IRProgram.instructions input) ->
  exists folded,
    In folded (IRProgram.instructions output)
    /\ Optimizer.foldInstr instr = Some folded.
Proof.
  intros H Hin. apply list_elem_of_In, list_elem_of_lookup in Hin as [i Hat].
  destruct (foldConstants_lookup _ _ _ _ H Hat) as (folded & Hf & Heq).
  exists folded. split; [|exact Heq].
  apply list_elem_of_In. eapply list_elem_of_lookup_2. exact Hf.
Qed.

(** [foldConstants] returns exactly when no instruction is such a
    division; [optimize] returns exactly when [foldConstants] does. *)
Lemma foldConstants_returns input :
  (exists output, Optimizer.foldConstants input = Some output)
  <-> Forall (fun instr => foldTraps instr = false)
        (IRProgram.instructions input).
Proof.
  unfold Optimizer.foldConstants.
  assert (Hiff : is_Some (mapM Optimizer.foldInstr (IRProgram.instructions input))
                 <-> Forall (fun instr => foldTraps instr = false)
                       (IRProgram.instructions input)).
  { rewrite mapM_is_Some. apply Forall_proper; [|reflexivity].
    intros instr. cbn. rewrite <- not_eq_None_Some, foldInstr_None.
    now destruct (foldTraps instr). }
  rewrite <- Hiff.
  destruct (mapM Optimizer.foldInstr (IRProgram.instructions input)); cbn.
  - split; eauto.
  - split; [intros [? H]; discriminate | intros [? H]; discriminate].
Qed.

Lemma optimize_Some input output :
  Optimizer.optimize input = Some output <->
  exists folded,
    Optimizer.foldConstants input = Some folded
    /\ output = Optimizer.eliminateDeadCode folded.
Proof.
  unfold Optimizer.optimize.
  destruct (Optimizer.foldConstants input) as [folded|]; cbn.
  - split; [intros [= <-]; eauto | intros (? & [= <-] & ->); reflexivity].
  - split; [discriminate | intros (? & H & _); discriminate].
Qed.

Lemma optimize_returns input :
  (exists output, Optimizer.optimize input = Some output)
  <-> Forall (fun instr => foldTraps instr = false)
        (IRProgram.instructions input).
Proof.
  rewrite <- foldConstants_returns. split.
  - intros [output H]. apply optimize_Some in H as (folded & H & _). eauto.
  - intros [folded H]. exists (Optimizer.eliminateDeadCode folded).
    apply optimize_Some. eauto.
Qed.





(** ** Unresolved jump targets *)

Lemma findLabelFrom_noLabel instrs lbl : forall i,
  Forall (fun instr => Interpreter.isLabel lbl instr = false) instrs ->
  Interpreter.findLabelFrom i instrs lbl = Throw ("Label not found: " +:+ lbl).
Proof.
  induction instrs as [|instr rest IH]; intros i Hall; [reflexivity|].
  inversion Hall as [|? ? Hhd Htl]; subst. cbn. rewrite Hhd. now apply IH.
Qed.

Lemma findLabel_noLabel program lbl :
  noLabel program lbl ->
  Interpreter.findLabel program lbl = Throw ("Label not found: " +:+ lbl).
Proof. apply findLabelFrom_noLabel. Qed.

Lemma findLabelFrom_Throw instrs lbl : forall i what,
  Interpreter.findLabelFrom i instrs lbl = Throw what ->
  what = "Label not found: " +:+ lbl
  /\ Forall (fun instr => Interpreter.isLabel lbl instr = false) instrs.
Proof.
  induction instrs as [|hd rest IH]; intros i what H; cbn in H.
  - injection H as <-. split; [reflexivity|constructor].
  - destruct (Interpreter.isLabel lbl hd) eqn:Hhd; [discriminate|].
    apply IH in H as [-> Hall]. split; [reflexivity|now constructor].
Qed.

Lemma getValue_Throw self op what :
  Interpreter.getValue self op = Throw what ->
  what = "Undefined variable: " +:+ Operand.str op.
Proof.
  unfold Interpreter.getValue. intros H. repeat case_match; simplify_eq. done.
Qed.

Lemma binResult_Throw op l r what :
  Interpreter.binResult op l r = Throw what ->
  what = "Division by zero" \/ what = "Modulo by zero".
Proof.
  unfold Interpreter.binResult. intros H.
  repeat case_match; simplify_eq; auto.
Qed.

Lemma dispatch_dangling program self instr :
  jumpTaken self instr ->
  noLabel program (Instruction.label instr) ->
  Interpreter.dispatch program self instr
  = Throw ("Label not found: " +:+ Instruction.label instr).
Proof.
  intros [Hty | [Hty Hcond]] Hno; unfold Interpreter.dispatch; rewrite Hty.
  - now rewrite (findLabel_noLabel _ _ Hno).
  - rewrite Hcond. cbn. now rewrite (findLabel_noLabel _ _ Hno).
Qed.

(** C5 (as stated) fails: a program with a Goto to a missing label that is
    never reached runs to its [return] and [execute] reports success with its
    output; no bound on the iterations makes it report failure.  The same
    holds for a reached IfGoto whose condition is non-zero. *)
Lemma C5_counterexample :
  danglingJump unreached_dangling
  /\ Interpreter.execute 2 Interpreter.fresh unreached_dangling
     = Some (true, Interpreter.mk ∅ ["7"] 1)
  /\ (forall fuel s,
         Interpreter.execute fuel Interpreter.fresh unreached_dangling
         <> Some (false, s))
  /\ danglingJump untaken_dangling
  /\ Interpreter.execute 2 Interpreter.fresh untaken_dangling
     = Some (true, Interpreter.mk ∅ [] 1).
Proof.
  assert (Hrun : Interpreter.execute 2 Interpreter.fresh unreached_dangling
                 = Some (true, Interpreter.mk ∅ ["7"] 1)) by reflexivity.
  split; [|split; [exact Hrun|split; [|split; [|reflexivity]]]].
  - exists (Instruction.createGoto "L9"). split; [cbn; tauto|].
    split; [now left|]. repeat constructor.
  - intros fuel s Hfail.
    pose proof (execute_deterministic _ _ _ _ _ _ _ Hrun Hfail). discriminate.
  - exists (Instruction.createIfGoto (Operand.of_int 1) "L9").
    split; [cbn; tauto|]. split; [now right|]. repeat constructor.
Qed.

(** A throw of one turn is an error of reading or computing, or the
    "Label not found" of a jump that is taken to a label that no
    instruction carries. *)
Lemma dispatch_Throw_jump program self instr what :
  Interpreter.dispatch program self instr = Throw what ->
  isDataError what
  \/ (jumpTaken self instr
      /\ noLabel program (Instruction.label instr)
      /\ what = "Label not found: " +:+ Instruction.label instr).
Proof.
  unfold Interpreter.dispatch, Interpreter.executeBinOp, Interpreter.executeUnOp,
    Interpreter.executeAssign, Interpreter.advance, Interpreter.findLabel,
    mbind, outcome_bind, isDataError, jumpTaken, noLabel.
  intros H.
  repeat case_match; simplify_eq;
    repeat match goal with
           | H : Interpreter.getValue _ _ = Throw _ |- _ =>
               apply getValue_Throw in H; subst
           | H : Interpreter.binResult _ _ _ = Throw _ |- _ =>
               apply binResult_Throw in H; destruct H; subst
           | H : Interpreter.findLabelFrom _ _ _ = Throw _ |- _ =>
               apply findLabelFrom_Throw in H; destruct H; subst
           | H : (_ =? 0) = true |- _ => apply Z.eqb_eq in H; subst
           end; eauto 8.
Qed.

(** A result [false] comes from a state that the run reached, at whose
    instruction the turn threw. *)
Lemma loop_false_after program fuel : forall self s,
  Interpreter.loop fuel program self = Some (false, s) ->
  exists (n : nat) instr what,
    Interpreter.after n program self = Some s
    /\ Interpreter.fetch program s = Some instr
    /\ Interpreter.dispatch program s instr = Throw what.
Proof.
  induction fuel as [|fuel IH]; intros self s H; [discriminate|].
  destruct (Interpreter.fetch program self) as [instr|] eqn:Hf.
  - rewrite (loop_fetch _ _ _ _ Hf) in H.
    destruct (Interpreter.dispatch program self instr) as [[s1|s1]|w|] eqn:Hd;
      try discriminate.
    + destruct (IH _ _ H) as (n & i & what & Hafter & Hfi & Hdi).
      exists (S n), i, what. cbn [Interpreter.after]. now rewrite Hf, Hd.
    + injection H as <-. now exists 0%nat, instr, w.
  - unfold Interpreter.fetch in Hf. cbn [Interpreter.loop] in H.
    destruct (Interpreter.pc self <? _); [|discriminate].
    now rewrite Hf in H.
Qed.

(** C5 (amended): an unresolved target is detected when, and only when,
    the jump is taken.  If the loop reaches a Goto, or an IfGoto whose
    condition reads 0, whose target names no Label of the program, that turn
    throws "Label not found" and [execute] returns [false] for every bound
    that lets the run get there.  An IfGoto whose condition reads a value
    other than 0 goes on to the next instruction, with or without its
    label.  And whenever [execute] returns [false], the run reached the
    failing instruction, and the failure is an error of reading or
    computing or the "Label not found" of a jump taken there: a jump to a
    missing label that is not reached, or not taken, makes no run fail. *)
Theorem C5_unresolved_label_at_jump (program : IRProgram.t)
    (prior : Interpreter.t) :
  (forall (n : nat) self instr,
      Interpreter.after n program (Interpreter.reset prior program) = Some self ->
      Interpreter.fetch program self = Some instr ->
      jumpTaken self instr ->
      noLabel program (Instruction.label instr) ->
      Interpreter.dispatch program self instr
      = Throw ("Label not found: " +:+ Instruction.label instr)
      /\ forall fuel, (n < fuel)%nat ->
           Interpreter.execute fuel prior program = Some (false, self))
  /\ (forall self instr v,
         Instruction.type instr = InstrType.IF_GOTO ->
         Interpreter.getValue self (Instruction.op1 instr) = Ok v ->
         v <> 0 ->
         Interpreter.dispatch program self instr
         = Ok (Interpreter.advance self))
  /\ (forall fuel s,
         Interpreter.execute fuel prior program = Some (false, s) ->
         exists (n : nat) instr what,
           Interpreter.after n program (Interpreter.reset prior program) = Some s
           /\ Interpreter.fetch program s = Some instr
           /\ Interpreter.dispatch program s instr = Throw what
           /\ (isDataError what
               \/ (jumpTaken s instr
                   /\ noLabel program (Instruction.label instr)
                   /\ what = "Label not found: " +:+ Instruction.label instr))).
Proof.
  split; [|split].
  - intros n self instr Hafter Hf Hjump Hno.
    pose proof (dispatch_dangling program _ _ Hjump Hno) as Hd.
    split; [exact Hd|]. intros fuel Hlt. eapply execute_throw; eauto.
  - intros self instr v Hty Hv Hnz. unfold Interpreter.dispatch.
    rewrite Hty, Hv. cbn.
    destruct (v =? 0) eqn:Hz; [lia | reflexivity].
  - intros fuel s Hrun.
    destruct (loop_false_after _ _ _ _ Hrun) as (n & instr & what & Ha & Hf & Hd).
    exists n, instr, what. repeat (split; [assumption|]).
    now apply dispatch_Throw_jump.
Qed.

Lemma C5_witness :
  Interpreter.execute 2 Interpreter.fresh taken_dangling
  = Some (false, Interpreter.mk ∅ ["7"] 1)
  /\ Interpreter.dispatch untaken_dangling Interpreter.fresh
       (Instruction.createIfGoto (Operand.of_int 1) "L9")
     = Ok (Interpreter.advance Interpreter.fresh).
Proof.
  split.
  - refine (proj2 (proj1 (C5_unresolved_label_at_jump taken_dangling
                            Interpreter.fresh)
                     1%nat (Interpreter.mk ∅ ["7"] 1)
                     (Instruction.createIfGoto (Operand.of_int 0) "L9")
                     _ _ _ _) 2%nat _).
    + reflexivity.
    + reflexivity.
    + right. split; reflexivity.
    + repeat constructor.
    + lia.
  - apply (proj1 (proj2 (C5_unresolved_label_at_jump untaken_dangling
                           Interpreter.fresh))
             Interpreter.fresh
             (Instruction.createIfGoto (Operand.of_int 1) "L9") 1).
    + reflexivity.
    + reflexivity.
    + lia.
Defined.

(** ** The optimizer passes *)

(** What folding returns: the instruction itself, or, for a BIN_OP or
    UN_OP on Constants, the assignment of a constant to its destination. *)
Lemma foldInstr_Some instr folded :
  Optimizer.foldInstr instr = Some folded ->
  folded = instr
  \/ (constOperands instr = true /\ exists v, folded = assignConst v instr).
Proof.
  unfold Optimizer.foldInstr, constOperands.
  destruct (Instruction.type instr); try (intros [= <-]; now left).
  - destruct (Operand.isConst (Instruction.op1 instr)
              && Operand.isConst (Instruction.op2 instr));
      [|intros [= <-]; now left].
    destruct (Optimizer.foldBin _ _ _) as [v|]; cbn; [|discriminate].
    intros [= <-]. right. eauto.
  - destruct (Operand.isConst (Instruction.op1 instr));
      [|intros [= <-]; now left].
    cbn. intros [= <-]. right. eauto.
Qed.

Lemma foldInstr_result instr folded :
  Optimizer.foldInstr instr = Some folded ->
  Instruction.result folded = Instruction.result instr.
Proof.
  intros H. apply foldInstr_Some in H as [-> | (_ & v & ->)]; reflexivity.
Qed.

Lemma foldInstr_other instr :
  Optimizer.writesResult instr = false -> Optimizer.foldInstr instr = Some instr.
Proof.
  unfold Optimizer.writesResult, Optimizer.foldInstr.
  destruct (Instruction.type instr); try reflexivity; discriminate.
Qed.

Lemma frame_not_writer instr :
  isFrameInstr instr = true -> Optimizer.writesResult instr = false.
Proof.
  unfold isFrameInstr, Optimizer.writesResult.
  destruct (Instruction.type instr); try reflexivity; discriminate.
Qed.

Lemma observer_is_frame instr :
  isObserver instr = true -> isFrameInstr instr = true.
Proof.
  unfold isObserver, isFrameInstr.
  destruct (Instruction.type instr); try reflexivity; discriminate.
Qed.

Lemma foldInstr_frame instr folded :
  Optimizer.foldInstr instr = Some folded ->
  isFrameInstr folded = isFrameInstr instr.
Proof.
  intros H. apply foldInstr_Some in H as [-> | (Hc & v & ->)]; [reflexivity|].
  unfold constOperands in Hc. unfold isFrameInstr. cbn.
  destruct (Instruction.type instr); try discriminate; reflexivity.
Qed.

Lemma isDead_writer assignedVars usedVars instr :
  Optimizer.isDead assignedVars usedVars instr = true ->
  Optimizer.writesResult instr = true.
Proof.
  unfold Optimizer.isDead. intros H.
  apply andb_true_iff in H as [H _]. now apply andb_true_iff in H as [H _].
Qed.

Lemma isDead_used assignedVars usedVars instr :
  Operand.str (Instruction.result instr) ∈ usedVars ->
  Optimizer.isDead assignedVars usedVars instr = false.
Proof.
  intros Hin. unfold Optimizer.isDead.
  rewrite (bool_decide_eq_true_2 _ Hin). cbn. apply andb_false_r.
Qed.

Lemma markUsed_mono usedVars instr : usedVars ⊆ Optimizer.markUsed usedVars instr.
Proof.
  unfold Optimizer.markUsed. destruct (Instruction.type instr); set_solver.
Qed.

Lemma fold_markUsed_mono instrs : forall usedVars,
  usedVars ⊆ fold_left Optimizer.markUsed instrs usedVars.
Proof.
  induction instrs as [|instr rest IH]; intros usedVars; cbn; [set_solver|].
  etransitivity; [apply markUsed_mono | apply IH].
Qed.

Lemma markUsed_observer usedVars instr :
  isObserver instr = true ->
  Operand.str (Instruction.op1 instr) ∈ Optimizer.markUsed usedVars instr.
Proof.
  unfold isObserver, Optimizer.markUsed.
  destruct (Instruction.type instr); try discriminate; set_solver.
Qed.

Lemma fold_markUsed_observer instrs user : forall usedVars,
  In user instrs ->
  isObserver user = true ->
  Operand.str (Instruction.op1 user) ∈ fold_left Optimizer.markUsed instrs usedVars.
Proof.
  induction instrs as [|instr rest IH]; intros usedVars Hin Hobs; [easy|].
  cbn. destruct Hin as [-> | Hin].
  - eapply fold_markUsed_mono. now apply markUsed_observer.
  - now apply IH.
Qed.

Lemma eliminateDeadCode_keeps input instr user :
  In instr (IRProgram.instructions input) ->
  In user (IRProgram.instructions input) ->
  isObserver user = true ->
  Operand.str (Instruction.op1 user) = Operand.str (Instruction.result instr) ->
  In instr (IRProgram.instructions (Optimizer.eliminateDeadCode input)).
Proof.
  intros Hin Huser Hobs Hname. cbn. apply filter_In. split; [exact Hin|].
  rewrite isDead_used; [reflexivity|].
  rewrite <- Hname. now apply fold_markUsed_observer.
Qed.

(** C6: an instruction whose destination name is the operand of a Print,
    Return or IfGoto of the program survives dead-code elimination; and
    through [optimize], where folding comes first, its (possibly folded)
    form is in the program [optimize] returns; [optimize] returns a program
    unless some instruction divides the Constant [INT_MIN] by the Constant
    [-1]. *)
Theorem C6_liveness_soundness (input : IRProgram.t) (instr user : Instruction.t) :
  In instr (IRProgram.instructions input) ->
  In user (IRProgram.instructions input) ->
  isObserver user = true ->
  Operand.str (Instruction.op1 user) = Operand.str (Instruction.result instr) ->
  In instr (IRProgram.instructions (Optimizer.eliminateDeadCode input))
  /\ ((exists output, Optimizer.optimize input = Some output)
      <-> Forall (fun instr => foldTraps instr = false)
            (IRProgram.instructions input))
  /\ forall output,
       Optimizer.optimize input = Some output ->
       exists folded,
         Optimizer.foldInstr instr = Some folded
         /\ In folded (IRProgram.instructions output).
Proof.
  intros Hin Huser Hobs Hname. split; [|split].
  - eapply eliminateDeadCode_keeps; eauto.
  - apply optimize_returns.
  - intros output Hopt.
    apply optimize_Some in Hopt as (mid & Hfold & ->).
    destruct (foldConstants_In _ _ _ Hfold Hin) as (folded & Hfin & Heq).
    destruct (foldConstants_In _ _ _ Hfold Huser) as (user' & Huin & Hueq).
    rewrite foldInstr_other in Hueq
      by now apply frame_not_writer, observer_is_frame.
    injection Hueq as <-.
    exists folded. split; [exact Heq|].
    apply (eliminateDeadCode_keeps _ _ user); auto.
    now rewrite (foldInstr_result _ _ Heq).
Qed.

Lemma C6_witness :
  In add_a_b (IRProgram.instructions (Optimizer.eliminateDeadCode temp_feeds_print))
  /\ exists folded,
       Optimizer.foldInstr add_a_b = Some folded
       /\ In folded (IRProgram.instructions temp_feeds_print).
Proof.
  destruct (C6_liveness_soundness temp_feeds_print add_a_b
              (Instruction.createPrint (Operand.named "t0" Operand.Type_.TEMP)))
    as (Hkept & _ & Hout).
  - cbn. tauto.
  - cbn. tauto.
  - reflexivity.
  - reflexivity.
  - split; [exact Hkept|]. apply Hout. vm_compute. reflexivity.
Defined.

(** ** What [optimize] leaves alone *)

Lemma filter_filter_implied {A} (p q : A -> bool) (l : list A) :
  (forall x, p x = true -> q x = true) ->
  List.filter p (List.filter q l) = List.filter p l.
Proof.
  intros Himp. induction l as [|x l IH]; [reflexivity|]. cbn.
  destruct (q x) eqn:Hq; cbn.
  - now rewrite IH.
  - destruct (p x) eqn:Hp; [|exact IH].
    apply Himp in Hp. congruence.
Qed.

Lemma filter_frame_fold (l k : list Instruction.t) :
  Forall2 (fun instr folded => Optimizer.foldInstr instr = Some folded) l k ->
  List.filter isFrameInstr k = List.filter isFrameInstr l.
Proof.
  induction 1 as [|x y l k Hxy _ IH]; [reflexivity|]. cbn.
  rewrite (foldInstr_frame _ _ Hxy), IH.
  destruct (isFrameInstr x) eqn:Hx; [|reflexivity].
  rewrite (foldInstr_other x (frame_not_writer x Hx)) in Hxy.
  now injection Hxy as <-.
Qed.

Lemma filter_sublist {A} (p : A -> bool) (l : list A) :
  List.filter p l `sublist_of` l.
Proof.
  induction l as [|x l IH]; cbn; [constructor|].
  destruct (p x); now constructor.
Qed.

(** C8: the program [optimize] returns keeps every Label, Goto, IfGoto,
    Print, Return, Call and Nop of the input, unchanged and in the original
    order, and keeps the variable-type table (and the symbol table); it is a
    subsequence of the folded input, and folding changes no instruction
    other than a BIN_OP or UN_OP, so only Assign, BinaryOp and UnaryOp
    instructions are rewritten or removed.  [optimize] returns a program
    unless some instruction divides the Constant [INT_MIN] by the Constant
    [-1]. *)
Theorem C8_optimize_frame (input output : IRProgram.t) :
  Optimizer.optimize input = Some output ->
  ((exists returned, Optimizer.optimize input = Some returned)
   <-> Forall (fun instr => foldTraps instr = false)
         (IRProgram.instructions input))
  /\ List.filter isFrameInstr (IRProgram.instructions output)
     = List.filter isFrameInstr (IRProgram.instructions input)
  /\ IRProgram.variableTypes output = IRProgram.variableTypes input
  /\ IRProgram.symbolTable output = IRProgram.symbolTable input
  /\ (forall instr folded,
         Optimizer.foldInstr instr = Some folded ->
         folded <> instr ->
         Instruction.type instr = InstrType.BIN_OP
         \/ Instruction.type instr = InstrType.UN_OP)
  /\ exists folded,
       mapM Optimizer.foldInstr (IRProgram.instructions input) = Some folded
       /\ IRProgram.instructions output `sublist_of` folded
       /\ (forall instr,
              In instr folded ->
              ~ In instr (IRProgram.instructions output) ->
              Instruction.type instr = InstrType.ASSIGN
              \/ Instruction.type instr = InstrType.BIN_OP
              \/ Instruction.type instr = InstrType.UN_OP).
Proof.
  intros Hopt. split; [apply optimize_returns|].
  apply optimize_Some in Hopt as (mid & Hfold & ->).
  pose proof (foldConstants_Forall2 _ _ Hfold) as Hall.
  apply foldConstants_Some in Hfold as (Hmap & Hvt & Hst).
  split; [|split; [exact Hvt|split; [exact Hst|split]]].
  - cbn. rewrite filter_filter_implied; [now apply filter_frame_fold|].
    intros x Hx. apply negb_true_iff.
    destruct (Optimizer.isDead _ _ x) eqn:Hdead; [|reflexivity].
    apply isDead_writer in Hdead. apply frame_not_writer in Hx. congruence.
  - intros instr folded Hf Hne. unfold Optimizer.foldInstr in Hf.
    destruct (Instruction.type instr); auto; injection Hf as <-;
      now contradict Hne.
  - exists (IRProgram.instructions mid). split; [exact Hmap|]. split.
    + cbn. apply filter_sublist.
    + intros instr Hin Hout. cbn in Hout.
      destruct (Optimizer.isDead
                  (Optimizer.assignedVarsOf (IRProgram.instructions mid))
                  (Optimizer.usedVarsOf (IRProgram.instructions mid))
                  instr) eqn:Hdead.
      * apply isDead_writer in Hdead. unfold Optimizer.writesResult in Hdead.
        destruct (Instruction.type instr); auto; discriminate.
      * exfalso. apply Hout. apply filter_In. split; [exact Hin|].
        now rewrite Hdead.
Qed.

Lemma C8_witness :
  ((exists returned, Optimizer.optimize with_dead_store = Some returned)
   <-> Forall (fun instr => foldTraps instr = false)
         (IRProgram.instructions with_dead_store))
  /\ List.filter isFrameInstr (IRProgram.instructions optimized_dead_store)
     = List.filter isFrameInstr (IRProgram.instructions with_dead_store)
  /\ IRProgram.variableTypes optimized_dead_store
     = IRProgram.variableTypes with_dead_store
  /\ IRProgram.symbolTable optimized_dead_store
     = IRProgram.symbolTable with_dead_store
  /\ (forall instr folded,
         Optimizer.foldInstr instr = Some folded ->
         folded <> instr ->
         Instruction.type instr = InstrType.BIN_OP
         \/ Instruction.type instr = InstrType.UN_OP)
  /\ exists folded,
       mapM Optimizer.foldInstr (IRProgram.instructions with_dead_store)
       = Some folded
       /\ IRProgram.instructions optimized_dead_store `sublist_of` folded
       /\ (forall instr,
              In instr folded ->
              ~ In instr (IRProgram.instructions optimized_dead_store) ->
              Instruction.type instr = InstrType.ASSIGN
              \/ Instruction.type instr = InstrType.BIN_OP
              \/ Instruction.type instr = InstrType.UN_OP).
Proof.
  apply (C8_optimize_frame with_dead_store optimized_dead_store).
  vm_compute. reflexivity.
Defined.

(** ** Scenario A: [int a = 2; int b = 3; print(a + b);] *)

Lemma scenarioA_code :
  IRProgram.instructions scenarioA_tac
  = [ Instruction.createAssign (Operand.named "a" Operand.Type_.VAR) (Operand.of_int 2);
      Instruction.createAssign (Operand.named "b" Operand.Type_.VAR) (Operand.of_int 3);
      add_a_b;
      Instruction.createPrint (Operand.named "t0" Operand.Type_.TEMP) ].
Proof. reflexivity. Qed.

Lemma scenarioA_optimize : Optimizer.optimize scenarioA_tac = Some scenarioA_tac.
Proof. vm_compute. reflexivity. Qed.

Lemma scenarioA_run :
  Interpreter.execute 5 Interpreter.fresh scenarioA_tac
  = Some (true, Interpreter.mk {["a" := 2; "b" := 3]} ["0"] 4).
Proof. vm_compute. reflexivity. Qed.

(** C2 (as stated) fails: the ADD reads the variables [a] and [b], not
    Constants, so folding leaves it as it is; and no run of the optimized
    program ends with output ["5"]. *)
Lemma C2_counterexample : ~ scenarioA_folds_to_5 /\ ~ scenarioA_prints_5.
Proof.
  split.
  - intros (add & Hone & Hfold).
    assert (Hadd : List.filter isBinAdd (IRProgram.instructions scenarioA_tac)
                   = [add_a_b]) by reflexivity.
    rewrite Hadd in Hone. injection Hone as <-. discriminate Hfold.
  - intros (optimized & fuel & s & Hopt & Hrun & Hout).
    rewrite scenarioA_optimize in Hopt. injection Hopt as <-.
    pose proof (execute_deterministic _ _ _ _ _ _ _ scenarioA_run Hrun) as Heq.
    injection Heq as <-. discriminate Hout.
Qed.

(** C2 (amended): the code generated for the scenario contains exactly one
    BinaryOp(ADD), [t0 = a + b] on the variables [a] and [b]; [optimize]
    does not fold it and returns the program unchanged; [execute] on the
    optimized program returns [true], for every bound of at least 5 turns,
    with an output list of one entry.  (The program is accepted by
    [analyze] without errors.) *)
Theorem C2_scenarioA :
  SemanticAnalyzer.analyze SemanticAnalyzer.fresh (Some scenarioA)
    = (true, snd (SemanticAnalyzer.analyze SemanticAnalyzer.fresh (Some scenarioA)))
  /\ List.filter isBinAdd (IRProgram.instructions scenarioA_tac) = [add_a_b]
  /\ Optimizer.foldInstr add_a_b = Some add_a_b
  /\ Optimizer.optimize scenarioA_tac = Some scenarioA_tac
  /\ exists optimized s,
       Optimizer.optimize scenarioA_tac = Some optimized
       /\ (forall k : nat,
              Interpreter.execute (5 + k) Interpreter.fresh optimized
              = Some (true, s))
       /\ length (Interpreter.getOutput s) = 1%nat.
Proof.
  split; [vm_compute; reflexivity|].
  split; [reflexivity|]. split; [reflexivity|].
  split; [exact scenarioA_optimize|].
  exists scenarioA_tac, (Interpreter.mk {["a" := 2; "b" := 3]} ["0"] 4).
  split; [exact scenarioA_optimize|]. split; [|reflexivity].
  intros k. apply execute_mono. exact scenarioA_run.
Qed.

(** ** Semantic analysis: error accumulation *)

Section ErrorsGrow.
Import SemanticAnalyzer.

#[local] Instance errorsGrow_preorder : PreOrder errorsGrow.
Proof.
  split.
  - intros self. unfold errorsGrow. reflexivity.
  - intros a b c Hab Hbc. unfold errorsGrow in *. etransitivity; eauto.
Qed.

Lemma push_error_grows msg self : errorsGrow self (push_error msg self).
Proof. unfold errorsGrow. cbn. now apply prefix_app_r. Qed.

Lemma push_warning_grows msg self : errorsGrow self (push_warning msg self).
Proof. unfold errorsGrow. reflexivity. Qed.

Lemma warn_unless_grows ok msg self : errorsGrow self (warn_unless ok msg self).
Proof. destruct ok; cbn; [reflexivity | apply push_warning_grows]. Qed.

Lemma set_symbolTable_grows m self : errorsGrow self (set_symbolTable m self).
Proof. unfold errorsGrow. reflexivity. Qed.

Lemma visitVarExpr_grows n self : errorsGrow self (snd (visitVarExpr n self)).
Proof.
  unfold visitVarExpr. destruct (symbolTable self !! n) as [sym|]; cbn.
  - destruct (initialized sym); cbn; [reflexivity | apply push_warning_grows].
  - apply push_error_grows.
Qed.

Lemma visitExpression_grows expr : forall self,
  errorsGrow self (snd (visitExpression expr self)).
Proof.
  induction expr as [|l IHl op r IHr|op e IHe|n|v|fn args _]; intros self; cbn.
  - reflexivity.
  - specialize (IHl self). destruct (visitExpression l self) as [lt s1].
    specialize (IHr s1). destruct (visitExpression r s1) as [rt s2].
    cbn in *. transitivity s1; [exact IHl|]. transitivity s2; [exact IHr|].
    destruct (isComparison op); [reflexivity|].
    destruct (isLogical op); cbn.
    + etransitivity; apply warn_unless_grows.
    + apply warn_unless_grows.
  - specialize (IHe self). destruct (visitExpression e self) as [ot s1].
    cbn in *. transitivity s1; [exact IHe|].
    destruct op; cbn; apply warn_unless_grows.
  - apply visitVarExpr_grows.
  - reflexivity.
  - reflexivity.
Qed.

Lemma visitCondition_grows what cond self :
  errorsGrow self (visitCondition what cond self).
Proof.
  unfold visitCondition.
  pose proof (visitExpression_grows cond self) as H.
  destruct (visitExpression cond self) as [ct s1]. cbn in H.
  transitivity s1; [exact H | apply warn_unless_grows].
Qed.

Lemma visitDecl_grows varName dataType initializer line self :
  errorsGrow self (visitDecl varName dataType initializer line self).
Proof.
  unfold visitDecl. destruct (defined self varName); [apply push_error_grows|].
  etransitivity; [|apply set_symbolTable_grows].
  destruct (negb (isNull initializer)); [|reflexivity].
  pose proof (visitExpression_grows initializer self) as H.
  destruct (visitExpression initializer self) as [et s1]. cbn in H.
  transitivity s1; [exact H | apply warn_unless_grows].
Qed.

Lemma visitAssign_grows varName value self :
  errorsGrow self (visitAssign varName value self).
Proof.
  unfold visitAssign.
  destruct (symbolTable self !! varName); [|apply push_error_grows].
  pose proof (visitExpression_grows value self) as H.
  destruct (visitExpression value self) as [et s1]. cbn in H.
  destruct (symbolTable s1 !! varName); [|exact H].
  transitivity s1; [exact H|].
  etransitivity; [apply warn_unless_grows | apply set_symbolTable_grows].
Qed.

Lemma fold_visit_grows (visit : Statement -> t -> t) stmts :
  list_all Statement (fun st => forall self, errorsGrow self (visit st self)) stmts ->
  forall self, errorsGrow self (fold_left (fun s st => visit st s) stmts self).
Proof.
  induction 1 as [|st Hst rest _ IH]; intros self; cbn; [reflexivity|].
  transitivity (visit st self); [apply Hst | apply IH].
Qed.

Lemma visitStatement_grows stmt : forall self,
  errorsGrow self (visitStatement stmt self).
Proof.
  induction stmt as
    [ | | varName dataType initializer line | varName value
    | cond thenBranch IHthen elseBranch IHelse | cond body IHbody
    | init IHinit cond update body IHbody | stmts IHstmts | value | value ];
    intros self; cbn [visitStatement].
  - reflexivity.
  - reflexivity.
  - apply visitDecl_grows.
  - apply visitAssign_grows.
  - etransitivity; [apply visitCondition_grows|].
    etransitivity; [apply (fold_visit_grows _ _ IHthen)|].
    apply (fold_visit_grows _ _ IHelse).
  - etransitivity; [apply visitCondition_grows|].
    apply (fold_visit_grows _ _ IHbody).
  - transitivity (visitStatement init self); [apply IHinit|].
    generalize (visitStatement init self) as s1. intros s1.
    etransitivity; [|apply (fold_visit_grows _ _ IHbody)].
    transitivity
      (if negb (isNull cond) then visitCondition "For" cond s1 else s1).
    + destruct (negb (isNull cond)); [apply visitCondition_grows | reflexivity].
    + destruct (negb (isNull update)); [apply visitExpression_grows | reflexivity].
  - apply (fold_visit_grows _ _ IHstmts).
  - destruct (negb (isNull value)); [apply visitExpression_grows | reflexivity].
  - apply visitExpression_grows.
Qed.

Lemma visitStatements_grows stmts : forall self,
  errorsGrow self (visitStatements stmts self).
Proof.
  induction stmts as [|st rest IH]; intros self; cbn; [reflexivity|].
  transitivity (visitStatement st self); [apply visitStatement_grows | apply IH].
Qed.

Lemma visitStatements_app before after self :
  visitStatements (before ++ after) self
  = visitStatements after (visitStatements before self).
Proof. apply fold_left_app. Qed.
End ErrorsGrow.

(** ** Semantic analysis: acceptance and redeclaration *)

Lemma empty_true_iff {A} (l : list A) :
  SemanticAnalyzer.empty l = true <-> l = [].
Proof. destruct l; cbn; split; congruence. Qed.

Lemma visitDecl_redeclared varName dataType initializer line self :
  SemanticAnalyzer.isVariableDefined self varName = true ->
  SemanticAnalyzer.visitStatement (DeclStmt varName dataType initializer line) self
  = SemanticAnalyzer.push_error (redeclared varName) self.
Proof.
  unfold SemanticAnalyzer.isVariableDefined. intros Hdef. cbn.
  unfold SemanticAnalyzer.visitDecl. now rewrite Hdef.
Qed.

(** C7: on a program, [analyze] returns [true] exactly when the error list
    it leaves is empty.  A declaration of a name already in the symbol table
    only appends the error "Variable '...' already defined": the initializer
    is not visited, the symbol table and the warnings stay as they were.  The
    statements after it are analyzed from that state, errors are only ever
    appended, so the error stays in the list and the program is rejected. *)
Theorem C7_analyze_accumulates :
  (forall self prog,
      fst (SemanticAnalyzer.analyze self (Some prog)) = true
      <-> SemanticAnalyzer.getErrors
            (snd (SemanticAnalyzer.analyze self (Some prog))) = [])
  /\ (forall self varName dataType initializer line,
         SemanticAnalyzer.isVariableDefined self varName = true ->
         SemanticAnalyzer.visitStatement
           (DeclStmt varName dataType initializer line) self
         = SemanticAnalyzer.mk (SemanticAnalyzer.symbolTable self)
             (SemanticAnalyzer.errors self ++ [redeclared varName])
             (SemanticAnalyzer.warnings self))
  /\ (forall self before after varName dataType initializer line,
         SemanticAnalyzer.isVariableDefined
           (SemanticAnalyzer.visitStatements before self) varName = true ->
         let result :=
           SemanticAnalyzer.analyze self
             (Some {| statements :=
                        before ++ DeclStmt varName dataType initializer line :: after |}) in
         snd result
         = SemanticAnalyzer.visitStatements after
             (SemanticAnalyzer.push_error (redeclared varName)
                (SemanticAnalyzer.visitStatements before self))
         /\ In (redeclared varName) (SemanticAnalyzer.getErrors (snd result))
         /\ fst result = false)
  /\ (forall stmts self,
         SemanticAnalyzer.errors self
           `prefix_of` SemanticAnalyzer.errors
                         (SemanticAnalyzer.visitStatements stmts self)).
Proof.
  split; [|split; [|split]].
  - intros self prog. cbn. apply empty_true_iff.
  - intros self varName dataType initializer line Hdef.
    now rewrite visitDecl_redeclared.
  - intros self before after varName dataType initializer line Hdef result.
    assert (Hsnd : snd result
                   = SemanticAnalyzer.visitStatements after
                       (SemanticAnalyzer.push_error (redeclared varName)
                          (SemanticAnalyzer.visitStatements before self))).
    { subst result. cbn [SemanticAnalyzer.analyze snd statements].
      rewrite visitStatements_app.
      change (SemanticAnalyzer.visitStatements (?d :: after) ?s)
        with (SemanticAnalyzer.visitStatements after
                (SemanticAnalyzer.visitStatement d s)).
      now rewrite visitDecl_redeclared. }
    assert (Hin : In (redeclared varName)
                    (SemanticAnalyzer.getErrors (snd result))).
    { rewrite Hsnd.
      destruct (visitStatements_grows after
                  (SemanticAnalyzer.push_error (redeclared varName)
                     (SemanticAnalyzer.visitStatements before self))) as [k Hk].
      unfold SemanticAnalyzer.getErrors. rewrite Hk. cbn.
      apply in_or_app. left. apply in_or_app. right. now left. }
    split; [exact Hsnd|]. split; [exact Hin|].
    assert (Hfst : fst result
                   = SemanticAnalyzer.empty
                       (SemanticAnalyzer.getErrors (snd result))) by reflexivity.
    rewrite Hfst.
    destruct (SemanticAnalyzer.getErrors (snd result)); [destruct Hin | reflexivity].
  - intros stmts self. apply visitStatements_grows.
Qed.

Lemma C7_witness :
  fst (SemanticAnalyzer.analyze SemanticAnalyzer.fresh (Some redeclaring)) = false
  /\ SemanticAnalyzer.getErrors
       (snd (SemanticAnalyzer.analyze SemanticAnalyzer.fresh (Some redeclaring)))
     = ["Variable 'x' already defined"; "Undefined variable 'z'"].
Proof.
  destruct C7_analyze_accumulates as (_ & _ & Hsib & _).
  destruct (Hsib SemanticAnalyzer.fresh
              [DeclStmt "x" "int" (ConstExpr (inl 1)) 1]
              [PrintStmt (VarExpr "z")] "x" "int" (VarExpr "y") 2
              ltac:(vm_compute; reflexivity)) as (Hsnd & _ & Hfst).
  split; [exact Hfst|].
  change (snd (SemanticAnalyzer.analyze SemanticAnalyzer.fresh (Some redeclaring)))
    with (snd (SemanticAnalyzer.analyze SemanticAnalyzer.fresh
                 (Some {| statements :=
                            [DeclStmt "x" "int" (ConstExpr (inl 1)) 1]
                              ++ DeclStmt "x" "int" (VarExpr "y") 2
                                 :: [PrintStmt (VarExpr "z")] |}))).
  rewrite Hsnd. vm_compute. reflexivity.
Defined.

(** C10: on a null program [analyze] returns [false] and leaves the analyzer
    as it was; called on a new analyzer, the error list and the warning list
    are both empty afterwards. *)
Theorem C10_analyze_null (self : SemanticAnalyzer.t) :
  SemanticAnalyzer.analyze self None = (false, self)
  /\ fst (SemanticAnalyzer.analyze SemanticAnalyzer.fresh None) = false
  /\ SemanticAnalyzer.getErrors
       (snd (SemanticAnalyzer.analyze SemanticAnalyzer.fresh None)) = []
  /\ SemanticAnalyzer.getWarnings
       (snd (SemanticAnalyzer.analyze SemanticAnalyzer.fresh None)) = [].
Proof. repeat split. Qed.

(** * Further properties of the interpreter *)

Local Open Scope list_scope.

(** ** [findLabel] *)

Lemma isLabel_true lbl instr :
  Interpreter.isLabel lbl instr = true
  <-> Instruction.type instr = InstrType.LABEL /\ Instruction.label instr = lbl.
Proof.
  unfold Interpreter.isLabel. rewrite andb_true_iff, String.eqb_eq.
  destruct (Instruction.type instr); cbn; intuition congruence.
Qed.

Lemma findLabelFrom_Ok instrs lbl : forall i j,
  Interpreter.findLabelFrom i instrs lbl = Ok j ->
  exists (k : nat) instr,
    j = i + Z.of_nat k
    /\ instrs !! k = Some instr
    /\ Interpreter.isLabel lbl instr = true
    /\ forall (k' : nat) instr',
         (k' < k)%nat -> instrs !! k' = Some instr' ->
         Interpreter.isLabel lbl instr' = false.
Proof.
  induction instrs as [|hd rest IH]; intros i j H; [discriminate|].
  cbn in H. destruct (Interpreter.isLabel lbl hd) eqn:Hhd.
  - injection H as <-. exists 0%nat, hd. repeat split; [lia|exact Hhd|].
    intros k' instr' Hlt. lia.
  - apply IH in H as (k & instr & -> & Hat & Hlbl & Hfirst).
    exists (S k), instr. repeat split; [lia|exact Hat|exact Hlbl|].
    intros [|k'] instr' Hlt Hat'.
    + cbn in Hat'. now injection Hat' as <-.
    + apply (Hfirst k'); [lia|exact Hat'].
Qed.

(** X1: when [findLabel] returns, the index is within the program, the
    instruction there is the Label of that name, and no instruction before
    it is. *)
Theorem X1_findLabel_first_match (program : IRProgram.t) (lbl : string) (j : Z) :
  Interpreter.findLabel program lbl = Ok j ->
  0 <= j < Z.of_nat (length (IRProgram.instructions program))
  /\ (exists instr,
        IRProgram.instructions program !! Z.to_nat j = Some instr
        /\ Instruction.type instr = InstrType.LABEL
        /\ Instruction.label instr = lbl)
  /\ (forall (k : nat) instr,
        Z.of_nat k < j ->
        IRProgram.instructions program !! k = Some instr ->
        ~ (Instruction.type instr = InstrType.LABEL
           /\ Instruction.label instr = lbl)).
Proof.
  intros H. apply findLabelFrom_Ok in H as (k & instr & -> & Hat & Hlbl & Hfirst).
  rewrite Z.add_0_l, Nat2Z.id. split; [|split].
  - apply lookup_lt_Some in Hat. lia.
  - exists instr. split; [exact Hat|]. now apply isLabel_true.
  - intros k' instr' Hlt Hat' Hlbl'. apply isLabel_true in Hlbl'.
    rewrite (Hfirst k' instr') in Hlbl'; [discriminate|lia|exact Hat'].
Qed.

Lemma X1_witness :
  0 <= 2 < Z.of_nat (length (IRProgram.instructions with_dead_store))
  /\ (exists instr,
        IRProgram.instructions with_dead_store !! Z.to_nat 2 = Some instr
        /\ Instruction.type instr = InstrType.LABEL
        /\ Instruction.label instr = "L0")
  /\ (forall (k : nat) instr,
        Z.of_nat k < 2 ->
        IRProgram.instructions with_dead_store !! k = Some instr ->
        ~ (Instruction.type instr = InstrType.LABEL
           /\ Instruction.label instr = "L0")).
Proof. apply (X1_findLabel_first_match with_dead_store "L0" 2). reflexivity. Defined.

(** X2: [findLabel] throws exactly when no instruction of the program is
    the Label of that name, and the message is "Label not found: " followed
    by the name. *)
Theorem X2_findLabel_throws_iff (program : IRProgram.t) (lbl what : string) :
  Interpreter.findLabel program lbl = Throw what
  <-> noLabel program lbl /\ what = "Label not found: " +:+ lbl.
Proof.
  split.
  - intros H. apply findLabelFrom_Throw in H as [-> Hall]. now split.
  - intros [H ->]. now apply findLabel_noLabel.
Qed.

(** ** One turn of the loop *)

Lemma setValue_pc self op v :
  Interpreter.pc (Interpreter.setValue self op v) = Interpreter.pc self.
Proof. unfold Interpreter.setValue. now destruct (Operand.isVar op). Qed.

Lemma setValue_output self op v :
  Interpreter.output (Interpreter.setValue self op v) = Interpreter.output self.
Proof. unfold Interpreter.setValue. now destruct (Operand.isVar op). Qed.

Lemma setValue_dom self op v :
  dom (Interpreter.variables self)
    ⊆ dom (Interpreter.variables (Interpreter.setValue self op v)).
Proof.
  unfold Interpreter.setValue. destruct (Operand.isVar op); cbn; [|done].
  rewrite dom_insert. set_solver.
Qed.

Lemma turnFrame_advance program self instr s :
  Interpreter.pc s = Interpreter.pc self ->
  Interpreter.output self `prefix_of` Interpreter.output s ->
  dom (Interpreter.variables self) ⊆ dom (Interpreter.variables s) ->
  turnFrame program self instr (Interpreter.set_pc (Interpreter.pc s + 1) s).
Proof. intros Hpc Hout Hdom. repeat split; cbn; auto. left. lia. Qed.

Lemma turnFrame_jump program self instr j :
  isJump instr = true ->
  Interpreter.findLabel program (Instruction.label instr) = Ok j ->
  turnFrame program self instr
    (Interpreter.set_pc (Interpreter.pc (Interpreter.set_pc (j - 1) self) + 1)
       (Interpreter.set_pc (j - 1) self)).
Proof.
  intros Hj Hf. repeat split; cbn; [done..|]. right. split; [exact Hj|].
  rewrite Hf. f_equal. lia.
Qed.

Lemma dispatch_Next program self instr s' :
  Interpreter.dispatch program self instr = Ok (Interpreter.Next s') ->
  turnFrame program self instr s'.
Proof.
  unfold Interpreter.dispatch, Interpreter.advance.
  destruct (Instruction.type instr) eqn:Hty.
  - unfold Interpreter.executeBinOp.
    destruct (Interpreter.getValue self (Instruction.op1 instr)); [|discriminate..].
    destruct (Interpreter.getValue self (Instruction.op2 instr)); [|discriminate..].
    cbn. destruct (Interpreter.binResult _ _ _); [|discriminate..]. cbn.
    intros [= <-]. apply turnFrame_advance;
      [apply setValue_pc | now rewrite setValue_output | apply setValue_dom].
  - unfold Interpreter.executeUnOp.
    destruct (Interpreter.getValue self (Instruction.op1 instr)); [|discriminate..].
    cbn. intros [= <-]. apply turnFrame_advance;
      [apply setValue_pc | now rewrite setValue_output | apply setValue_dom].
  - unfold Interpreter.executeAssign.
    destruct (Interpreter.getValue self (Instruction.op1 instr)); [|discriminate..].
    cbn. intros [= <-]. apply turnFrame_advance;
      [apply setValue_pc | now rewrite setValue_output | apply setValue_dom].
  - intros [= <-]. now apply turnFrame_advance.
  - intros [= <-]. now apply turnFrame_advance.
  - destruct (Interpreter.findLabel program (Instruction.label instr)) eqn:Hf;
      [|discriminate..].
    cbn. intros [= <-]. apply turnFrame_jump; [|exact Hf].
    unfold isJump. now rewrite Hty.
  - destruct (Interpreter.getValue self (Instruction.op1 instr)); [|discriminate..].
    cbn. destruct (_ =? 0).
    + destruct (Interpreter.findLabel program (Instruction.label instr)) eqn:Hf;
        [|discriminate..].
      cbn. intros [= <-]. apply turnFrame_jump; [|exact Hf].
      unfold isJump. now rewrite Hty.
    + intros [= <-]. now apply turnFrame_advance.
  - destruct (String.eqb _ _); [|intros [= <-]; now apply turnFrame_advance].
    destruct (Instruction.args instr) as [|a0 ?];
      [intros [= <-]; now apply turnFrame_advance|].
    destruct (Interpreter.getValue self a0); [|discriminate..].
    cbn. intros [= <-].
    apply (turnFrame_advance _ self _ (Interpreter.push_output _ self));
      cbn; [done| |done].
    now apply prefix_app_r.
  - discriminate.
  - destruct (Interpreter.getValue self (Instruction.op1 instr)); [|discriminate..].
    cbn. intros [= <-].
    apply (turnFrame_advance _ self _ (Interpreter.push_output _ self));
      cbn; [done| |done].
    now apply prefix_app_r.
  - intros [= <-]. now apply turnFrame_advance.
Qed.

Lemma dispatch_ReturnTrue program self instr s :
  Interpreter.dispatch program self instr = Ok (Interpreter.ReturnTrue s) ->
  s = self /\ Instruction.type instr = InstrType.RETURN.
Proof.
  unfold Interpreter.dispatch, Interpreter.executeBinOp, Interpreter.executeUnOp,
    Interpreter.executeAssign, Interpreter.advance, mbind, outcome_bind.
  intros H. repeat case_match; simplify_eq; auto.
Qed.

(** ** Invariants of a run *)

Section RunInvariants.
Variable program : IRProgram.t.

Lemma fetch_bounds self instr :
  Interpreter.fetch program self = Some instr ->
  Interpreter.pc self < Z.of_nat (length (IRProgram.instructions program))
  /\ In instr (IRProgram.instructions program).
Proof.
  intros Hf. apply fetch_Some in Hf as [Hlt Hat]. split; [lia|].
  apply list_elem_of_In. eapply list_elem_of_lookup_2. exact Hat.
Qed.

Lemma turn_pc_bounds self instr s' :
  Interpreter.fetch program self = Some instr ->
  0 <= Interpreter.pc self ->
  turnFrame program self instr s' ->
  0 <= Interpreter.pc s'
       <= Z.of_nat (length (IRProgram.instructions program)).
Proof.
  intros Hf Hpc (_ & _ & [Hnext | [_ Hjump]]).
  - apply fetch_bounds in Hf as [Hlt _]. lia.
  - apply findLabelFrom_Ok in Hjump as (k & i & Hk & Hat & _).
    apply lookup_lt_Some in Hat. lia.
Qed.

Lemma after_invariants n : forall self self',
  Interpreter.after n program self = Some self' ->
  Interpreter.output self `prefix_of` Interpreter.output self'
  /\ dom (Interpreter.variables self) ⊆ dom (Interpreter.variables self')
  /\ (0 <= Interpreter.pc self ->
      Interpreter.pc self <= Z.of_nat (length (IRProgram.instructions program)) ->
      0 <= Interpreter.pc self'
           <= Z.of_nat (length (IRProgram.instructions program))).
Proof.
  induction n as [|n IH]; intros self self' H.
  - injection H as <-. repeat split; auto; lia.
  - cbn [Interpreter.after] in H.
    destruct (Interpreter.fetch program self) as [instr|] eqn:Hf; [|discriminate..].
    destruct (Interpreter.dispatch program self instr) as [[s|s]|w|] eqn:Hd;
      try discriminate.
    apply dispatch_Next in Hd.
    destruct (IH _ _ H) as (Hout & Hdom & Hpc).
    destruct Hd as (Hout1 & Hdom1 & Hpc1).
    split; [etransitivity; eauto|]. split; [etransitivity; eauto|].
    intros Hlo Hhi. apply Hpc;
      apply (turn_pc_bounds self instr s Hf Hlo); repeat split; auto.
Qed.

Lemma loop_output fuel : forall self b self',
  Interpreter.loop fuel program self = Some (b, self') ->
  Interpreter.output self `prefix_of` Interpreter.output self'.
Proof.
  induction fuel as [|fuel IH]; intros self b self' H; [discriminate|].
  cbn [Interpreter.loop] in H.
  destruct (Interpreter.pc self <? _); [|now injection H as _ <-].
  destruct (IRProgram.instructions program !! _) as [instr|]; [|discriminate].
  destruct (Interpreter.dispatch program self instr) as [[s|s]|w|] eqn:Hd.
  - apply dispatch_Next in Hd as (Hout & _). etransitivity; [exact Hout|eauto].
  - apply dispatch_ReturnTrue in Hd as [-> _]. now injection H as _ <-.
  - now injection H as _ <-.
  - discriminate.
Qed.

Lemma killedFrom_turn self instr s :
  Interpreter.fetch program self = Some instr ->
  Interpreter.dispatch program self instr = Ok (Interpreter.Next s) ->
  killedFrom program s -> killedFrom program self.
Proof.
  intros Hf Hd (n & s' & i & Hafter & Hfi & Hdi).
  exists (S n), s', i. cbn [Interpreter.after]. now rewrite Hf, Hd.
Qed.

(** A run that is killed gives no result, whatever the bound. *)
Lemma loop_killed fuel : forall self,
  killedFrom program self -> Interpreter.loop fuel program self = None.
Proof.
  induction fuel as [|fuel IH]; intros self (n & s & i & Hafter & Hfi & Hdi);
    [reflexivity|].
  destruct n as [|n].
  - injection Hafter as <-. now rewrite (loop_fetch _ _ _ _ Hfi), Hdi.
  - cbn [Interpreter.after] in Hafter.
    destruct (Interpreter.fetch program self) as [instr|] eqn:Hf;
      [|discriminate].
    rewrite (loop_fetch _ _ _ _ Hf).
    destruct (Interpreter.dispatch program self instr) as [[s1|s1]|w|];
      try discriminate.
    apply IH. now exists n, s, i.
Qed.

(** A program without jumps leaves the loop within as many turns as it
    has instructions left, by a result or by the division trap. *)
Lemma loop_jumpFree_halts :
  jumpFree program ->
  forall (k : nat) self,
    0 <= Interpreter.pc self ->
    Z.of_nat (length (IRProgram.instructions program)) - Interpreter.pc self
      <= Z.of_nat k ->
    (exists r, Interpreter.loop (S k) program self = Some r)
    \/ killedFrom program self.
Proof.
  intros Hfree. induction k as [|k IH]; intros self Hlo Hk.
  - cbn [Interpreter.loop].
    destruct (Interpreter.pc self <? _) eqn:Hlt; [lia|eauto].
  - destruct (Interpreter.fetch program self) as [instr|] eqn:Hf.
    + rewrite (loop_fetch _ _ _ _ Hf).
      destruct (Interpreter.dispatch program self instr) as [[s|s]|w|] eqn:Hd;
        eauto.
      * pose proof Hd as Hturn.
        apply dispatch_Next in Hturn as (_ & _ & [Hnext | [Hjump _]]).
        -- apply fetch_bounds in Hf as Hb. destruct Hb as [Hlt _].
           destruct (IH s) as [Hr | Hkill]; [lia..|now left|].
           right. eapply killedFrom_turn; eauto.
        -- apply fetch_bounds in Hf as [_ Hin].
           unfold jumpFree in Hfree. rewrite Forall_forall in Hfree.
           apply list_elem_of_In in Hin.
           rewrite (Hfree _ Hin) in Hjump. discriminate.
      * right. now exists 0%nat, self, instr.
    + unfold Interpreter.fetch in Hf. cbn [Interpreter.loop].
      destruct (Interpreter.pc self <? _) eqn:Hlt; [|eauto].
      apply lookup_ge_None in Hf. lia.
Qed.
End RunInvariants.

Lemma dispatch_Throw program self instr what :
  Interpreter.dispatch program self instr = Throw what ->
  isRuntimeError what.
Proof.
  unfold Interpreter.dispatch, Interpreter.executeBinOp, Interpreter.executeUnOp,
    Interpreter.executeAssign, Interpreter.advance, mbind, outcome_bind,
    isRuntimeError.
  intros H.
  repeat case_match; simplify_eq;
    repeat match goal with
           | H : Interpreter.getValue _ _ = Throw _ |- _ =>
               apply getValue_Throw in H; subst
           | H : Interpreter.binResult _ _ _ = Throw _ |- _ =>
               apply binResult_Throw in H; destruct H; subst
           | H : Interpreter.findLabel _ _ = Throw _ |- _ =>
               apply findLabelFrom_Throw in H; destruct H; subst
           end; eauto.
Qed.

Lemma loop_false program fuel : forall self s,
  Interpreter.loop fuel program self = Some (false, s) ->
  exists instr what,
    Interpreter.fetch program s = Some instr
    /\ Interpreter.dispatch program s instr = Throw what.
Proof.
  induction fuel as [|fuel IH]; intros self s H; [discriminate|].
  cbn [Interpreter.loop] in H. unfold Interpreter.fetch.
  destruct (Interpreter.pc self <? _) eqn:Hlt; [|discriminate].
  destruct (IRProgram.instructions program !! _) as [instr|] eqn:Hat;
    [|discriminate].
  destruct (Interpreter.dispatch program self instr) as [[s1|s1]|w|] eqn:Hd.
  - now apply IH in H.
  - discriminate.
  - injection H as <-. exists instr, w. now rewrite Hlt, Hat.
  - discriminate.
Qed.

(** X3: a jump that is taken (a Goto, or an IfGoto whose condition reads 0)
    to a label that [findLabel] resolves to index [j] goes on with the
    counter at [j], so that the next instruction fetched is that Label, and
    leaves the variables and the output as they were. *)
Theorem X3_jump_lands_on_label (program : IRProgram.t) (self : Interpreter.t)
    (instr : Instruction.t) (j : Z) :
  jumpTaken self instr ->
  Interpreter.findLabel program (Instruction.label instr) = Ok j ->
  exists s' target,
    Interpreter.dispatch program self instr = Ok (Interpreter.Next s')
    /\ Interpreter.pc s' = j
    /\ Interpreter.variables s' = Interpreter.variables self
    /\ Interpreter.output s' = Interpreter.output self
    /\ Interpreter.fetch program s' = Some target
    /\ Instruction.type target = InstrType.LABEL
    /\ Instruction.label target = Instruction.label instr.
Proof.
  intros Hjump Hf.
  pose proof Hf as Hfirst.
  apply findLabelFrom_Ok in Hfirst as (k & target & Hj & Hat & Hlbl & _).
  apply isLabel_true in Hlbl as [Hty Hname].
  assert (Hlt : (k < length (IRProgram.instructions program))%nat)
    by (eapply lookup_lt_Some; eauto).
  exists (Interpreter.mk (Interpreter.variables self) (Interpreter.output self) j),
    target.
  assert (Hd : Interpreter.dispatch program self instr
               = Ok (Interpreter.Next
                       (Interpreter.mk (Interpreter.variables self)
                          (Interpreter.output self) j))).
  { unfold Interpreter.dispatch.
    destruct Hjump as [Hg | [Hg Hcond]]; rewrite Hg.
    - rewrite Hf. cbn. unfold Interpreter.advance, Interpreter.set_pc. cbn.
      do 3 f_equal. lia.
    - rewrite Hcond. cbn. rewrite Hf. cbn.
      unfold Interpreter.advance, Interpreter.set_pc. cbn.
      do 3 f_equal. lia. }
  repeat split; auto.
  unfold Interpreter.fetch. cbn.
  destruct (j <? _) eqn:Hcmp; [|lia].
  subst j. now rewrite Z.add_0_l, Nat2Z.id.
Qed.

Lemma X3_witness :
  exists s' target,
    Interpreter.dispatch with_dead_store Interpreter.fresh
      (Instruction.createGoto "L0") = Ok (Interpreter.Next s')
    /\ Interpreter.pc s' = 2
    /\ Interpreter.variables s' = Interpreter.variables Interpreter.fresh
    /\ Interpreter.output s' = Interpreter.output Interpreter.fresh
    /\ Interpreter.fetch with_dead_store s' = Some target
    /\ Instruction.type target = InstrType.LABEL
    /\ Instruction.label target = Instruction.label (Instruction.createGoto "L0").
Proof.
  apply (X3_jump_lands_on_label with_dead_store Interpreter.fresh
           (Instruction.createGoto "L0") 2).
  - left. reflexivity.
  - reflexivity.
Defined.

(** X4: at the head of the loop the counter is never negative and never
    beyond the end of the program; the loop stops for the end of the program
    exactly when the counter equals the number of instructions. *)
Theorem X4_counter_in_bounds (program : IRProgram.t) (prior : Interpreter.t)
    (n : nat) (self : Interpreter.t) :
  Interpreter.after n program (Interpreter.reset prior program) = Some self ->
  0 <= Interpreter.pc self <= Z.of_nat (length (IRProgram.instructions program))
  /\ (Interpreter.fetch program self = None
      <-> Interpreter.pc self
          = Z.of_nat (length (IRProgram.instructions program))).
Proof.
  intros H. apply after_invariants in H as (_ & _ & Hpc).
  assert (Hb : 0 <= Interpreter.pc self
                    <= Z.of_nat (length (IRProgram.instructions program)))
    by (apply Hpc; cbn; lia).
  split; [exact Hb|]. unfold Interpreter.fetch.
  destruct (Interpreter.pc self <? _) eqn:Hlt.
  - split; [|lia]. intros Hnone. apply lookup_ge_None in Hnone. lia.
  - split; [lia|reflexivity].
Qed.

Lemma X4_witness :
  0 <= 1 <= Z.of_nat (length (IRProgram.instructions taken_dangling))
  /\ (Interpreter.fetch taken_dangling (Interpreter.mk ∅ ["7"] 1) = None
      <-> 1 = Z.of_nat (length (IRProgram.instructions taken_dangling))).
Proof.
  apply (X4_counter_in_bounds taken_dangling Interpreter.fresh 1%nat
           (Interpreter.mk ∅ ["7"] 1)).
  reflexivity.
Defined.

(** X5: every name of the variable-type table is defined in the store at
    every point of a run, so reading a Variable operand with such a name
    never throws. *)
Theorem X5_declared_variables_readable (program : IRProgram.t)
    (prior : Interpreter.t) (n : nat) (self : Interpreter.t) (op : Operand.t) :
  Interpreter.after n program (Interpreter.reset prior program) = Some self ->
  Operand.isVar op = true ->
  is_Some (IRProgram.variableTypes program !! Operand.str op) ->
  exists v, Interpreter.getValue self op = Ok v.
Proof.
  intros H Hvar Hdecl. apply after_invariants in H as (_ & Hdom & _).
  rewrite getValue_var by exact Hvar.
  assert (Hin : Operand.str op ∈ dom (Interpreter.variables self)).
  { apply Hdom. cbn. rewrite dom_fmap. now apply elem_of_dom. }
  apply elem_of_dom in Hin as [v Hv]. rewrite Hv. eauto.
Qed.

Lemma X5_witness :
  exists v,
    Interpreter.getValue (Interpreter.mk {["x" := 1]} [] 1)
      (Operand.named "x" Operand.Type_.VAR) = Ok v.
Proof.
  apply (X5_declared_variables_readable print_x Interpreter.fresh 1%nat).
  - vm_compute. reflexivity.
  - reflexivity.
  - vm_compute. eauto.
Defined.

(** X6: output is only ever appended: what has been printed at any point of
    a run is a prefix of the output list [execute] ends with, whether it
    ends with success or with failure. *)
Theorem X6_output_append_only (program : IRProgram.t) (prior : Interpreter.t)
    (n fuel : nat) (mid final : Interpreter.t) (b : bool) :
  Interpreter.after n program (Interpreter.reset prior program) = Some mid ->
  Interpreter.execute fuel prior program = Some (b, final) ->
  Interpreter.getOutput mid `prefix_of` Interpreter.getOutput final.
Proof.
  intros Hmid Hrun. unfold Interpreter.execute in Hrun.
  apply (loop_mono _ _ n) in Hrun.
  rewrite Nat.add_comm, (loop_after _ _ _ _ _ Hmid) in Hrun.
  eapply loop_output. exact Hrun.
Qed.

Lemma X6_witness :
  Interpreter.getOutput (Interpreter.mk ∅ ["7"] 1)
    `prefix_of` Interpreter.getOutput (Interpreter.mk ∅ ["7"] 1).
Proof.
  apply (X6_output_append_only taken_dangling Interpreter.fresh 1%nat 5%nat
           (Interpreter.mk ∅ ["7"] 1) (Interpreter.mk ∅ ["7"] 1) false);
    reflexivity.
Defined.

Lemma getValue_not_Trap self op : Interpreter.getValue self op <> Trap.
Proof. unfold Interpreter.getValue. repeat case_match; discriminate. Qed.

Lemma findLabelFrom_not_Trap instrs lbl : forall i,
  Interpreter.findLabelFrom i instrs lbl <> Trap.
Proof.
  induction instrs as [|instr rest IH]; intros i; cbn; [discriminate|].
  destruct (Interpreter.isLabel lbl instr); [discriminate | apply IH].
Qed.

(** The only instruction that traps is a DIV or MOD whose operands read
    [INT_MIN] and [-1]. *)
Lemma dispatch_Trap program self instr :
  Interpreter.dispatch program self instr = Trap ->
  isDivision instr = true
  /\ exists l r,
       Interpreter.getValue self (Instruction.op1 instr) = Ok l
       /\ Interpreter.getValue self (Instruction.op2 instr) = Ok r
       /\ divTraps l r = true.
Proof.
  unfold Interpreter.dispatch, Interpreter.executeBinOp, Interpreter.executeUnOp,
    Interpreter.executeAssign, Interpreter.advance, Interpreter.findLabel,
    Interpreter.binResult, isDivision, mbind, outcome_bind.
  intros H.
  repeat case_match; simplify_eq;
    try (exfalso; eapply getValue_not_Trap; eassumption);
    try (exfalso; eapply findLabelFrom_not_Trap; eassumption);
    (split; [reflexivity | eauto 6]).
Qed.

(** X7: a program without Goto and IfGoto cannot loop.  For every bound
    greater than the number of instructions, [execute] returns, or the run
    reaches a DIV or MOD of [INT_MIN] by [-1], where the process is killed
    and [execute] returns for no bound; it returns when the program has no
    DIV and no MOD. *)
Theorem X7_jump_free_terminates (program : IRProgram.t) (prior : Interpreter.t)
    (fuel : nat) :
  jumpFree program ->
  (length (IRProgram.instructions program) < fuel)%nat ->
  ((exists r, Interpreter.execute fuel prior program = Some r)
   \/ (killedFrom program (Interpreter.reset prior program)
       /\ forall bound, Interpreter.execute bound prior program = None))
  /\ (Forall (fun instr => isDivision instr = false)
        (IRProgram.instructions program) ->
      exists r, Interpreter.execute fuel prior program = Some r).
Proof.
  intros Hfree Hfuel.
  assert (Hcases : (exists r, Interpreter.execute fuel prior program = Some r)
                   \/ killedFrom program (Interpreter.reset prior program)).
  { destruct (loop_jumpFree_halts program Hfree
                (length (IRProgram.instructions program))
                (Interpreter.reset prior program)) as [[r Hr] | Hkill];
      [cbn; lia..| |now right].
    left. exists r. unfold Interpreter.execute.
    replace fuel with (S (length (IRProgram.instructions program))
                       + (fuel - S (length (IRProgram.instructions program))))%nat
      by lia.
    now apply loop_mono. }
  split.
  - destruct Hcases as [Hr | Hkill]; [now left|]. right.
    split; [exact Hkill|]. intros bound. now apply loop_killed.
  - intros Hnodiv. destruct Hcases as [Hr | (n & s & instr & _ & Hf & Hd)];
      [exact Hr|].
    exfalso. apply dispatch_Trap in Hd as [Hdiv _].
    apply fetch_bounds in Hf as [_ Hin].
    rewrite Forall_forall in Hnodiv. apply list_elem_of_In in Hin.
    rewrite (Hnodiv _ Hin) in Hdiv. discriminate.
Qed.

Lemma X7_witness :
  exists r, Interpreter.execute 3 Interpreter.fresh print_x = Some r.
Proof.
  apply (proj2 (X7_jump_free_terminates print_x Interpreter.fresh 3%nat
                  ltac:(repeat constructor) ltac:(cbn; lia))).
  repeat constructor.
Defined.

(** X8: [execute] returns [false] only because the instruction at the
    counter threw, and the only errors an instruction throws are "Undefined
    variable: x", "Division by zero", "Modulo by zero" and "Label not
    found: l". *)
Theorem X8_failure_is_runtime_error (program : IRProgram.t)
    (prior : Interpreter.t) (fuel : nat) (s : Interpreter.t) :
  Interpreter.execute fuel prior program = Some (false, s) ->
  exists instr what,
    Interpreter.fetch program s = Some instr
    /\ Interpreter.dispatch program s instr = Throw what
    /\ isRuntimeError what.
Proof.
  intros H. apply loop_false in H as (instr & what & Hf & Hd).
  exists instr, what. split; [exact Hf|]. split; [exact Hd|].
  eapply dispatch_Throw. exact Hd.
Qed.

Lemma X8_witness :
  exists instr what,
    Interpreter.fetch taken_dangling (Interpreter.mk ∅ ["7"] 1) = Some instr
    /\ Interpreter.dispatch taken_dangling (Interpreter.mk ∅ ["7"] 1) instr
       = Throw what
    /\ isRuntimeError what.
Proof.
  apply (X8_failure_is_runtime_error taken_dangling Interpreter.fresh 2%nat).
  reflexivity.
Defined.

(** * Further properties of the optimizer *)

(** ** Constant folding *)

Lemma foldInstr_idempotent instr folded :
  Optimizer.foldInstr instr = Some folded ->
  Optimizer.foldInstr folded = Some folded.
Proof.
  intros H. pose proof H as Hcases.
  apply foldInstr_Some in Hcases as [-> | (_ & v & ->)];
    [exact H | reflexivity].
Qed.

(** X9: constant folding is idempotent and keeps the number of
    instructions: on the program it returns, a second pass returns too and
    finds nothing left to fold.  It returns a program unless some
    instruction divides the Constant [INT_MIN] by the Constant [-1]. *)
Theorem X9_foldConstants_idempotent (input output : IRProgram.t) :
  Optimizer.foldConstants input = Some output ->
  Optimizer.foldConstants output = Some output
  /\ length (IRProgram.instructions output)
     = length (IRProgram.instructions input)
  /\ ((exists returned, Optimizer.foldConstants input = Some returned)
      <-> Forall (fun instr => foldTraps instr = false)
            (IRProgram.instructions input)).
Proof.
  intros H.
  split; [|split; [now apply foldConstants_length|apply foldConstants_returns]].
  apply foldConstants_Some. split; [|split; reflexivity].
  apply mapM_Some.
  pose proof (foldConstants_Forall2 _ _ H) as Hall.
  induction Hall as [|x y l k Hxy _ IH]; constructor; [|exact IH].
  now apply (foldInstr_idempotent x).
Qed.

Lemma X9_witness :
  Optimizer.foldConstants folded_and_print = Some folded_and_print
  /\ length (IRProgram.instructions folded_and_print)
     = length (IRProgram.instructions fold_and_print)
  /\ ((exists returned, Optimizer.foldConstants fold_and_print = Some returned)
      <-> Forall (fun instr => foldTraps instr = false)
            (IRProgram.instructions fold_and_print)).
Proof.
  apply (X9_foldConstants_idempotent fold_and_print folded_and_print).
  reflexivity.
Defined.

Lemma isLabel_foldInstr lbl instr folded :
  Optimizer.foldInstr instr = Some folded ->
  Interpreter.isLabel lbl folded = Interpreter.isLabel lbl instr.
Proof.
  intros H. apply foldInstr_Some in H as [-> | (Hc & v & ->)]; [reflexivity|].
  unfold constOperands in Hc. unfold Interpreter.isLabel. cbn.
  destruct (Instruction.type instr); try discriminate; reflexivity.
Qed.

Lemma findLabel_foldConstants input output lbl :
  Optimizer.foldConstants input = Some output ->
  Interpreter.findLabel output lbl = Interpreter.findLabel input lbl.
Proof.
  intros H. apply foldConstants_Forall2 in H.
  unfold Interpreter.findLabel. generalize 0.
  induction H as [|x y l k Hxy _ IH]; intros i; [reflexivity|].
  cbn. rewrite (isLabel_foldInstr _ _ _ Hxy). now rewrite IH.
Qed.

Lemma dispatch_same_labels program1 program2 self instr :
  (forall lbl, Interpreter.findLabel program1 lbl
               = Interpreter.findLabel program2 lbl) ->
  Interpreter.dispatch program1 self instr
  = Interpreter.dispatch program2 self instr.
Proof.
  intros Hl. unfold Interpreter.dispatch. now rewrite !Hl.
Qed.

Lemma foldBin_Some_binResult op val1 val2 v :
  Optimizer.foldBin op val1 val2 = Some v ->
  isDivOrMod op && (val2 =? 0) = false ->
  Interpreter.binResult op val1 val2 = Ok v.
Proof.
  intros Hf Hz.
  destruct (isDivOrMod op && divTraps val1 val2) eqn:Ht.
  - apply foldBin_None in Ht. congruence.
  - destruct (foldBin_binResult _ _ _ Hz Ht) as (v' & Hf' & Hb). congruence.
Qed.

Lemma dispatch_foldInstr program self instr folded :
  Optimizer.foldInstr instr = Some folded ->
  constOperands instr && zeroDivisor instr = false ->
  Interpreter.dispatch program self folded
  = Interpreter.dispatch program self instr.
Proof.
  unfold constOperands, zeroDivisor, Optimizer.foldInstr.
  destruct instr as [ty res o1 o2 lbl bop uop args fn]; cbn.
  destruct ty; intros Hf Hz; try (injection Hf as <-; reflexivity).
  - destruct (Operand.isConst o1) eqn:Hc1; [|injection Hf as <-; reflexivity].
    destruct (Operand.isConst o2) eqn:Hc2; [|injection Hf as <-; reflexivity].
    cbn in Hf, Hz.
    destruct (Optimizer.foldBin bop (Operand.value o1) (Operand.value o2))
      as [v|] eqn:Hv; [|discriminate].
    cbn in Hf. injection Hf as <-.
    unfold Interpreter.dispatch, Interpreter.executeBinOp,
      Interpreter.executeAssign. cbn.
    rewrite !getValue_const by assumption. cbn.
    now rewrite (foldBin_Some_binResult _ _ _ _ Hv Hz).
  - destruct (Operand.isConst o1) eqn:Hc1; [|injection Hf as <-; reflexivity].
    injection Hf as <-.
    unfold Interpreter.dispatch, Interpreter.executeUnOp,
      Interpreter.executeAssign. cbn.
    rewrite !getValue_const by assumption. cbn. now destruct uop.
Qed.

Lemma loop_foldConstants input output fuel :
  Optimizer.foldConstants input = Some output ->
  noConstZeroDivisor input ->
  forall self,
    Interpreter.loop fuel output self = Interpreter.loop fuel input self.
Proof.
  intros Hfold Hsafe. unfold noConstZeroDivisor in Hsafe.
  rewrite Forall_forall in Hsafe.
  induction fuel as [|fuel IH]; intros self; [reflexivity|].
  cbn [Interpreter.loop].
  rewrite (foldConstants_length _ _ Hfold).
  destruct (Interpreter.pc self <? _); [|reflexivity].
  destruct (IRProgram.instructions input !! _) as [instr|] eqn:Hat.
  - destruct (foldConstants_lookup _ _ _ _ Hfold Hat) as (folded & Hf & Heq).
    rewrite Hf.
    rewrite (dispatch_same_labels _ input)
      by (intros lbl; now apply findLabel_foldConstants).
    rewrite (dispatch_foldInstr _ _ _ _ Heq)
      by (apply Hsafe; eapply list_elem_of_lookup_2; exact Hat).
    destruct (Interpreter.dispatch input self instr) as [[s|s]|w|]; auto.
  - apply lookup_ge_None in Hat.
    rewrite <- (foldConstants_length _ _ Hfold) in Hat.
    apply lookup_ge_None in Hat. now rewrite Hat.
Qed.

(** X10: constant folding preserves execution.  For a program in which no
    DIV or MOD has two Constant operands with divisor 0, and on which
    [foldConstants] returns, [execute] on the folded program gives the same
    result, the same output and the same final store as on the program
    itself, for every iteration bound; it returns for neither or for both. *)
Theorem X10_foldConstants_preserves_execute (input folded : IRProgram.t)
    (prior : Interpreter.t) (fuel : nat) :
  Optimizer.foldConstants input = Some folded ->
  noConstZeroDivisor input ->
  Interpreter.execute fuel prior folded = Interpreter.execute fuel prior input.
Proof.
  intros Hfold Hsafe. unfold Interpreter.execute.
  rewrite (loop_foldConstants _ _ _ Hfold Hsafe).
  apply foldConstants_Some in Hfold as (_ & Hvt & _).
  unfold Interpreter.reset. now rewrite Hvt.
Qed.

Lemma X10_witness :
  Interpreter.execute 9 Interpreter.fresh folded_and_print
  = Interpreter.execute 9 Interpreter.fresh fold_and_print.
Proof.
  apply X10_foldConstants_preserves_execute.
  - reflexivity.
  - repeat constructor.
Defined.

(** ** Dead-code elimination *)

Lemma markUsed_spec usedVars instr x :
  x ∈ Optimizer.markUsed usedVars instr <-> x ∈ usedVars \/ In x (readNames instr).
Proof.
  unfold Optimizer.markUsed, readNames.
  destruct (Instruction.type instr); cbn;
    rewrite ?elem_of_union, ?elem_of_singleton, ?elem_of_list_to_set,
      ?list_elem_of_In;
    intuition auto.
Qed.

Lemma fold_markUsed_spec instrs x : forall usedVars,
  x ∈ fold_left Optimizer.markUsed instrs usedVars
  <-> x ∈ usedVars \/ readIn instrs x.
Proof.
  unfold readIn.
  induction instrs as [|instr rest IH]; intros usedVars; cbn.
  - split; [auto|]. intros [H | (user & [] & _)]. exact H.
  - rewrite IH, markUsed_spec. split.
    + intros [[H | H] | (user & Hin & Hx)]; eauto 6.
    + intros [H | (user & [<- | Hin] & Hx)]; eauto 6.
Qed.

Lemma usedVarsOf_spec instrs x :
  x ∈ Optimizer.usedVarsOf instrs <-> readIn instrs x.
Proof.
  unfold Optimizer.usedVarsOf. rewrite fold_markUsed_spec.
  split; [intros [H | H]; [set_solver | exact H] | auto].
Qed.

Lemma markAssigned_mono assignedVars instr :
  assignedVars ⊆ Optimizer.markAssigned assignedVars instr.
Proof.
  unfold Optimizer.markAssigned. destruct (Optimizer.writesResult instr); set_solver.
Qed.

Lemma fold_markAssigned_mono instrs : forall assignedVars,
  assignedVars ⊆ fold_left Optimizer.markAssigned instrs assignedVars.
Proof.
  induction instrs as [|instr rest IH]; intros assignedVars; cbn; [set_solver|].
  etransitivity; [apply markAssigned_mono | apply IH].
Qed.

Lemma assignedVarsOf_writer instrs instr :
  In instr instrs ->
  Optimizer.writesResult instr = true ->
  Operand.str (Instruction.result instr) ∈ Optimizer.assignedVarsOf instrs.
Proof.
  unfold Optimizer.assignedVarsOf. generalize (∅ : gset string).
  induction instrs as [|hd rest IH]; intros acc Hin Hw; [easy|].
  cbn. destruct Hin as [-> | Hin].
  - apply fold_markAssigned_mono. unfold Optimizer.markAssigned.
    rewrite Hw. set_solver.
  - now apply IH.
Qed.

Lemma eliminateDeadCode_In input instr :
  In instr (IRProgram.instructions input) ->
  negb (Optimizer.isDead
          (Optimizer.assignedVarsOf (IRProgram.instructions input))
          (Optimizer.usedVarsOf (IRProgram.instructions input)) instr) = true
  <-> Optimizer.writesResult instr = false
      \/ readIn (IRProgram.instructions input)
           (Operand.str (Instruction.result instr)).
Proof.
  intros Hin. rewrite negb_true_iff. unfold Optimizer.isDead. split; intros H.
  - destruct (Optimizer.writesResult instr) eqn:Hw; [|now left]. right.
    rewrite (bool_decide_eq_true_2 _ (assignedVarsOf_writer _ _ Hin Hw)) in H.
    cbn in H. apply negb_false_iff, bool_decide_eq_true_1 in H.
    now apply usedVarsOf_spec.
  - destruct H as [-> | Hread]; [reflexivity|].
    apply usedVarsOf_spec in Hread.
    rewrite (bool_decide_eq_true_2 _ Hread). cbn. apply andb_false_r.
Qed.

(** X11: dead-code elimination leaves the variable tables as they are and
    returns the instructions of the input, in their order, that pass one
    test: an instruction is kept exactly when it is not an Assign, BinaryOp
    or UnaryOp, or some instruction of the program reads its destination
    name.  So every instruction it removes writes a name that nothing in
    the program reads. *)
Theorem X11_eliminateDeadCode_spec (input : IRProgram.t) :
  IRProgram.variableTypes (Optimizer.eliminateDeadCode input)
  = IRProgram.variableTypes input
  /\ IRProgram.symbolTable (Optimizer.eliminateDeadCode input)
     = IRProgram.symbolTable input
  /\ (exists keep : Instruction.t -> bool,
        IRProgram.instructions (Optimizer.eliminateDeadCode input)
        = List.filter keep (IRProgram.instructions input)
        /\ forall instr,
             In instr (IRProgram.instructions input) ->
             (keep instr = true
              <-> Optimizer.writesResult instr = false
                  \/ readIn (IRProgram.instructions input)
                       (Operand.str (Instruction.result instr))))
  /\ IRProgram.instructions (Optimizer.eliminateDeadCode input)
       `sublist_of` IRProgram.instructions input
  /\ forall instr,
       In instr (IRProgram.instructions (Optimizer.eliminateDeadCode input))
       <-> In instr (IRProgram.instructions input)
           /\ (Optimizer.writesResult instr = false
               \/ readIn (IRProgram.instructions input)
                    (Operand.str (Instruction.result instr))).
Proof.
  split; [reflexivity|]. split; [reflexivity|]. split; [|split].
  - eexists. split; [reflexivity|]. intros instr Hin.
    now apply eliminateDeadCode_In.
  - cbn. apply filter_sublist.
  - intros instr. cbn. rewrite filter_In. split; intros [Hin H];
      (split; [exact Hin|]); now apply eliminateDeadCode_In.
Qed.

(** X12: [optimize] never adds instructions, so the number of removed
    instructions that the driver computes from the program it returns is
    never negative.  [optimize] returns a program unless some instruction
    divides the Constant [INT_MIN] by the Constant [-1]. *)
Theorem X12_optimize_never_longer (input output : IRProgram.t) :
  Optimizer.optimize input = Some output ->
  (length (IRProgram.instructions output)
   <= length (IRProgram.instructions input))%nat
  /\ ((exists returned, Optimizer.optimize input = Some returned)
      <-> Forall (fun instr => foldTraps instr = false)
            (IRProgram.instructions input)).
Proof.
  intros H. split; [|apply optimize_returns].
  apply optimize_Some in H as (folded & Hfold & ->).
  rewrite <- (foldConstants_length _ _ Hfold).
  cbn. apply List.filter_length_le.
Qed.

Lemma X12_witness :
  (length (IRProgram.instructions optimized_dead_store)
   <= length (IRProgram.instructions with_dead_store))%nat
  /\ ((exists returned, Optimizer.optimize with_dead_store = Some returned)
      <-> Forall (fun instr => foldTraps instr = false)
            (IRProgram.instructions with_dead_store)).
Proof.
  apply (X12_optimize_never_longer with_dead_store optimized_dead_store).
  vm_compute. reflexivity.
Defined.

(** * Further properties of the semantic analyzer *)

Lemma warn_unless_symbolTable ok msg self :
  SemanticAnalyzer.symbolTable (SemanticAnalyzer.warn_unless ok msg self)
  = SemanticAnalyzer.symbolTable self.
Proof. now destruct ok. Qed.

Lemma warn_unless_errors ok msg self :
  SemanticAnalyzer.errors (SemanticAnalyzer.warn_unless ok msg self)
  = SemanticAnalyzer.errors self.
Proof. now destruct ok. Qed.

Lemma visitExpression_symbolTable expr : forall self,
  SemanticAnalyzer.symbolTable (snd (SemanticAnalyzer.visitExpression expr self))
  = SemanticAnalyzer.symbolTable self.
Proof.
  induction expr as [|l IHl op r IHr|op e IHe|n|v|fn args _]; intros self; cbn;
    try reflexivity.
  - specialize (IHl self).
    destruct (SemanticAnalyzer.visitExpression l self) as [lt s1].
    specialize (IHr s1).
    destruct (SemanticAnalyzer.visitExpression r s1) as [rt s2].
    cbn in *. rewrite <- IHl, <- IHr.
    destruct (SemanticAnalyzer.isComparison op); [reflexivity|].
    destruct (SemanticAnalyzer.isLogical op); cbn;
      now rewrite ?warn_unless_symbolTable.
  - specialize (IHe self).
    destruct (SemanticAnalyzer.visitExpression e self) as [ot s1].
    cbn in *. rewrite <- IHe.
    destruct op; cbn; now rewrite warn_unless_symbolTable.
  - unfold SemanticAnalyzer.visitVarExpr.
    destruct (SemanticAnalyzer.symbolTable self !! n) as [sym|]; cbn;
      [|reflexivity].
    now destruct (SemanticAnalyzer.initialized sym).
Qed.

(** A relation between the analyzer before and after a visit that is kept
    by every step the visitors take is kept by the visitors. *)
Section VisitRelation.
Import SemanticAnalyzer.
Variable Rel : SemanticAnalyzer.t -> SemanticAnalyzer.t -> Prop.
Hypothesis Rel_refl : forall self, Rel self self.
Hypothesis Rel_trans : forall a b c, Rel a b -> Rel b c -> Rel a c.
Hypothesis Rel_warning : forall msg self, Rel self (push_warning msg self).
Hypothesis Rel_undefined : forall n self,
  symbolTable self !! n = None ->
  Rel self (push_error ("Undefined variable '" +:+ n +:+ "'") self).
Hypothesis Rel_redeclared : forall n self,
  is_Some (symbolTable self !! n) ->
  Rel self (push_error ("Variable '" +:+ n +:+ "' already defined") self).
Hypothesis Rel_not_defined : forall n self,
  symbolTable self !! n = None ->
  Rel self (push_error ("Variable '" +:+ n +:+ "' is not defined") self).
Hypothesis Rel_declare : forall n sym self,
  symbolTable self !! n = None ->
  name sym = n ->
  Rel self (set_symbolTable (<[n := sym]> (symbolTable self)) self).
Hypothesis Rel_assign : forall n sym self,
  symbolTable self !! n = Some sym ->
  Rel self
    (set_symbolTable
       (<[n := mkSymbol (name sym) (type sym) (definedLine sym) true]>
          (symbolTable self)) self).

Lemma warn_unless_Rel ok msg self : Rel self (warn_unless ok msg self).
Proof. destruct ok; cbn; auto. Qed.

Lemma visitExpression_Rel expr : forall self,
  Rel self (snd (visitExpression expr self)).
Proof.
  induction expr as [|l IHl op r IHr|op e IHe|n|v|fn args _]; intros self; cbn;
    auto.
  - specialize (IHl self). destruct (visitExpression l self) as [lt s1].
    specialize (IHr s1). destruct (visitExpression r s1) as [rt s2].
    cbn in *. apply (Rel_trans _ s1); [exact IHl|].
    apply (Rel_trans _ s2); [exact IHr|].
    destruct (isComparison op); [auto|].
    destruct (isLogical op); cbn; [|apply warn_unless_Rel].
    eapply Rel_trans; apply warn_unless_Rel.
  - specialize (IHe self). destruct (visitExpression e self) as [ot s1].
    cbn in *. apply (Rel_trans _ s1); [exact IHe|].
    destruct op; cbn; apply warn_unless_Rel.
  - unfold visitVarExpr.
    destruct (symbolTable self !! n) as [sym|] eqn:Hn; cbn; [|auto].
    destruct (initialized sym); cbn; auto.
Qed.

Lemma visitCondition_Rel what cond self : Rel self (visitCondition what cond self).
Proof.
  unfold visitCondition.
  pose proof (visitExpression_Rel cond self) as H.
  destruct (visitExpression cond self) as [ct s1]. cbn in H.
  apply (Rel_trans _ s1); [exact H | apply warn_unless_Rel].
Qed.

Lemma visitDecl_Rel varName dataType initializer line self :
  Rel self (visitDecl varName dataType initializer line self).
Proof.
  unfold visitDecl, defined.
  destruct (bool_decide (is_Some (symbolTable self !! varName))) eqn:Hdef.
  - apply Rel_redeclared. now apply bool_decide_eq_true_1 in Hdef.
  - apply bool_decide_eq_false_1 in Hdef.
    assert (Hnone : symbolTable self !! varName = None).
    { destruct (symbolTable self !! varName); [|reflexivity].
      exfalso. apply Hdef. eauto. }
    destruct (negb (isNull initializer)); [|now apply Rel_declare].
    pose proof (visitExpression_Rel initializer self) as H.
    pose proof (visitExpression_symbolTable initializer self) as Hst.
    destruct (visitExpression initializer self) as [et s1]. cbn in H, Hst.
    apply (Rel_trans _ s1); [exact H|].
    eapply Rel_trans; [apply warn_unless_Rel|].
    apply Rel_declare; [|reflexivity].
    now rewrite warn_unless_symbolTable, Hst.
Qed.

Lemma visitAssign_Rel varName value self : Rel self (visitAssign varName value self).
Proof.
  unfold visitAssign.
  destruct (symbolTable self !! varName) as [sym0|] eqn:Hn; [|auto].
  pose proof (visitExpression_Rel value self) as H.
  destruct (visitExpression value self) as [et s1]. cbn in H.
  destruct (symbolTable s1 !! varName) as [sym|] eqn:Hn1; [|exact H].
  apply (Rel_trans _ s1); [exact H|].
  eapply Rel_trans; [apply warn_unless_Rel|].
  apply Rel_assign. now rewrite warn_unless_symbolTable.
Qed.

Lemma fold_visit_Rel (visit : Statement -> t -> t) stmts :
  list_all Statement (fun st => forall self, Rel self (visit st self)) stmts ->
  forall self, Rel self (fold_left (fun s st => visit st s) stmts self).
Proof.
  induction 1 as [|st Hst rest _ IH]; intros self; cbn; [auto|].
  apply (Rel_trans _ (visit st self)); [apply Hst | apply IH].
Qed.

Lemma visitStatement_Rel stmt : forall self, Rel self (visitStatement stmt self).
Proof.
  induction stmt as
    [ | | varName dataType initializer line | varName value
    | cond thenBranch IHthen elseBranch IHelse | cond body IHbody
    | init IHinit cond update body IHbody | stmts IHstmts | value | value ];
    intros self; cbn [visitStatement]; auto.
  - apply visitDecl_Rel.
  - apply visitAssign_Rel.
  - eapply Rel_trans; [apply visitCondition_Rel|].
    eapply Rel_trans; [apply (fold_visit_Rel _ _ IHthen)|].
    apply (fold_visit_Rel _ _ IHelse).
  - eapply Rel_trans; [apply visitCondition_Rel|].
    apply (fold_visit_Rel _ _ IHbody).
  - apply (Rel_trans _ (visitStatement init self)); [apply IHinit|].
    generalize (visitStatement init self) as s1. intros s1.
    eapply Rel_trans; [|apply (fold_visit_Rel _ _ IHbody)].
    apply (Rel_trans _
             (if negb (isNull cond) then visitCondition "For" cond s1 else s1)).
    + destruct (negb (isNull cond)); [apply visitCondition_Rel | auto].
    + destruct (negb (isNull update)); [apply visitExpression_Rel | auto].
  - apply (fold_visit_Rel _ _ IHstmts).
  - destruct (negb (isNull value)); [apply visitExpression_Rel | auto].
  - apply visitExpression_Rel.
Qed.

Lemma visitStatements_Rel stmts : forall self,
  Rel self (visitStatements stmts self).
Proof.
  induction stmts as [|st rest IH]; intros self; cbn; [auto|].
  apply (Rel_trans _ (visitStatement st self));
    [apply visitStatement_Rel | apply IH].
Qed.
End VisitRelation.

(** ** Errors that the analyzer reports *)

Lemma appendsErrors_refl P self : appendsErrors P self self.
Proof. exists []. split; [now rewrite app_nil_r | constructor]. Qed.

Lemma appendsErrors_trans P a b c :
  appendsErrors P a b -> appendsErrors P b c -> appendsErrors P a c.
Proof.
  intros (n1 & H1 & P1) (n2 & H2 & P2). exists (n1 ++ n2)%list.
  split; [now rewrite H2, H1, app_assoc | now apply Forall_app].
Qed.

Lemma appendsErrors_same P self self' :
  SemanticAnalyzer.errors self' = SemanticAnalyzer.errors self ->
  appendsErrors P self self'.
Proof. intros H. exists []. split; [now rewrite app_nil_r | constructor]. Qed.

Lemma appendsErrors_push (P : string -> Prop) msg self :
  P msg -> appendsErrors P self (SemanticAnalyzer.push_error msg self).
Proof. intros H. exists [msg]. split; [reflexivity | now constructor]. Qed.

(** X13: visiting an expression never changes the symbol table, and the
    only errors it adds are "Undefined variable '...'" messages. *)
Theorem X13_visitExpression_frame (expr : Expression) (self : SemanticAnalyzer.t) :
  SemanticAnalyzer.symbolTable (snd (SemanticAnalyzer.visitExpression expr self))
  = SemanticAnalyzer.symbolTable self
  /\ appendsErrors isUndefinedVariable self
       (snd (SemanticAnalyzer.visitExpression expr self)).
Proof.
  split; [apply visitExpression_symbolTable|].
  apply (visitExpression_Rel (appendsErrors isUndefinedVariable)).
  - apply appendsErrors_refl.
  - apply appendsErrors_trans.
  - intros msg s. now apply appendsErrors_same.
  - intros n s _. apply appendsErrors_push. now exists n.
Qed.

(** X14: every fatal error that analyzing a list of statements adds is one
    of "Variable '...' already defined", "Variable '...' is not defined" and
    "Undefined variable '...'"; the errors present before stay in front. *)
Theorem X14_errors_are_semantic (stmts : list Statement)
    (self : SemanticAnalyzer.t) :
  appendsErrors isSemanticError self
    (SemanticAnalyzer.visitStatements stmts self).
Proof.
  apply (visitStatements_Rel (appendsErrors isSemanticError)).
  - apply appendsErrors_refl.
  - apply appendsErrors_trans.
  - intros msg s. now apply appendsErrors_same.
  - intros n s _. apply appendsErrors_push. right. right. now exists n.
  - intros n s _. apply appendsErrors_push. left. now exists n.
  - intros n s _. apply appendsErrors_push. right. left. now exists n.
  - intros n sym s _ _. now apply appendsErrors_same.
  - intros n sym s _. now apply appendsErrors_same.
Qed.

(** ** The symbol table *)

Lemma tableGrows_refl self : tableGrows self self.
Proof. intros x sym H. exists sym. auto. Qed.

Lemma tableGrows_trans a b c : tableGrows a b -> tableGrows b c -> tableGrows a c.
Proof.
  intros Hab Hbc x sym H.
  destruct (Hab x sym H) as (sym1 & H1 & Hn1 & Ht1 & Hl1 & Hi1).
  destruct (Hbc x sym1 H1) as (sym2 & H2 & Hn2 & Ht2 & Hl2 & Hi2).
  exists sym2. repeat split; try congruence. auto.
Qed.

Lemma tableGrows_same self self' :
  SemanticAnalyzer.symbolTable self' = SemanticAnalyzer.symbolTable self ->
  tableGrows self self'.
Proof. intros Heq x sym H. exists sym. rewrite Heq. auto. Qed.

Lemma visitStatements_tableGrows stmts self :
  tableGrows self (SemanticAnalyzer.visitStatements stmts self).
Proof.
  apply (visitStatements_Rel tableGrows).
  - apply tableGrows_refl.
  - apply tableGrows_trans.
  - intros msg s. now apply tableGrows_same.
  - intros n s _. now apply tableGrows_same.
  - intros n s _. now apply tableGrows_same.
  - intros n s _. now apply tableGrows_same.
  - intros n sym s Hnone _ x sym0 H. exists sym0. cbn.
    rewrite lookup_insert_ne by congruence. auto.
  - intros n sym s Hn x sym0 H. cbn.
    destruct (decide (n = x)) as [<- | Hne].
    + rewrite lookup_insert_eq. eexists. split; [reflexivity|].
      assert (sym0 = sym) as -> by congruence. cbn. auto.
    + rewrite lookup_insert_ne by exact Hne. exists sym0. auto.
Qed.

(** X15: analysis never removes or retypes a symbol: a name in the symbol
    table before a list of statements is analyzed is in it afterwards, with
    the same name, type and line of definition, and stays initialized once
    it is. *)
Theorem X15_symbols_are_kept (stmts : list Statement) (self : SemanticAnalyzer.t)
    (x : string) (sym : SemanticAnalyzer.Symbol) :
  SemanticAnalyzer.symbolTable self !! x = Some sym ->
  exists sym',
    SemanticAnalyzer.symbolTable (SemanticAnalyzer.visitStatements stmts self) !! x
    = Some sym'
    /\ SemanticAnalyzer.name sym' = SemanticAnalyzer.name sym
    /\ SemanticAnalyzer.type sym' = SemanticAnalyzer.type sym
    /\ SemanticAnalyzer.definedLine sym' = SemanticAnalyzer.definedLine sym
    /\ (SemanticAnalyzer.initialized sym = true ->
        SemanticAnalyzer.initialized sym' = true)
    /\ SemanticAnalyzer.getVariableType
         (SemanticAnalyzer.visitStatements stmts self) x
       = SemanticAnalyzer.getVariableType self x.
Proof.
  intros H.
  destruct (visitStatements_tableGrows stmts self x sym H)
    as (sym' & H' & Hn & Ht & Hl & Hi).
  exists sym'. repeat split; auto.
  unfold SemanticAnalyzer.getVariableType. now rewrite H, H'.
Qed.

Lemma X15_witness :
  exists sym',
    SemanticAnalyzer.symbolTable
      (SemanticAnalyzer.visitStatements redeclare_assign_x knows_x) !! "x"
    = Some sym'
    /\ SemanticAnalyzer.name sym' = SemanticAnalyzer.name x_int
    /\ SemanticAnalyzer.type sym' = SemanticAnalyzer.type x_int
    /\ SemanticAnalyzer.definedLine sym' = SemanticAnalyzer.definedLine x_int
    /\ (SemanticAnalyzer.initialized x_int = true ->
        SemanticAnalyzer.initialized sym' = true)
    /\ SemanticAnalyzer.getVariableType
         (SemanticAnalyzer.visitStatements redeclare_assign_x knows_x) "x"
       = SemanticAnalyzer.getVariableType knows_x "x".
Proof.
  apply (X15_symbols_are_kept redeclare_assign_x knows_x "x" x_int).
  vm_compute. reflexivity.
Defined.

Lemma visitDecl_defines varName dataType initializer line self :
  is_Some (SemanticAnalyzer.symbolTable
             (SemanticAnalyzer.visitDecl varName dataType initializer line self)
           !! varName).
Proof.
  unfold SemanticAnalyzer.visitDecl, SemanticAnalyzer.defined.
  destruct (bool_decide _) eqn:Hdef.
  - now apply bool_decide_eq_true_1 in Hdef.
  - cbn. rewrite lookup_insert_eq. eauto.
Qed.

(** X16: an analyzer is not reset by [analyze]: after a program that holds
    a declaration among its top-level statements has been analyzed, a second
    [analyze] of the same program on the same analyzer rejects it, whatever
    the first verdict was. *)
Theorem X16_analyzer_not_reusable (self : SemanticAnalyzer.t) (prog : Program)
    (varName dataType : string) (initializer : Expression) (line : Z) :
  In (DeclStmt varName dataType initializer line) (statements prog) ->
  fst (SemanticAnalyzer.analyze
         (snd (SemanticAnalyzer.analyze self (Some prog))) (Some prog))
  = false.
Proof.
  intros Hin. apply in_split in Hin as (before & after & Hsplit).
  cbn [SemanticAnalyzer.analyze fst snd]. rewrite Hsplit.
  set (decl := DeclStmt varName dataType initializer line).
  set (self1 := SemanticAnalyzer.visitStatements (before ++ decl :: after) self).
  assert (Hdef1 : is_Some (SemanticAnalyzer.symbolTable self1 !! varName)).
  { subst self1. rewrite visitStatements_app.
    change (SemanticAnalyzer.visitStatements (decl :: after) ?s)
      with (SemanticAnalyzer.visitStatements after
              (SemanticAnalyzer.visitStatement decl s)).
    destruct (visitDecl_defines varName dataType initializer line
                (SemanticAnalyzer.visitStatements before self)) as [sym Hsym].
    destruct (visitStatements_tableGrows after _ _ _ Hsym) as (sym' & H' & _).
    eauto. }
  rewrite visitStatements_app.
  change (SemanticAnalyzer.visitStatements (decl :: after) ?s)
    with (SemanticAnalyzer.visitStatements after
            (SemanticAnalyzer.visitStatement decl s)).
  destruct Hdef1 as [sym Hsym].
  destruct (visitStatements_tableGrows before _ _ _ Hsym) as (sym2 & H2 & _).
  subst decl. rewrite visitDecl_redeclared
    by (unfold SemanticAnalyzer.isVariableDefined, SemanticAnalyzer.defined;
        apply bool_decide_eq_true_2; eauto).
  destruct (visitStatements_grows after
              (SemanticAnalyzer.push_error (redeclared varName)
                 (SemanticAnalyzer.visitStatements before self1))) as [k Hk].
  rewrite Hk. cbn.
  now destruct (SemanticAnalyzer.errors
                  (SemanticAnalyzer.visitStatements before self1)).
Qed.

Lemma X16_witness :
  fst (SemanticAnalyzer.analyze
         (snd (SemanticAnalyzer.analyze SemanticAnalyzer.fresh (Some scenarioA)))
         (Some scenarioA))
  = false.
Proof.
  apply (X16_analyzer_not_reusable SemanticAnalyzer.fresh scenarioA
           "a" "int" (ConstExpr (inl 2)) 1).
  cbn. tauto.
Defined.

(** ** Warnings do not influence the verdict *)

Section UpToWarnings.
Import SemanticAnalyzer.

Lemma same_push_warning_l msg s1 s2 :
  sameUpToWarnings s1 s2 -> sameUpToWarnings (push_warning msg s1) s2.
Proof. now intros [Ht He]. Qed.

Lemma same_push_warning_r msg s1 s2 :
  sameUpToWarnings s1 s2 -> sameUpToWarnings s1 (push_warning msg s2).
Proof. now intros [Ht He]. Qed.

Lemma same_warn_unless ok1 msg1 ok2 msg2 s1 s2 :
  sameUpToWarnings s1 s2 ->
  sameUpToWarnings (warn_unless ok1 msg1 s1) (warn_unless ok2 msg2 s2).
Proof.
  intros H. destruct ok1, ok2; cbn; auto using same_push_warning_l,
    same_push_warning_r.
Qed.

Lemma same_push_error msg s1 s2 :
  sameUpToWarnings s1 s2 ->
  sameUpToWarnings (push_error msg s1) (push_error msg s2).
Proof. intros [Ht He]. split; cbn; congruence. Qed.

Lemma same_set_symbolTable m s1 s2 :
  sameUpToWarnings s1 s2 ->
  sameUpToWarnings (set_symbolTable m s1) (set_symbolTable m s2).
Proof. intros [Ht He]. split; cbn; congruence. Qed.

Lemma visitExpression_same expr : forall s1 s2,
  sameUpToWarnings s1 s2 ->
  fst (visitExpression expr s1) = fst (visitExpression expr s2)
  /\ sameUpToWarnings (snd (visitExpression expr s1)) (snd (visitExpression expr s2)).
Proof.
  induction expr as [|l IHl op r IHr|op e IHe|n|v|fn args _]; intros s1 s2 H; cbn;
    auto.
  - specialize (IHl s1 s2 H).
    destruct (visitExpression l s1) as [lt1 a1], (visitExpression l s2) as [lt2 a2].
    cbn in IHl. destruct IHl as [-> Ha]. specialize (IHr a1 a2 Ha).
    destruct (visitExpression r a1) as [rt1 b1], (visitExpression r a2) as [rt2 b2].
    cbn in IHr. destruct IHr as [-> Hb].
    destruct (isComparison op); [auto|].
    destruct (isLogical op); cbn; split; auto using same_warn_unless.
  - specialize (IHe s1 s2 H).
    destruct (visitExpression e s1) as [ot1 a1], (visitExpression e s2) as [ot2 a2].
    cbn in IHe. destruct IHe as [-> Ha].
    destruct op; cbn; split; auto using same_warn_unless.
  - unfold visitVarExpr. destruct H as [Ht He]. rewrite Ht.
    destruct (symbolTable s2 !! n) as [sym|]; cbn.
    + split; [reflexivity|].
      destruct (initialized sym); cbn; split; auto.
    + split; [reflexivity|]. split; cbn; congruence.
Qed.

Lemma visitCondition_same what cond s1 s2 :
  sameUpToWarnings s1 s2 ->
  sameUpToWarnings (visitCondition what cond s1) (visitCondition what cond s2).
Proof.
  intros H. unfold visitCondition.
  destruct (visitExpression_same cond s1 s2 H) as [Hty Hs].
  destruct (visitExpression cond s1) as [t1 a1], (visitExpression cond s2) as [t2 a2].
  cbn in *. now apply same_warn_unless.
Qed.

Lemma visitDecl_same varName dataType initializer line s1 s2 :
  sameUpToWarnings s1 s2 ->
  sameUpToWarnings (visitDecl varName dataType initializer line s1)
    (visitDecl varName dataType initializer line s2).
Proof.
  intros H. unfold visitDecl, defined.
  assert (Ht : symbolTable s1 = symbolTable s2) by apply H. rewrite Ht.
  destruct (bool_decide (is_Some (symbolTable s2 !! varName)));
    [now apply same_push_error|].
  destruct (negb (isNull initializer)).
  - destruct (visitExpression_same initializer s1 s2 H) as [Hty Hs].
    destruct (visitExpression initializer s1) as [t1 a1],
      (visitExpression initializer s2) as [t2 a2].
    cbn in Hty, Hs.
    pose proof (same_warn_unless (String.eqb t1 dataType)
      ("Type mismatch in initialization of '" +:+ varName +:+
       "': expected " +:+ dataType +:+ ", got " +:+ t1)
      (String.eqb t2 dataType)
      ("Type mismatch in initialization of '" +:+ varName +:+
       "': expected " +:+ dataType +:+ ", got " +:+ t2) a1 a2 Hs) as Hw.
    destruct Hw as [Hwt Hwe]. split; cbn; congruence.
  - destruct H as [_ He]. split; cbn; congruence.
Qed.

Lemma visitAssign_same varName value s1 s2 :
  sameUpToWarnings s1 s2 ->
  sameUpToWarnings (visitAssign varName value s1) (visitAssign varName value s2).
Proof.
  intros H. unfold visitAssign.
  assert (Ht : symbolTable s1 = symbolTable s2) by apply H. rewrite Ht.
  destruct (symbolTable s2 !! varName); [|now apply same_push_error].
  destruct (visitExpression_same value s1 s2 H) as [Hty Hs].
  destruct (visitExpression value s1) as [t1 a1],
    (visitExpression value s2) as [t2 a2].
  cbn in Hty, Hs.
  assert (Hta : symbolTable a1 = symbolTable a2) by apply Hs. rewrite Hta.
  destruct (symbolTable a2 !! varName) as [sym|]; [|exact Hs].
  pose proof (same_warn_unless (String.eqb t1 (type sym))
    ("Type mismatch in assignment to '" +:+ varName +:+
     "': expected " +:+ type sym +:+ ", got " +:+ t1)
    (String.eqb t2 (type sym))
    ("Type mismatch in assignment to '" +:+ varName +:+
     "': expected " +:+ type sym +:+ ", got " +:+ t2) a1 a2 Hs) as Hw.
  destruct Hw as [Hwt Hwe]. split; cbn; congruence.
Qed.

Lemma fold_visit_same (visit : Statement -> t -> t) stmts :
  list_all Statement
    (fun st => forall s1 s2, sameUpToWarnings s1 s2 ->
                 sameUpToWarnings (visit st s1) (visit st s2)) stmts ->
  forall s1 s2, sameUpToWarnings s1 s2 ->
    sameUpToWarnings (fold_left (fun s st => visit st s) stmts s1)
      (fold_left (fun s st => visit st s) stmts s2).
Proof.
  induction 1 as [|st Hst rest _ IH]; intros s1 s2 H; cbn; auto.
Qed.

Lemma visitStatement_same stmt : forall s1 s2,
  sameUpToWarnings s1 s2 ->
  sameUpToWarnings (visitStatement stmt s1) (visitStatement stmt s2).
Proof.
  induction stmt as
    [ | | varName dataType initializer line | varName value
    | cond thenBranch IHthen elseBranch IHelse | cond body IHbody
    | init IHinit cond update body IHbody | stmts IHstmts | value | value ];
    intros s1 s2 H; cbn [visitStatement]; auto.
  - now apply visitDecl_same.
  - now apply visitAssign_same.
  - apply (fold_visit_same _ _ IHelse), (fold_visit_same _ _ IHthen).
    now apply visitCondition_same.
  - apply (fold_visit_same _ _ IHbody). now apply visitCondition_same.
  - apply (fold_visit_same _ _ IHbody).
    assert (H1 : sameUpToWarnings
                   (if negb (isNull cond)
                    then visitCondition "For" cond (visitStatement init s1)
                    else visitStatement init s1)
                   (if negb (isNull cond)
                    then visitCondition "For" cond (visitStatement init s2)
                    else visitStatement init s2)).
    { destruct (negb (isNull cond)); auto using visitCondition_same. }
    destruct (negb (isNull update)); [|exact H1].
    now apply visitExpression_same.
  - now apply (fold_visit_same _ _ IHstmts).
  - destruct (negb (isNull value)); [|exact H]. now apply visitExpression_same.
  - now apply visitExpression_same.
Qed.

Lemma visitStatements_same stmts : forall s1 s2,
  sameUpToWarnings s1 s2 ->
  sameUpToWarnings (visitStatements stmts s1) (visitStatements stmts s2).
Proof.
  induction stmts as [|st rest IH]; intros s1 s2 H; cbn; [exact H|].
  apply IH. now apply visitStatement_same.
Qed.
End UpToWarnings.

(** X17: warnings never block: the verdict of [analyze], the error list
    and the symbol table it leaves do not depend on the warnings the
    analyzer holds, those of earlier calls included. *)
Theorem X17_warnings_never_block (s1 s2 : SemanticAnalyzer.t) (prog : Program) :
  sameUpToWarnings s1 s2 ->
  fst (SemanticAnalyzer.analyze s1 (Some prog))
  = fst (SemanticAnalyzer.analyze s2 (Some prog))
  /\ sameUpToWarnings (snd (SemanticAnalyzer.analyze s1 (Some prog)))
       (snd (SemanticAnalyzer.analyze s2 (Some prog))).
Proof.
  intros H. cbn.
  pose proof (visitStatements_same (statements prog) s1 s2 H) as Hs.
  split; [|exact Hs]. destruct Hs as [_ He]. now rewrite He.
Qed.

Lemma X17_witness :
  fst (SemanticAnalyzer.analyze SemanticAnalyzer.fresh (Some scenarioA))
  = fst (SemanticAnalyzer.analyze
           (SemanticAnalyzer.mk ∅ [] ["If condition should be boolean, got int"])
           (Some scenarioA))
  /\ sameUpToWarnings
       (snd (SemanticAnalyzer.analyze SemanticAnalyzer.fresh (Some scenarioA)))
       (snd (SemanticAnalyzer.analyze
               (SemanticAnalyzer.mk ∅ [] ["If condition should be boolean, got int"])
               (Some scenarioA))).
Proof.
  apply X17_warnings_never_block. split; reflexivity.
Defined.

(** * Properties of the code generator *)

(** ** Lowering of expressions *)

Lemma extend_nil g : extend g [] 0 = g.
Proof.
  destruct g as [[instrs vt st] tc lc vts]. unfold extend, code. cbn.
  now rewrite app_nil_r, Z.add_0_r.
Qed.

Lemma extend_extend g c1 a c2 b :
  extend (extend g c1 a) c2 b = extend g (c1 ++ c2) (a + b).
Proof.
  unfold extend, code. cbn. now rewrite <- app_assoc, Z.add_assoc.
Qed.

Lemma genTemp_extend g :
  CodeGenerator.genTemp g = (tname (CodeGenerator.tempCounter g), extend g [] 1).
Proof.
  destruct g as [[instrs vt st] tc lc vts].
  unfold CodeGenerator.genTemp, extend, code. cbn. now rewrite app_nil_r.
Qed.

Lemma emitInstruction_extend instr g :
  CodeGenerator.emitInstruction instr g = extend g [instr] 0.
Proof.
  destruct g as [[instrs vt st] tc lc vts].
  unfold CodeGenerator.emitInstruction, extend, code. cbn.
  now rewrite Z.add_0_r.
Qed.

Lemma exprChunk_nil t0 : exprChunk t0 [].
Proof. split; [constructor | reflexivity]. Qed.

Lemma exprChunk_app t0 c1 c2 :
  exprChunk t0 c1 ->
  exprChunk (t0 + Z.of_nat (length c1)) c2 ->
  exprChunk t0 (c1 ++ c2).
Proof.
  intros [F1 N1] [F2 N2]. split; [now apply Forall_app|].
  rewrite fmap_app, N1, N2, length_app, Nat2Z.inj_add, seqZ_app by lia.
  now rewrite fmap_app.
Qed.

Lemma exprChunk_single t0 instr :
  isExprInstr instr = true ->
  Instruction.result instr = Operand.named (tname t0) Operand.Type_.TEMP ->
  exprChunk t0 [instr].
Proof.
  intros Hk Hr. split.
  - constructor; [|constructor]. split; [exact Hk|]. now rewrite Hr.
  - cbn. unfold resultName. now rewrite Hr.
Qed.

Lemma operandOf_snoc chunk instr :
  operandOf (Instruction.result instr) (chunk ++ [instr]).
Proof. unfold operandOf. now rewrite last_snoc. Qed.

Lemma genExpression_extend expr : forall g,
  exists op chunk,
    CodeGenerator.genExpression expr g
    = (op, extend g chunk (Z.of_nat (length chunk)))
    /\ length chunk = opCount expr
    /\ exprChunk (CodeGenerator.tempCounter g) chunk
    /\ operandOf op chunk.
Proof.
  induction expr as [|l IHl op r IHr|op e IHe|n|v|fn args IHargs]; intros g.
  - exists (Operand.of_int 0), []. cbn. rewrite extend_nil.
    repeat split; auto using exprChunk_nil.
  - destruct (IHl g) as (opl & cl & Hl & Ll & Cl & _).
    destruct (IHr (extend g cl (Z.of_nat (length cl))))
      as (opr & cr & Hr & Lr & Cr & _).
    cbn [CodeGenerator.genExpression]. rewrite Hl, Hr, genTemp_extend.
    rewrite emitInstruction_extend, !extend_extend.
    eexists _, ((cl ++ cr) ++ [_]). split; [|split; [|split]].
    + f_equal. rewrite <- !app_assoc. f_equal.
      rewrite !length_app. cbn. lia.
    + rewrite !length_app. cbn. lia.
    + rewrite <- app_assoc. apply exprChunk_app; [exact Cl|].
      apply exprChunk_app; [exact Cr|].
      apply exprChunk_single; [reflexivity|]. cbn.
      first [reflexivity | do 2 f_equal; lia].
    + apply (operandOf_snoc (cl ++ cr)).
  - destruct (IHe g) as (ope & ce & He & Le & Ce & _).
    cbn [CodeGenerator.genExpression]. rewrite He, genTemp_extend.
    rewrite emitInstruction_extend, !extend_extend.
    eexists _, (ce ++ [_]). split; [|split; [|split]].
    + f_equal. f_equal. rewrite !length_app. cbn. lia.
    + rewrite !length_app. cbn. lia.
    + apply exprChunk_app; [exact Ce|].
      apply exprChunk_single; [reflexivity|]. cbn.
      first [reflexivity | do 2 f_equal; lia].
    + apply (operandOf_snoc ce).
  - exists (Operand.named n Operand.Type_.VAR), []. cbn. rewrite extend_nil.
    repeat split; auto using exprChunk_nil.
  - destruct v as [val|val]; eexists _, []; cbn; rewrite extend_nil;
      repeat split; auto using exprChunk_nil.
  - assert (Hfold : forall acc g0,
               exists ops chunk,
                 fold_left
                   (fun '(acc, s) arg =>
                      let '(o, s') := CodeGenerator.genExpression arg s in
                      ((acc ++ [o])%list, s'))
                   args (acc, g0)
                 = ((acc ++ ops)%list, extend g0 chunk (Z.of_nat (length chunk)))
                 /\ length chunk = list_sum (List.map opCount args)
                 /\ exprChunk (CodeGenerator.tempCounter g0) chunk).
    { induction IHargs as [|arg Harg rest _ IHrest]; intros acc g0.
      - exists [], []. cbn. rewrite extend_nil, app_nil_r.
        auto using exprChunk_nil.
      - destruct (Harg g0) as (o & c1 & H1 & L1 & C1 & _).
        destruct (IHrest (acc ++ [o])%list (extend g0 c1 (Z.of_nat (length c1))))
          as (ops & c2 & H2 & L2 & C2).
        exists (o :: ops), (c1 ++ c2). cbn [fold_left]. rewrite H1, H2.
        rewrite extend_extend, <- app_assoc. cbn. split; [|split].
        + f_equal. f_equal. rewrite length_app. lia.
        + now rewrite length_app, L1, L2.
        + now apply exprChunk_app. }
    destruct (Hfold [] g) as (ops & c & Hc & Lc & Cc).
    cbn [CodeGenerator.genExpression]. rewrite Hc, genTemp_extend.
    rewrite emitInstruction_extend, !extend_extend.
    eexists _, (c ++ [_]). split; [|split; [|split]].
    + f_equal. f_equal. rewrite !length_app. cbn. lia.
    + rewrite !length_app. cbn. lia.
    + apply exprChunk_app; [exact Cc|].
      apply exprChunk_single; [reflexivity|]. cbn.
      first [reflexivity | do 2 f_equal; lia].
    + apply (operandOf_snoc c).
Qed.

(** X18: lowering an expression only appends instructions: exactly one per
    operator node, each a BIN_OP, UN_OP or CALL whose destination is a
    Temporary, the temporaries being numbered consecutively from the current
    counter in the order of emission.  The operand returned is the
    destination of the last instruction emitted, and a Constant or Variable
    when none is.  The label counter and the variable types are untouched. *)
Theorem X18_genExpression_emits (expr : Expression) (g : CodeGenerator.t) :
  exists chunk,
    code (snd (CodeGenerator.genExpression expr g)) = code g ++ chunk
    /\ length chunk = opCount expr
    /\ exprChunk (CodeGenerator.tempCounter g) chunk
    /\ operandOf (fst (CodeGenerator.genExpression expr g)) chunk
    /\ CodeGenerator.tempCounter (snd (CodeGenerator.genExpression expr g))
       = CodeGenerator.tempCounter g + Z.of_nat (opCount expr)
    /\ CodeGenerator.labelCounter (snd (CodeGenerator.genExpression expr g))
       = CodeGenerator.labelCounter g
    /\ CodeGenerator.variableTypes (snd (CodeGenerator.genExpression expr g))
       = CodeGenerator.variableTypes g
    /\ IRProgram.variableTypes
         (CodeGenerator.ir (snd (CodeGenerator.genExpression expr g)))
       = IRProgram.variableTypes (CodeGenerator.ir g).
Proof.
  destruct (genExpression_extend expr g) as (op & chunk & H & L & C & O).
  exists chunk. rewrite H, <- L. cbn [fst snd].
  split; [reflexivity|]. split; [reflexivity|]. split; [exact C|].
  split; [exact O|]. repeat split.
Qed.


(** ** Lowering of statements *)

Lemma labelNames_app c1 c2 : labelNames (c1 ++ c2) = labelNames c1 ++ labelNames c2.
Proof. unfold labelNames. now rewrite List.filter_app, fmap_app. Qed.

Lemma tempNames_app c1 c2 : tempNames (c1 ++ c2) = tempNames c1 ++ tempNames c2.
Proof. unfold tempNames. now rewrite List.filter_app, fmap_app. Qed.

Lemma resolvedIn_app whole p1 p2 :
  resolvedIn whole p1 -> resolvedIn whole p2 -> resolvedIn whole (p1 ++ p2).
Proof.
  intros H1 H2 jump Hin. apply in_app_or in Hin as [Hin | Hin]; auto.
Qed.

Lemma resolvedIn_incl whole part :
  resolvedIn part part -> incl part whole -> resolvedIn whole part.
Proof.
  intros H Hincl jump Hin Hj. destruct (H jump Hin Hj) as (target & Ht & Hl).
  exists target. auto.
Qed.

Lemma resolvedIn_other whole instr :
  isJump instr = false -> resolvedIn whole [instr].
Proof. intros Hn jump [<- | []] Hj. congruence. Qed.

Lemma resolvedIn_jump whole instr :
  In (Instruction.createLabel (Instruction.label instr)) whole ->
  resolvedIn whole [instr].
Proof.
  intros Hin jump [<- | []] _. eexists. split; [exact Hin|].
  apply isLabel_true. now split.
Qed.

Lemma jumpTargets_app c1 c2 :
  jumpTargets (c1 ++ c2) = jumpTargets c1 ++ jumpTargets c2.
Proof. unfold jumpTargets. now rewrite List.filter_app, fmap_app. Qed.

Lemma filter_all {A} (f : A -> bool) (l : list A) :
  (forall x, In x l -> f x = true) -> List.filter f l = l.
Proof.
  intros H. rewrite (List.filter_ext_in f (fun _ => true) l H).
  apply List.filter_true.
Qed.

Lemma filter_none {A} (f : A -> bool) (l : list A) :
  (forall x, In x l -> f x = false) -> List.filter f l = [].
Proof.
  intros H. rewrite (List.filter_ext_in f (fun _ => false) l H).
  apply List.filter_false.
Qed.

Lemma openChunk_nil t : openChunk t t [] [] [].
Proof.
  unfold openChunk. rewrite Z.sub_diag.
  repeat split; try lia; constructor.
Qed.

Lemma openChunk_app t0 t1 t2 ks1 js1 ks2 js2 c1 c2 :
  openChunk t0 t1 ks1 js1 c1 ->
  openChunk t1 t2 ks2 js2 c2 ->
  openChunk t0 t2 (ks1 ++ ks2) (js1 ++ js2) (c1 ++ c2).
Proof.
  intros (Ht1 & F1 & T1 & L1 & J1) (Ht2 & F2 & T2 & L2 & J2).
  unfold openChunk. split; [lia|]. split; [now apply Forall_app|].
  rewrite tempNames_app, labelNames_app, jumpTargets_app.
  rewrite T1, T2, L1, L2, J1, J2, <- !fmap_app. repeat split.
  f_equal. replace (t2 - t0) with ((t1 - t0) + (t2 - t1)) by lia.
  rewrite seqZ_app by lia. do 2 f_equal. lia.
Qed.

Lemma openChunk_expr t0 c :
  exprChunk t0 c -> openChunk t0 (t0 + Z.of_nat (length c)) [] [] c.
Proof.
  intros [F N]. unfold openChunk. split; [lia|].
  rewrite Forall_forall in F.
  assert (F' : forall instr, In instr c ->
                 isExprInstr instr = true
                 /\ Operand.isTemp (Instruction.result instr) = true)
    by (intros instr Hin; apply F; now apply list_elem_of_In).
  split; [|split; [|split]].
  - apply Forall_forall. intros instr Hin. destruct (F instr Hin) as [Hk Ht].
    unfold destKindOK, isExprInstr in *.
    destruct (Instruction.type instr); try discriminate; exact Ht.
  - unfold tempNames. rewrite filter_all by (intros x Hx; now apply F').
    rewrite N. do 2 f_equal. lia.
  - unfold labelNames. rewrite filter_none; [reflexivity|].
    intros x Hx. destruct (F' x Hx) as [Hk _].
    unfold isExprInstr, isLabelInstr in *.
    destruct (Instruction.type x); try discriminate; reflexivity.
  - unfold jumpTargets. rewrite filter_none; [reflexivity|].
    intros x Hx. destruct (F' x Hx) as [Hk _].
    unfold isExprInstr, isJump in *.
    destruct (Instruction.type x); try discriminate; reflexivity.
Qed.

Lemma openChunk_plain t instr :
  destKindOK instr = true ->
  isExprInstr instr = false ->
  isLabelInstr instr = false ->
  isJump instr = false ->
  openChunk t t [] [] [instr].
Proof.
  intros Hd He Hl Hj. unfold openChunk, tempNames, labelNames, jumpTargets.
  cbn. rewrite He, Hl, Hj, Z.sub_diag. cbn.
  split; [lia|]. split; [now repeat constructor|]. repeat split.
Qed.

Lemma openChunk_label t k :
  openChunk t t [k] [] [Instruction.createLabel (lname k)].
Proof.
  unfold openChunk. rewrite Z.sub_diag.
  split; [lia|]. split; [now repeat constructor|]. repeat split.
Qed.

Lemma openChunk_goto t k :
  openChunk t t [] [k] [Instruction.createGoto (lname k)].
Proof.
  unfold openChunk. rewrite Z.sub_diag.
  split; [lia|]. split; [now repeat constructor|]. repeat split.
Qed.

Lemma openChunk_ifgoto t cond k :
  openChunk t t [] [k] [Instruction.createIfGoto cond (lname k)].
Proof.
  unfold openChunk. rewrite Z.sub_diag.
  split; [lia|]. split; [now repeat constructor|]. repeat split.
Qed.

Lemma closedChunk_nil t l : closedChunk t t l l [].
Proof.
  exists [], []. split; [apply openChunk_nil|]. split; [lia|].
  split; [constructor|]. split; intros x Hx; inversion Hx.
Qed.

Lemma closedChunk_app t0 t1 t2 l0 l1 l2 c1 c2 :
  closedChunk t0 t1 l0 l1 c1 ->
  closedChunk t1 t2 l1 l2 c2 ->
  closedChunk t0 t2 l0 l2 (c1 ++ c2).
Proof.
  intros (ks1 & js1 & O1 & Hl1 & N1 & R1 & S1) (ks2 & js2 & O2 & Hl2 & N2 & R2 & S2).
  exists (ks1 ++ ks2), (js1 ++ js2).
  split; [eapply openChunk_app; eauto|]. split; [lia|]. split; [|split].
  - apply NoDup_app. repeat split; auto.
    intros x Hx1 Hx2. specialize (R1 x Hx1). specialize (R2 x Hx2). lia.
  - intros k Hk. apply elem_of_app in Hk as [Hk | Hk];
      [specialize (R1 k Hk) | specialize (R2 k Hk)]; lia.
  - intros j Hj. apply elem_of_app.
    apply elem_of_app in Hj as [Hj | Hj]; auto.
Qed.

Lemma closedChunk_open t0 t1 l chunk :
  openChunk t0 t1 [] [] chunk -> closedChunk t0 t1 l l chunk.
Proof.
  intros H. exists [], []. split; [exact H|]. split; [lia|].
  split; [constructor|]. split; intros x Hx; inversion Hx.
Qed.

Lemma closedChunk_weaken t0 t1 l0 l1 l0' l1' chunk :
  closedChunk t0 t1 l0 l1 chunk -> l0' <= l0 -> l1 <= l1' ->
  closedChunk t0 t1 l0' l1' chunk.
Proof.
  intros (ks & js & O & Hl & N & R & S) Hlo Hhi.
  exists ks, js. split; [exact O|]. split; [lia|]. split; [exact N|].
  split; [|exact S]. intros k Hk. specialize (R k Hk). lia.
Qed.

(** Side conditions on label numbers: membership facts are replaced by
    the ranges known for them, and arithmetic decides. *)
Ltac use_ranges :=
  repeat match goal with
         | H : ?x ∈ ?ks, R : forall k, k ∈ ?ks -> _ |- _ => learn_hyp (R x H)
         end.

Ltac label_numbers :=
  intros; set_unfold; unfold not; intros;
  repeat match goal with
         | H : _ \/ _ |- _ => destruct H
         | H : _ /\ _ |- _ => destruct H
         | H : False |- _ => destruct H
         end;
  subst; use_ranges; try lia; auto.

Ltac nodup_labels :=
  repeat first
    [ apply NoDup_nil_2
    | apply NoDup_singleton
    | assumption
    | apply NoDup_app; split; [|split]
    | apply NoDup_cons; split ];
  try solve [label_numbers].

Lemma closedChunk_if t0 t1 t2 k m cond A B :
  openChunk t0 t1 [] [] A ->
  closedChunk t1 t2 (k + 2) m B ->
  closedChunk t0 t2 k m
    (A ++ [Instruction.createIfGoto cond (lname k)] ++ B
       ++ [Instruction.createLabel (lname k)]).
Proof.
  intros OA (ks & js & OB & Hl & N & R & S).
  exists ([] ++ [] ++ ks ++ [k]), ([] ++ [k] ++ js ++ []).
  split; [|split; [lia|split; [|split]]].
  - eapply openChunk_app; [exact OA|].
    eapply openChunk_app; [apply openChunk_ifgoto|].
    eapply openChunk_app; [exact OB | apply openChunk_label].
  - cbn. nodup_labels.
  - cbn. label_numbers.
  - cbn. label_numbers.
Qed.

Lemma closedChunk_if_else t0 t1 t2 t3 k m n cond A B C :
  openChunk t0 t1 [] [] A ->
  closedChunk t1 t2 (k + 2) m B ->
  closedChunk t2 t3 m n C ->
  closedChunk t0 t3 k n
    (A ++ [Instruction.createIfGoto cond (lname k)] ++ B
       ++ [Instruction.createGoto (lname (k + 1))]
       ++ [Instruction.createLabel (lname k)] ++ C
       ++ [Instruction.createLabel (lname (k + 1))]).
Proof.
  intros OA (ks & js & OB & Hl & N & R & S) (ks' & js' & OC & Hl' & N' & R' & S').
  exists ([] ++ [] ++ ks ++ [] ++ [k] ++ ks' ++ [k + 1]),
    ([] ++ [k] ++ js ++ [k + 1] ++ [] ++ js' ++ []).
  split; [|split; [lia|split; [|split]]].
  - eapply openChunk_app; [exact OA|].
    eapply openChunk_app; [apply openChunk_ifgoto|].
    eapply openChunk_app; [exact OB|].
    eapply openChunk_app; [apply openChunk_goto|].
    eapply openChunk_app; [apply openChunk_label|].
    eapply openChunk_app; [exact OC | apply openChunk_label].
  - cbn. nodup_labels.
  - cbn. label_numbers.
  - cbn. label_numbers.
Qed.

Lemma closedChunk_loop t0 t1 t2 t3 k m A G gj B U :
  openChunk t0 t1 [] [] A ->
  openChunk t1 t1 [] gj G ->
  (forall j, j ∈ gj -> j = k + 1) ->
  closedChunk t1 t2 (k + 2) m B ->
  openChunk t2 t3 [] [] U ->
  closedChunk t0 t3 k m
    ([Instruction.createLabel (lname k)] ++ A ++ G ++ B ++ U
       ++ [Instruction.createGoto (lname k)]
       ++ [Instruction.createLabel (lname (k + 1))]).
Proof.
  intros OA OG HG (ks & js & OB & Hl & N & R & S) OU.
  exists ([k] ++ [] ++ [] ++ ks ++ [] ++ [] ++ [k + 1]),
    ([] ++ [] ++ gj ++ js ++ [] ++ [k] ++ []).
  split; [|split; [lia|split; [|split]]].
  - eapply (openChunk_app t0 t0); [apply openChunk_label|].
    eapply openChunk_app; [exact OA|].
    eapply openChunk_app; [exact OG|].
    eapply openChunk_app; [exact OB|].
    eapply openChunk_app; [exact OU|].
    eapply openChunk_app; [apply openChunk_goto | apply openChunk_label].
  - cbn. nodup_labels.
  - cbn. label_numbers.
  - cbn. label_numbers.
Qed.

Lemma generates_refl g : generates g g.
Proof. exists []. split; [now rewrite app_nil_r | apply closedChunk_nil]. Qed.

Lemma generates_trans a b c : generates a b -> generates b c -> generates a c.
Proof.
  intros (c1 & H1 & C1) (c2 & H2 & C2). exists (c1 ++ c2).
  split; [now rewrite H2, H1, app_assoc | eapply closedChunk_app; eauto].
Qed.

Lemma fold_generates (gen : Statement -> CodeGenerator.t -> CodeGenerator.t) stmts :
  list_all Statement (fun st => forall g, generates g (gen st g)) stmts ->
  forall g, generates g (fold_left (fun s st => gen st s) stmts g).
Proof.
  induction 1 as [|st Hst rest _ IH]; intros g; cbn; [apply generates_refl|].
  eapply generates_trans; [apply Hst | apply IH].
Qed.

(** An expression lowered from [g0], which holds the code and counters of
    [g], followed by the plain instruction that consumes its operand. *)
Lemma generates_expr_then g g0 expr (consume : Operand.t -> Instruction.t) :
  code g0 = code g ->
  CodeGenerator.tempCounter g0 = CodeGenerator.tempCounter g ->
  CodeGenerator.labelCounter g0 = CodeGenerator.labelCounter g ->
  (forall op, destKindOK (consume op) = true
              /\ isExprInstr (consume op) = false
              /\ isLabelInstr (consume op) = false
              /\ isJump (consume op) = false) ->
  generates g
    (let '(result, s) := CodeGenerator.genExpression expr g0 in
     CodeGenerator.emitInstruction (consume result) s).
Proof.
  intros Hc Ht Hl Hplain.
  destruct (genExpression_extend expr g0) as (op & ce & He & _ & Ce & _).
  rewrite He. exists (ce ++ [consume op]). split.
  - cbn. unfold code in *. cbn. rewrite Hc. now rewrite app_assoc.
  - cbn. rewrite Ht, Hl. apply closedChunk_open.
    destruct (Hplain op) as (H1 & H2 & H3 & H4).
    apply (openChunk_app (CodeGenerator.tempCounter g)
             (CodeGenerator.tempCounter g + Z.of_nat (length ce))
             (CodeGenerator.tempCounter g + Z.of_nat (length ce))
             [] [] [] [] ce [consume op]).
    + rewrite <- Ht. now apply openChunk_expr.
    + now apply openChunk_plain.
Qed.

Lemma generates_emit_plain g instr :
  destKindOK instr = true ->
  isExprInstr instr = false ->
  isLabelInstr instr = false ->
  isJump instr = false ->
  generates g (CodeGenerator.emitInstruction instr g).
Proof.
  intros H1 H2 H3 H4. exists [instr]. split; [reflexivity|].
  apply closedChunk_open. now apply openChunk_plain.
Qed.

Lemma forCond_spec cond k1 g :
  exists A G gj,
    code (forCond cond (lname k1) g) = code g ++ A ++ G
    /\ openChunk (CodeGenerator.tempCounter g)
         (CodeGenerator.tempCounter (forCond cond (lname k1) g)) [] [] A
    /\ openChunk (CodeGenerator.tempCounter (forCond cond (lname k1) g))
         (CodeGenerator.tempCounter (forCond cond (lname k1) g)) [] gj G
    /\ (forall j, j ∈ gj -> j = k1)
    /\ CodeGenerator.labelCounter (forCond cond (lname k1) g)
       = CodeGenerator.labelCounter g.
Proof.
  assert (Hnull : exists A G gj,
             code g = code g ++ A ++ G
             /\ openChunk (CodeGenerator.tempCounter g)
                  (CodeGenerator.tempCounter g) [] [] A
             /\ openChunk (CodeGenerator.tempCounter g)
                  (CodeGenerator.tempCounter g) [] gj G
             /\ (forall j, j ∈ gj -> j = k1)
             /\ CodeGenerator.labelCounter g = CodeGenerator.labelCounter g).
  { exists [], [], []. rewrite app_nil_r.
    split; [reflexivity|]. split; [apply openChunk_nil|].
    split; [apply openChunk_nil|]. split; [|reflexivity].
    intros j Hj. inversion Hj. }
  destruct (genExpression_extend cond g) as (c & ce & He & _ & Ce & _).
  assert (Hexpr : exists A G gj,
             code (let '(condition, s) := CodeGenerator.genExpression cond g in
                   CodeGenerator.emitInstruction
                     (Instruction.createIfGoto condition (lname k1)) s)
             = code g ++ A ++ G
             /\ openChunk (CodeGenerator.tempCounter g)
                  (CodeGenerator.tempCounter
                     (let '(condition, s) := CodeGenerator.genExpression cond g in
                      CodeGenerator.emitInstruction
                        (Instruction.createIfGoto condition (lname k1)) s))
                  [] [] A
             /\ openChunk
                  (CodeGenerator.tempCounter
                     (let '(condition, s) := CodeGenerator.genExpression cond g in
                      CodeGenerator.emitInstruction
                        (Instruction.createIfGoto condition (lname k1)) s))
                  (CodeGenerator.tempCounter
                     (let '(condition, s) := CodeGenerator.genExpression cond g in
                      CodeGenerator.emitInstruction
                        (Instruction.createIfGoto condition (lname k1)) s))
                  [] gj G
             /\ (forall j, j ∈ gj -> j = k1)
             /\ CodeGenerator.labelCounter
                  (let '(condition, s) := CodeGenerator.genExpression cond g in
                   CodeGenerator.emitInstruction
                     (Instruction.createIfGoto condition (lname k1)) s)
                = CodeGenerator.labelCounter g).
  { rewrite He. exists ce, [Instruction.createIfGoto c (lname k1)], [k1].
    split; [unfold code, extend; cbn; now rewrite <- app_assoc|].
    split; [now apply openChunk_expr|].
    split; [apply openChunk_ifgoto|].
    split; [|reflexivity]. intros j Hj. set_unfold. tauto. }
  destruct cond; [exact Hnull | exact Hexpr ..].
Qed.

Lemma forUpdate_spec update g :
  exists U,
    code (forUpdate update g) = code g ++ U
    /\ openChunk (CodeGenerator.tempCounter g)
         (CodeGenerator.tempCounter (forUpdate update g)) [] [] U
    /\ CodeGenerator.labelCounter (forUpdate update g)
       = CodeGenerator.labelCounter g.
Proof.
  assert (Hnull : exists U,
             code g = code g ++ U
             /\ openChunk (CodeGenerator.tempCounter g)
                  (CodeGenerator.tempCounter g) [] [] U
             /\ CodeGenerator.labelCounter g = CodeGenerator.labelCounter g).
  { exists []. rewrite app_nil_r. auto using openChunk_nil. }
  destruct (genExpression_extend update g) as (c & ce & He & _ & Ce & _).
  assert (Hexpr : exists U,
             code (snd (CodeGenerator.genExpression update g)) = code g ++ U
             /\ openChunk (CodeGenerator.tempCounter g)
                  (CodeGenerator.tempCounter
                     (snd (CodeGenerator.genExpression update g))) [] [] U
             /\ CodeGenerator.labelCounter
                  (snd (CodeGenerator.genExpression update g))
                = CodeGenerator.labelCounter g).
  { rewrite He. exists ce. split; [reflexivity|].
    split; [now apply openChunk_expr | reflexivity]. }
  destruct update; [exact Hnull | exact Hexpr ..].
Qed.

Lemma genStatement_generates stmt : forall g,
  generates g (CodeGenerator.genStatement stmt g).
Proof.
  induction stmt as
    [ | | varName dataType initializer line | varName value
    | cond thenBranch IHthen elseBranch IHelse | cond body IHbody
    | init IHinit cond update body IHbody | stmts IHstmts | value | value ];
    intros g; cbn [CodeGenerator.genStatement].
  - apply generates_refl.
  - apply generates_refl.
  - unfold CodeGenerator.genDecl.
    destruct initializer;
      [ exists []; split; [cbn; now rewrite app_nil_r | apply closedChunk_nil]
      | apply (generates_expr_then g
                 (CodeGenerator.registerType varName dataType g) _
                 (fun r => Instruction.createAssign
                             (Operand.named varName Operand.Type_.VAR) r));
        [reflexivity | reflexivity | reflexivity | intros ?; repeat split] .. ].
  - unfold CodeGenerator.genAssign.
    apply (generates_expr_then g g _
             (fun r => Instruction.createAssign
                         (Operand.named varName Operand.Type_.VAR) r));
      [reflexivity | reflexivity | reflexivity | intros ?; repeat split].
  - destruct (genExpression_extend cond g) as (c & ce & He & _ & Ce & _).
    rewrite He. unfold CodeGenerator.genLabel. cbv beta iota zeta.
    match goal with
    | |- context [fold_left _ thenBranch ?s] => set (g4 := s)
    end.
    assert (Hc4 : code g4
                  = code g ++ ce
                      ++ [Instruction.createIfGoto c
                            (lname (CodeGenerator.labelCounter g))])
      by (subst g4; unfold code, extend; cbn; now rewrite <- app_assoc).
    assert (Ht4 : CodeGenerator.tempCounter g4
                  = CodeGenerator.tempCounter g + Z.of_nat (length ce))
      by reflexivity.
    assert (Hl4 : CodeGenerator.labelCounter g4
                  = CodeGenerator.labelCounter g + 2)
      by (subst g4; cbn; lia).
    destruct (fold_generates _ _ IHthen g4) as (B & HB & CB).
    rewrite Ht4, Hl4 in CB.
    set (g5 := fold_left _ thenBranch g4) in *.
    destruct elseBranch as [|e es].
    + exists (ce ++ [Instruction.createIfGoto c
                       (lname (CodeGenerator.labelCounter g))]
                 ++ B
                 ++ [Instruction.createLabel
                       (lname (CodeGenerator.labelCounter g))]).
      split.
      * change (code (CodeGenerator.emitInstruction ?i ?s)) with (code s ++ [i]).
        rewrite HB, Hc4, <- !app_assoc. reflexivity.
      * apply (closedChunk_if _ (CodeGenerator.tempCounter g
                                 + Z.of_nat (length ce)));
          [now apply openChunk_expr | exact CB].
    + match goal with
      | |- context [fold_left _ (e :: es) ?s] => set (g7 := s)
      end.
      destruct (fold_generates _ _ IHelse g7) as (C & HC & CC).
      change (CodeGenerator.tempCounter g7) with (CodeGenerator.tempCounter g5) in CC.
      change (CodeGenerator.labelCounter g7) with (CodeGenerator.labelCounter g5) in CC.
      set (g8 := fold_left _ (e :: es) g7) in *.
      exists (ce ++ [Instruction.createIfGoto c
                       (lname (CodeGenerator.labelCounter g))]
                 ++ B
                 ++ [Instruction.createGoto
                       (lname (CodeGenerator.labelCounter g + 1))]
                 ++ [Instruction.createLabel
                       (lname (CodeGenerator.labelCounter g))]
                 ++ C
                 ++ [Instruction.createLabel
                       (lname (CodeGenerator.labelCounter g + 1))]).
      split.
      * change (code (CodeGenerator.emitInstruction ?i ?s)) with (code s ++ [i]).
        rewrite HC. subst g7.
        change (code (CodeGenerator.emitInstruction ?i ?s)) with (code s ++ [i]).
        change (code (CodeGenerator.emitInstruction ?i ?s)) with (code s ++ [i]).
        rewrite HB, Hc4, <- !app_assoc. reflexivity.
      * apply (closedChunk_if_else _
                 (CodeGenerator.tempCounter g + Z.of_nat (length ce))
                 (CodeGenerator.tempCounter g5) _ _
                 (CodeGenerator.labelCounter g5));
          [now apply openChunk_expr | exact CB | exact CC].
  - unfold CodeGenerator.genLabel. cbv beta iota zeta.
    match goal with
    | |- context [CodeGenerator.genExpression cond ?s] => set (g3 := s)
    end.
    destruct (genExpression_extend cond g3) as (c & ce & He & _ & Ce & _).
    rewrite He.
    match goal with
    | |- context [fold_left _ body ?s] => set (g5 := s)
    end.
    assert (Hc5 : code g5
                  = code g
                      ++ [Instruction.createLabel
                            (lname (CodeGenerator.labelCounter g))]
                      ++ ce
                      ++ [Instruction.createIfGoto c
                            (lname (CodeGenerator.labelCounter g + 1))])
      by (subst g5 g3; unfold code, extend; cbn; now rewrite <- !app_assoc).
    assert (Ht5 : CodeGenerator.tempCounter g5
                  = CodeGenerator.tempCounter g + Z.of_nat (length ce))
      by reflexivity.
    assert (Hl5 : CodeGenerator.labelCounter g5
                  = CodeGenerator.labelCounter g + 2)
      by (subst g5 g3; cbn; lia).
    destruct (fold_generates _ _ IHbody g5) as (B & HB & CB).
    rewrite Ht5, Hl5 in CB.
    set (g6 := fold_left _ body g5) in *.
    exists ([Instruction.createLabel (lname (CodeGenerator.labelCounter g))]
              ++ ce
              ++ [Instruction.createIfGoto c
                    (lname (CodeGenerator.labelCounter g + 1))]
              ++ B ++ []
              ++ [Instruction.createGoto (lname (CodeGenerator.labelCounter g))]
              ++ [Instruction.createLabel
                    (lname (CodeGenerator.labelCounter g + 1))]).
    split.
    + change (code (CodeGenerator.emitInstruction ?i ?s)) with (code s ++ [i]).
      change (code (CodeGenerator.emitInstruction ?i ?s)) with (code s ++ [i]).
      rewrite HB, Hc5, <- !app_assoc. reflexivity.
    + apply (closedChunk_loop _
               (CodeGenerator.tempCounter g + Z.of_nat (length ce))
               (CodeGenerator.tempCounter g6) _ _ _ _ _
               [CodeGenerator.labelCounter g + 1]).
      * now apply openChunk_expr.
      * apply openChunk_ifgoto.
      * intros j Hj. set_unfold. tauto.
      * exact CB.
      * apply openChunk_nil.
  - eapply generates_trans; [apply IHinit|].
    generalize (CodeGenerator.genStatement init g) as g0. intros g0.
    unfold CodeGenerator.genLabel. cbv beta iota zeta.
    set (g3 := CodeGenerator.emitInstruction
                 (Instruction.createLabel (lname (CodeGenerator.labelCounter g0)))
                 (CodeGenerator.mk (CodeGenerator.ir g0)
                    (CodeGenerator.tempCounter g0)
                    (CodeGenerator.labelCounter g0 + 1 + 1)
                    (CodeGenerator.variableTypes g0))).
    change (generates g0
              (CodeGenerator.emitInstruction
                 (Instruction.createLabel
                    (lname (CodeGenerator.labelCounter g0 + 1)))
                 (CodeGenerator.emitInstruction
                    (Instruction.createGoto
                       (lname (CodeGenerator.labelCounter g0)))
                    (forUpdate update
                       (fold_left (fun s st => CodeGenerator.genStatement st s)
                          body
                          (forCond cond
                             (lname (CodeGenerator.labelCounter g0 + 1)) g3)))))).
    destruct (forCond_spec cond (CodeGenerator.labelCounter g0 + 1) g3)
      as (A & G & gj & HcA & OA & OG & HG & HlA).
    set (g4 := forCond cond (lname (CodeGenerator.labelCounter g0 + 1)) g3) in *.
    destruct (fold_generates _ _ IHbody g4) as (B & HB & CB).
    set (g5 := fold_left _ body g4) in *.
    destruct (forUpdate_spec update g5) as (U & HU & OU & HlU).
    set (g6 := forUpdate update g5) in *.
    exists ([Instruction.createLabel (lname (CodeGenerator.labelCounter g0))]
              ++ A ++ G ++ B ++ U
              ++ [Instruction.createGoto (lname (CodeGenerator.labelCounter g0))]
              ++ [Instruction.createLabel
                    (lname (CodeGenerator.labelCounter g0 + 1))]).
    split.
    + change (code (CodeGenerator.emitInstruction ?i ?s)) with (code s ++ [i]).
      change (code (CodeGenerator.emitInstruction ?i ?s)) with (code s ++ [i]).
      rewrite HU, HB, HcA.
      change (code g3)
        with (code g0
                ++ [Instruction.createLabel
                      (lname (CodeGenerator.labelCounter g0))]).
      rewrite <- !app_assoc. reflexivity.
    + change (CodeGenerator.labelCounter
                (CodeGenerator.emitInstruction ?i (CodeGenerator.emitInstruction ?j g6)))
        with (CodeGenerator.labelCounter g6).
      change (CodeGenerator.tempCounter
                (CodeGenerator.emitInstruction ?i (CodeGenerator.emitInstruction ?j g6)))
        with (CodeGenerator.tempCounter g6).
      rewrite HlU.
      apply (closedChunk_loop (CodeGenerator.tempCounter g0)
               (CodeGenerator.tempCounter g4) (CodeGenerator.tempCounter g5)
               (CodeGenerator.tempCounter g6) (CodeGenerator.labelCounter g0)
               (CodeGenerator.labelCounter g5) A G gj B U);
        [exact OA | exact OG | exact HG | | exact OU].
      rewrite HlA in CB.
      replace (CodeGenerator.labelCounter g0 + 2)
        with (CodeGenerator.labelCounter g3) by (subst g3; cbn; lia).
      exact CB.
  - now apply (fold_generates _ _ IHstmts).
  - destruct value;
      [ apply generates_emit_plain; reflexivity
      | apply (generates_expr_then g g _
                 (fun r => Instruction.createReturn r));
        [reflexivity | reflexivity | reflexivity | intros ?; repeat split] .. ].
  - apply (generates_expr_then g g _ (fun r => Instruction.createPrint r));
      [reflexivity | reflexivity | reflexivity | intros ?; repeat split].
Qed.

(** ** The generated program *)

Lemma fold_collectDecl_frame stmts : forall g,
  code (fold_left CodeGenerator.collectDecl stmts g) = code g
  /\ CodeGenerator.tempCounter (fold_left CodeGenerator.collectDecl stmts g)
     = CodeGenerator.tempCounter g
  /\ CodeGenerator.labelCounter (fold_left CodeGenerator.collectDecl stmts g)
     = CodeGenerator.labelCounter g.
Proof.
  induction stmts as [|st rest IH]; intros g; cbn; [auto|].
  destruct (IH (CodeGenerator.collectDecl g st)) as (Hc & Ht & Hl).
  rewrite Hc, Ht, Hl. now destruct st.
Qed.

Lemma genStatements_generates stmts : forall g,
  generates g (fold_left (fun s st => CodeGenerator.genStatement st s) stmts g).
Proof.
  induction stmts as [|st rest IH]; intros g; cbn.
  - apply generates_refl.
  - eapply generates_trans; [apply genStatement_generates | apply IH].
Qed.

(** The instructions of the program [generate] returns form a closed chunk
    that starts at temporary 0 and label 0 and ends at the counters the
    generator is left with. *)
Lemma generate_closed g program :
  closedChunk 0
    (CodeGenerator.tempCounter (snd (CodeGenerator.generate g program)))
    0
    (CodeGenerator.labelCounter (snd (CodeGenerator.generate g program)))
    (IRProgram.instructions (fst (CodeGenerator.generate g program))).
Proof.
  unfold CodeGenerator.generate. destruct program as [prog|]; cbn [fst snd].
  - set (g0 := CodeGenerator.mk _ 0 0 _).
    destruct (fold_collectDecl_frame (statements prog) g0) as (Hc & Ht & Hl).
    set (g1 := fold_left CodeGenerator.collectDecl (statements prog) g0) in *.
    destruct (genStatements_generates (statements prog) g1)
      as (chunk & Hcode & Hclosed).
    rewrite Ht, Hl in Hclosed. unfold code in Hcode, Hc.
    rewrite Hcode, Hc. exact Hclosed.
  - apply closedChunk_nil.
Qed.

#[global] Instance lname_inj : Inj (=) (=) lname.
Proof.
  intros a b H. unfold lname, to_string in H.
  injection H as H.
  assert (E : forall x : string, EmptyString +:+ x = x) by reflexivity.
  rewrite !E in H.
  apply DecimalZ.to_int_inj.
  assert (Hnz : forall z, Z.to_int z <> Decimal.Pos Decimal.Nil
                          /\ Z.to_int z <> Decimal.Neg Decimal.Nil).
  { intros [|p|p]; cbn; split; try discriminate;
      intros [= Hp]; now apply DecimalPos.Unsigned.to_uint_nonnil in Hp. }
  destruct (Hnz a) as [Ha1 Ha2], (Hnz b) as [Hb1 Hb2].
  pose proof (NilZero.isi _ Ha1 Ha2) as Ia.
  pose proof (NilZero.isi _ Hb1 Hb2) as Ib.
  rewrite H in Ia. congruence.
Qed.

Lemma findLabel_finds program lbl target :
  In target (IRProgram.instructions program) ->
  Interpreter.isLabel lbl target = true ->
  exists j, Interpreter.findLabel program lbl = Ok j.
Proof.
  intros Hin Hl.
  destruct (Interpreter.findLabel program lbl) as [j|w|] eqn:Hf; [eauto| |].
  - apply findLabelFrom_Throw in Hf as [_ Hall].
    rewrite Forall_forall in Hall. apply list_elem_of_In in Hin.
    rewrite (Hall _ Hin) in Hl. discriminate.
  - now apply findLabelFrom_not_Trap in Hf.
Qed.

Lemma closedChunk_resolved t0 t1 l0 l1 chunk :
  closedChunk t0 t1 l0 l1 chunk -> resolvedIn chunk chunk.
Proof.
  intros (ks & js & (_ & _ & _ & HL & HJ) & _ & _ & _ & S) jump Hin Hj.
  assert (Ht : Instruction.label jump ∈ jumpTargets chunk).
  { unfold jumpTargets. apply list_elem_of_fmap. exists jump. split; [reflexivity|].
    apply list_elem_of_In, filter_In. now split. }
  rewrite HJ in Ht. apply list_elem_of_fmap in Ht as (j & Hname & Hjs).
  apply S in Hjs.
  assert (Hl : lname j ∈ labelNames chunk)
    by (rewrite HL; apply list_elem_of_fmap; eauto).
  unfold labelNames in Hl.
  apply list_elem_of_fmap in Hl as (target & Htn & Hti).
  apply list_elem_of_In, filter_In in Hti as [Hti Htl].
  exists target. split; [exact Hti|].
  apply isLabel_true. unfold isLabelInstr in Htl.
  split; [|congruence].
  destruct (Instruction.type target); try discriminate; reflexivity.
Qed.

(** X19: in the program [generate] returns, every Goto and IfGoto names a
    Label of the program, so that [findLabel] resolves it: generated code
    never fails with "Label not found". *)
Theorem X19_generated_jumps_resolve (g : CodeGenerator.t) (program : ProgramPtr)
    (jump : Instruction.t) :
  In jump (IRProgram.instructions (fst (CodeGenerator.generate g program))) ->
  isJump jump = true ->
  exists j,
    Interpreter.findLabel (fst (CodeGenerator.generate g program))
      (Instruction.label jump) = Ok j.
Proof.
  intros Hin Hj.
  destruct (closedChunk_resolved _ _ _ _ _ (generate_closed g program)
              jump Hin Hj) as (target & Ht & Hl).
  eapply findLabel_finds; eauto.
Qed.

#[global] Instance tname_inj : Inj (=) (=) tname.
Proof.
  intros a b H. apply lname_inj. unfold lname, tname in *.
  injection H as H. now f_equal.
Qed.

Lemma nodup_filter_index {A B} (f : A -> B) (p : A -> bool) (l : list A) :
  NoDup (f <$> List.filter p l) ->
  forall (i j : nat) a b,
    l !! i = Some a -> l !! j = Some b ->
    p a = true -> p b = true -> f a = f b -> i = j.
Proof.
  induction l as [|x l IH]; intros Hnd i j a b Hi Hj Ha Hb Hf; [easy|].
  cbn in Hnd. destruct (p x) eqn:Hx.
  - cbn in Hnd. apply NoDup_cons in Hnd as [Hnotin Hnd].
    assert (Hmem : forall (k : nat) c, l !! k = Some c -> p c = true ->
                     f c = f x -> False).
    { intros k c Hk Hc Hfc. apply Hnotin. rewrite <- Hfc.
      apply list_elem_of_fmap. exists c. split; [reflexivity|].
      apply list_elem_of_In, filter_In. split; [|exact Hc].
      apply list_elem_of_In. eapply list_elem_of_lookup_2. exact Hk. }
    destruct i as [|i], j as [|j]; cbn in Hi, Hj.
    + reflexivity.
    + injection Hi as <-. exfalso. eapply (Hmem j b); eauto.
    + injection Hj as <-. exfalso. eapply (Hmem i a); eauto.
    + f_equal. eapply IH; eauto.
  - destruct i as [|i], j as [|j]; cbn in Hi, Hj.
    + reflexivity.
    + injection Hi as <-. congruence.
    + injection Hj as <-. congruence.
    + f_equal. eapply IH; eauto.
Qed.

(** X20: in the program [generate] returns, no two Label instructions
    carry the same name. *)
Theorem X20_generated_labels_unique (g : CodeGenerator.t) (program : ProgramPtr)
    (i1 i2 : nat) (label1 label2 : Instruction.t) :
  IRProgram.instructions (fst (CodeGenerator.generate g program)) !! i1
    = Some label1 ->
  IRProgram.instructions (fst (CodeGenerator.generate g program)) !! i2
    = Some label2 ->
  Instruction.type label1 = InstrType.LABEL ->
  Instruction.type label2 = InstrType.LABEL ->
  Instruction.label label1 = Instruction.label label2 ->
  i1 = i2.
Proof.
  intros H1 H2 Ht1 Ht2 Hname.
  destruct (generate_closed g program)
    as (ks & js & (_ & _ & _ & HL & _) & _ & Hnd & _ & _).
  apply (nodup_filter_index Instruction.label isLabelInstr
           (IRProgram.instructions (fst (CodeGenerator.generate g program))))
    with (a := label1) (b := label2); auto.
  - fold (labelNames
            (IRProgram.instructions (fst (CodeGenerator.generate g program)))).
    rewrite HL. apply (NoDup_fmap_2 lname). exact Hnd.
  - unfold isLabelInstr. now rewrite Ht1.
  - unfold isLabelInstr. now rewrite Ht2.
Qed.

(** X21: in the program [generate] returns, the destinations of the
    BIN_OP, UN_OP and CALL instructions are, in the order of the code, the
    temporaries t0, t1, ... up to the temporary counter: every temporary is
    written by exactly one instruction. *)
Theorem X21_generated_temporaries (g : CodeGenerator.t) (program : ProgramPtr) :
  tempNames (IRProgram.instructions (fst (CodeGenerator.generate g program)))
  = tname <$> seqZ 0 (CodeGenerator.tempCounter
                        (snd (CodeGenerator.generate g program)))
  /\ NoDup (tempNames
              (IRProgram.instructions (fst (CodeGenerator.generate g program)))).
Proof.
  destruct (generate_closed g program) as (ks & js & (_ & _ & HT & _) & _).
  rewrite Z.sub_0_r in HT. split; [exact HT|].
  rewrite HT. apply (NoDup_fmap_2 tname). apply NoDup_seqZ.
Qed.

(** X22: in the program [generate] returns, every Assign writes a Variable
    and every BIN_OP, UN_OP and CALL writes a Temporary. *)
Theorem X22_generated_destinations (g : CodeGenerator.t) (program : ProgramPtr)
    (instr : Instruction.t) :
  In instr (IRProgram.instructions (fst (CodeGenerator.generate g program))) ->
  (Instruction.type instr = InstrType.ASSIGN ->
   Operand.isVar (Instruction.result instr) = true)
  /\ (isExprInstr instr = true ->
      Operand.isTemp (Instruction.result instr) = true).
Proof.
  intros Hin.
  destruct (generate_closed g program) as (ks & js & (_ & HF & _) & _).
  rewrite Forall_forall in HF. apply list_elem_of_In in Hin.
  specialize (HF _ Hin). unfold destKindOK, isExprInstr in *.
  split.
  - intros Hty. now rewrite Hty in HF.
  - destruct (Instruction.type instr); try discriminate; auto.
Qed.

Lemma X19_witness :
  exists j,
    Interpreter.findLabel
      (fst (CodeGenerator.generate CodeGenerator.fresh (Some scenarioB)))
      (Instruction.label (Instruction.createGoto (lname 0))) = Ok j.
Proof.
  apply (X19_generated_jumps_resolve CodeGenerator.fresh (Some scenarioB)
           (Instruction.createGoto (lname 0))).
  - cbn. tauto.
  - reflexivity.
Defined.

Lemma X20_witness : 1%nat = 1%nat.
Proof.
  apply (X20_generated_labels_unique CodeGenerator.fresh (Some scenarioB)
           1%nat 1%nat (Instruction.createLabel (lname 0))
           (Instruction.createLabel (lname 0))); reflexivity.
Defined.

Lemma X22_witness :
  (Instruction.type add_a_b = InstrType.ASSIGN ->
   Operand.isVar (Instruction.result add_a_b) = true)
  /\ (isExprInstr add_a_b = true ->
      Operand.isTemp (Instruction.result add_a_b) = true).
Proof.
  apply (X22_generated_destinations CodeGenerator.fresh (Some scenarioA)).
  cbn. tauto.
Defined.

(** ** Generated code on the interpreter *)

(** X23: on the interpreter, a BIN_OP or UN_OP of a generated program
    never changes the store or the output: its destination is a Temporary,
    which [setValue] does not write, and reading that destination right
    afterwards gives 0. *)
Theorem X23_generated_operations_store_nothing (g : CodeGenerator.t)
    (program : ProgramPtr) (instr : Instruction.t)
    (self s' : Interpreter.t) :
  In instr (IRProgram.instructions (fst (CodeGenerator.generate g program))) ->
  Instruction.type instr = InstrType.BIN_OP
  \/ Instruction.type instr = InstrType.UN_OP ->
  Interpreter.dispatch (fst (CodeGenerator.generate g program)) self instr
  = Ok (Interpreter.Next s') ->
  Interpreter.variables s' = Interpreter.variables self
  /\ Interpreter.output s' = Interpreter.output self
  /\ Interpreter.getValue s' (Instruction.result instr) = Ok 0.
Proof.
  intros Hin Hty Hd.
  destruct (generate_closed g program) as (ks & js & (_ & HF & _) & _).
  rewrite Forall_forall in HF. apply list_elem_of_In in Hin.
  specialize (HF _ Hin). unfold destKindOK in HF.
  assert (Htemp : Operand.isTemp (Instruction.result instr) = true)
    by (destruct Hty as [Hty | Hty]; now rewrite Hty in HF).
  assert (Hnv : Operand.isVar (Instruction.result instr) = false).
  { unfold Operand.isTemp, Operand.isVar in *.
    now destruct (Operand.type (Instruction.result instr)). }
  rewrite (getValue_temp _ _ Htemp).
  unfold Interpreter.dispatch, Interpreter.executeBinOp, Interpreter.executeUnOp,
    Interpreter.advance, mbind, outcome_bind in Hd.
  destruct Hty as [Hty | Hty]; rewrite Hty in Hd;
    repeat case_match; simplify_eq;
    rewrite setValue_not_var by exact Hnv; auto.
Qed.

Lemma X23_witness :
  Interpreter.variables (Interpreter.mk {["a" := 2; "b" := 3]} [] 3)
  = Interpreter.variables (Interpreter.mk {["a" := 2; "b" := 3]} [] 2)
  /\ Interpreter.output (Interpreter.mk {["a" := 2; "b" := 3]} [] 3)
     = Interpreter.output (Interpreter.mk {["a" := 2; "b" := 3]} [] 2)
  /\ Interpreter.getValue (Interpreter.mk {["a" := 2; "b" := 3]} [] 3)
       (Instruction.result add_a_b) = Ok 0.
Proof.
  apply (X23_generated_operations_store_nothing CodeGenerator.fresh
           (Some scenarioA) add_a_b).
  - cbn. tauto.
  - left. reflexivity.
  - vm_compute. reflexivity.
Defined.

(** ** The variable-type table *)

Lemma registerAll_app d1 d2 m :
  registerAll (d1 ++ d2) m = registerAll d2 (registerAll d1 m).
Proof. unfold registerAll. apply fold_left_app. Qed.

Lemma registerAll_other decls : forall m x,
  x ∉ decls.*1 -> registerAll decls m !! x = m !! x.
Proof.
  induction decls as [|[y ty] decls IH]; intros m x Hx; [reflexivity|].
  cbn in *. apply not_elem_of_cons in Hx as [Hxy Hx].
  change (registerAll decls (<[y := typeCodeOf ty]> m) !! x = m !! x).
  rewrite IH by exact Hx. now rewrite lookup_insert_ne.
Qed.

Lemma registerAll_declared decls : forall m x,
  x ∈ decls.*1 ->
  registerAll decls m !! x = Some 0 \/ registerAll decls m !! x = Some 1.
Proof.
  induction decls as [|[y ty] decls IH]; intros m x Hx; [now apply elem_of_nil in Hx|].
  change (registerAll decls (<[y := typeCodeOf ty]> m) !! x = Some 0
          \/ registerAll decls (<[y := typeCodeOf ty]> m) !! x = Some 1).
  destruct (decide (x ∈ decls.*1)) as [Hin | Hnot]; [now apply IH|].
  cbn in Hx. apply elem_of_cons in Hx as [-> | Hx]; [|contradiction].
  rewrite registerAll_other by exact Hnot.
  rewrite lookup_insert_eq. unfold typeCodeOf.
  destruct (String.eqb ty "int"); auto.
Qed.

Lemma vtOf_genExpression expr g :
  vtOf (snd (CodeGenerator.genExpression expr g)) = vtOf g.
Proof.
  destruct (genExpression_extend expr g) as (op & chunk & He & _).
  now rewrite He.
Qed.

Lemma vtOf_expr_then expr g (k : Operand.t -> Instruction.t) :
  vtOf (let '(result, s) := CodeGenerator.genExpression expr g in
        CodeGenerator.emitInstruction (k result) s)
  = vtOf g.
Proof.
  rewrite <- (vtOf_genExpression expr g).
  now destruct (CodeGenerator.genExpression expr g).
Qed.

Lemma fold_registers (gen : Statement -> CodeGenerator.t -> CodeGenerator.t) stmts :
  list_all Statement
    (fun st => forall g, vtOf (gen st g) = registerAll (declsIn st) (vtOf g))
    stmts ->
  forall g, vtOf (fold_left (fun s st => gen st s) stmts g)
            = registerAll (flat_map declsIn stmts) (vtOf g).
Proof.
  induction 1 as [|st Hst rest _ IH]; intros g; cbn; [reflexivity|].
  now rewrite IH, Hst, registerAll_app.
Qed.

Lemma genStatement_registers stmt : forall g,
  vtOf (CodeGenerator.genStatement stmt g) = registerAll (declsIn stmt) (vtOf g).
Proof.
  induction stmt as
    [ | | varName dataType initializer line | varName value
    | cond thenBranch IHthen elseBranch IHelse | cond body IHbody
    | init IHinit cond update body IHbody | stmts IHstmts | value | value ];
    intros g; cbn [CodeGenerator.genStatement declsIn].
  - reflexivity.
  - reflexivity.
  - unfold CodeGenerator.genDecl.
    destruct initializer; try reflexivity;
      apply (vtOf_expr_then _ (CodeGenerator.registerType varName dataType g)
               (fun r => Instruction.createAssign
                           (Operand.named varName Operand.Type_.VAR) r)).
  - apply (vtOf_expr_then _ g
             (fun r => Instruction.createAssign
                         (Operand.named varName Operand.Type_.VAR) r)).
  - destruct (genExpression_extend cond g) as (c & ce & He & _).
    rewrite He. unfold CodeGenerator.genLabel. cbv beta iota zeta.
    rewrite registerAll_app.
    destruct elseBranch as [|e es].
    + change (vtOf (CodeGenerator.emitInstruction ?i ?s)) with (vtOf s).
      rewrite (fold_registers _ _ IHthen). reflexivity.
    + change (vtOf (CodeGenerator.emitInstruction ?i ?s)) with (vtOf s).
      rewrite (fold_registers _ _ IHelse).
      change (vtOf (CodeGenerator.emitInstruction ?i
                      (CodeGenerator.emitInstruction ?j ?s))) with (vtOf s).
      rewrite (fold_registers _ _ IHthen). reflexivity.
  - unfold CodeGenerator.genLabel. cbv beta iota zeta.
    match goal with
    | |- context [CodeGenerator.genExpression cond ?s] => set (g3 := s)
    end.
    destruct (genExpression_extend cond g3) as (c & ce & He & _).
    rewrite He.
    change (vtOf (CodeGenerator.emitInstruction ?i
                    (CodeGenerator.emitInstruction ?j ?s))) with (vtOf s).
    rewrite (fold_registers _ _ IHbody). reflexivity.
  - rewrite registerAll_app, <- IHinit.
    generalize (CodeGenerator.genStatement init g) as g0. intros g0.
    unfold CodeGenerator.genLabel. cbv beta iota zeta.
    set (g3 := CodeGenerator.emitInstruction
                 (Instruction.createLabel (lname (CodeGenerator.labelCounter g0)))
                 (CodeGenerator.mk (CodeGenerator.ir g0)
                    (CodeGenerator.tempCounter g0)
                    (CodeGenerator.labelCounter g0 + 1 + 1)
                    (CodeGenerator.variableTypes g0))).
    change (vtOf (forUpdate update
                    (fold_left (fun s st => CodeGenerator.genStatement st s)
                       body
                       (forCond cond
                          (lname (CodeGenerator.labelCounter g0 + 1)) g3)))
            = registerAll (flat_map declsIn body) (vtOf g0)).
    assert (HU : forall s, vtOf (forUpdate update s) = vtOf s)
      by (intros s; destruct update; try reflexivity;
          apply vtOf_genExpression).
    assert (HC : forall l s, vtOf (forCond cond l s) = vtOf s)
      by (intros l s; destruct cond; try reflexivity;
          apply (vtOf_expr_then _ s
                   (fun r => Instruction.createIfGoto r l))).
    rewrite HU, (fold_registers _ _ IHbody), HC. reflexivity.
  - apply (fold_registers _ _ IHstmts).
  - destruct value; try reflexivity;
      apply (vtOf_expr_then _ g (fun r => Instruction.createReturn r)).
  - apply (vtOf_expr_then _ g (fun r => Instruction.createPrint r)).
Qed.

Lemma fold_collectDecl_registers stmts : forall g,
  vtOf (fold_left CodeGenerator.collectDecl stmts g)
  = registerAll (topDecls stmts) (vtOf g).
Proof.
  induction stmts as [|st rest IH]; intros g; [reflexivity|].
  cbn [fold_left]. rewrite IH. unfold topDecls. cbn [flat_map].
  rewrite registerAll_app. now destruct st.
Qed.

Lemma generate_registers g prog :
  IRProgram.variableTypes (fst (CodeGenerator.generate g (Some prog)))
  = registerAll (registered prog) (vtOf g).
Proof.
  unfold CodeGenerator.generate, registered. cbn [fst].
  rewrite registerAll_app.
  change (IRProgram.variableTypes (CodeGenerator.ir ?s)) with (vtOf s).
  rewrite (fold_registers CodeGenerator.genStatement)
    by (apply list_all_forall; intros; apply genStatement_registers).
  now rewrite fold_collectDecl_registers.
Qed.

(** X24: [generate] clears the instructions but not the variable-type
    table: the table of the returned program is the table the generator
    held before, with the type code of each top-level declaration, and then
    of each declaration at any depth, written in source order.  A null
    program leaves the table as it was. *)
Theorem X24_generate_type_table (g : CodeGenerator.t) (prog : Program) :
  IRProgram.variableTypes (fst (CodeGenerator.generate g (Some prog)))
  = registerAll (registered prog) (vtOf g)
  /\ IRProgram.variableTypes (fst (CodeGenerator.generate g None)) = vtOf g.
Proof. split; [apply generate_registers | reflexivity]. Qed.

(** X25: in the program [generate] returns, every declared name, at any
    depth, has type code 0 or 1, and every other name has the entry the
    generator held before the call, if any: entries of an earlier program
    are never dropped. *)
Theorem X25_generate_type_entries (g : CodeGenerator.t) (prog : Program)
    (x : string) :
  (x ∈ (registered prog).*1 ->
   IRProgram.variableTypes (fst (CodeGenerator.generate g (Some prog))) !! x
   = Some 0
   \/ IRProgram.variableTypes (fst (CodeGenerator.generate g (Some prog))) !! x
      = Some 1)
  /\ (x ∉ (registered prog).*1 ->
      IRProgram.variableTypes (fst (CodeGenerator.generate g (Some prog))) !! x
      = vtOf g !! x).
Proof.
  rewrite generate_registers. split.
  - apply registerAll_declared.
  - apply registerAll_other.
Qed.

Lemma X25_witness :
  IRProgram.variableTypes
    (fst (CodeGenerator.generate CodeGenerator.fresh (Some scenarioB))) !! "x"
  = Some 0
  \/ IRProgram.variableTypes
       (fst (CodeGenerator.generate CodeGenerator.fresh (Some scenarioB))) !! "x"
     = Some 1.
Proof.
  apply (proj1 (X25_generate_type_entries CodeGenerator.fresh scenarioB "x")).
  vm_compute. set_solver.
Defined.

(** X26: a variable declared anywhere in a program can be read at every
    point of every run of the generated code: the interpreter never throws
    "Undefined variable" for it, whether or not its declaration has been
    executed. *)
Theorem X26_declared_variable_never_undefined (g : CodeGenerator.t)
    (prog : Program) (x : string) (prior : Interpreter.t) (n : nat)
    (self : Interpreter.t) :
  x ∈ (registered prog).*1 ->
  Interpreter.after n (fst (CodeGenerator.generate g (Some prog)))
    (Interpreter.reset prior (fst (CodeGenerator.generate g (Some prog))))
  = Some self ->
  exists v,
    Interpreter.getValue self (Operand.named x Operand.Type_.VAR) = Ok v.
Proof.
  intros Hx H. apply after_invariants in H as (_ & Hdom & _).
  rewrite getValue_var by reflexivity.
  assert (Hin : x ∈ dom (Interpreter.variables self)).
  { apply Hdom. cbn [Interpreter.reset Interpreter.variables].
    rewrite dom_fmap. apply elem_of_dom. rewrite generate_registers.
    destruct (registerAll_declared (registered prog) (vtOf g) x Hx) as [E | E];
      rewrite E; eauto. }
  apply elem_of_dom in Hin as [v Hv]. cbn. rewrite Hv. eauto.
Qed.

Lemma X26_witness :
  exists v,
    Interpreter.getValue (Interpreter.mk {["x" := 0]} [] 0)
      (Operand.named "x" Operand.Type_.VAR) = Ok v.
Proof.
  apply (X26_declared_variable_never_undefined CodeGenerator.fresh scenarioB
           "x" Interpreter.fresh 0%nat).
  - vm_compute. set_solver.
  - vm_compute. reflexivity.
Defined.

(** ** Independence of the generator's earlier state *)

Lemma genExpression_same expr : forall g1 g2,
  CodeGenerator.tempCounter g1 = CodeGenerator.tempCounter g2 ->
  exists op chunk,
    CodeGenerator.genExpression expr g1
    = (op, extend g1 chunk (Z.of_nat (length chunk)))
    /\ CodeGenerator.genExpression expr g2
       = (op, extend g2 chunk (Z.of_nat (length chunk))).
Proof.
  induction expr as [|l IHl op r IHr|op e IHe|n|v|fn args IHargs];
    intros g1 g2 Htc.
  - exists (Operand.of_int 0), []. cbn. now rewrite !extend_nil.
  - destruct (IHl g1 g2 Htc) as (opl & cl & Hl1 & Hl2).
    destruct (IHr (extend g1 cl (Z.of_nat (length cl)))
                (extend g2 cl (Z.of_nat (length cl))))
      as (opr & cr & Hr1 & Hr2); [cbn; now rewrite Htc|].
    cbn [CodeGenerator.genExpression].
    rewrite Hl1, Hr1, Hl2, Hr2, !genTemp_extend.
    rewrite !emitInstruction_extend, !extend_extend.
    cbn [CodeGenerator.tempCounter extend]. rewrite Htc.
    eexists _, ((cl ++ cr) ++ [_]).
    split; (f_equal; rewrite <- !app_assoc; f_equal;
            rewrite !length_app; cbn; lia).
  - destruct (IHe g1 g2 Htc) as (ope & ce & He1 & He2).
    cbn [CodeGenerator.genExpression].
    rewrite He1, He2, !genTemp_extend.
    rewrite !emitInstruction_extend, !extend_extend.
    cbn [CodeGenerator.tempCounter extend]. rewrite Htc.
    eexists _, (ce ++ [_]).
    split; (f_equal; f_equal; rewrite !length_app; cbn; lia).
  - exists (Operand.named n Operand.Type_.VAR), []. cbn.
    now rewrite !extend_nil.
  - destruct v as [val|val]; eexists _, []; cbn; now rewrite !extend_nil.
  - assert (Hfold : forall acc h1 h2,
               CodeGenerator.tempCounter h1 = CodeGenerator.tempCounter h2 ->
               exists ops chunk,
                 fold_left
                   (fun '(acc, s) arg =>
                      let '(o, s') := CodeGenerator.genExpression arg s in
                      ((acc ++ [o])%list, s'))
                   args (acc, h1)
                 = (ops, extend h1 chunk (Z.of_nat (length chunk)))
                 /\ fold_left
                      (fun '(acc, s) arg =>
                         let '(o, s') := CodeGenerator.genExpression arg s in
                         ((acc ++ [o])%list, s'))
                      args (acc, h2)
                    = (ops, extend h2 chunk (Z.of_nat (length chunk)))).
    { induction IHargs as [|arg Harg rest _ IHrest]; intros acc h1 h2 Hh.
      - exists acc, []. cbn. now rewrite !extend_nil.
      - destruct (Harg h1 h2 Hh) as (o & c1 & H1 & H2).
        destruct (IHrest (acc ++ [o])%list
                    (extend h1 c1 (Z.of_nat (length c1)))
                    (extend h2 c1 (Z.of_nat (length c1))))
          as (ops & c2 & G1 & G2); [cbn; now rewrite Hh|].
        exists ops, (c1 ++ c2). cbn [fold_left]. rewrite H1, H2, G1, G2.
        rewrite !extend_extend.
        split; (f_equal; f_equal; rewrite length_app; lia). }
    destruct (Hfold [] g1 g2 Htc) as (ops & c & Hc1 & Hc2).
    cbn [CodeGenerator.genExpression].
    rewrite Hc1, Hc2, !genTemp_extend.
    rewrite !emitInstruction_extend, !extend_extend.
    cbn [CodeGenerator.tempCounter extend]. rewrite Htc.
    eexists _, (c ++ [_]).
    split; (f_equal; f_equal; rewrite !length_app; cbn; lia).
Qed.

Lemma inStep_start g1 g2 :
  CodeGenerator.tempCounter g1 = CodeGenerator.tempCounter g2 ->
  CodeGenerator.labelCounter g1 = CodeGenerator.labelCounter g2 ->
  inStep g1 g2 g1 g2.
Proof. intros Ht Hl. exists []. now rewrite !app_nil_r. Qed.

Lemma inStep_trans g1 g2 h1 h2 k1 k2 :
  inStep g1 g2 h1 h2 -> inStep h1 h2 k1 k2 -> inStep g1 g2 k1 k2.
Proof.
  intros (c1 & A1 & A2 & _) (c2 & B1 & B2 & Ht & Hl).
  exists (c1 ++ c2). rewrite B1, B2, A1, A2, <- !app_assoc. auto.
Qed.

Lemma inStep_emit g1 g2 h1 h2 i1 i2 :
  i1 = i2 ->
  inStep g1 g2 h1 h2 ->
  inStep g1 g2 (CodeGenerator.emitInstruction i1 h1)
    (CodeGenerator.emitInstruction i2 h2).
Proof.
  intros <- (c & A1 & A2 & Ht & Hl). exists (c ++ [i1]).
  change (code (CodeGenerator.emitInstruction ?i ?s)) with (code s ++ [i]).
  rewrite A1, A2, <- !app_assoc. auto.
Qed.

Lemma inStep_labels g1 g2 h1 h2 l1 l2 :
  l1 = l2 ->
  inStep g1 g2 h1 h2 ->
  inStep g1 g2
    (CodeGenerator.mk (CodeGenerator.ir h1) (CodeGenerator.tempCounter h1) l1
       (CodeGenerator.variableTypes h1))
    (CodeGenerator.mk (CodeGenerator.ir h2) (CodeGenerator.tempCounter h2) l2
       (CodeGenerator.variableTypes h2)).
Proof. intros <- (c & A1 & A2 & Ht & Hl). exists c. auto. Qed.

Lemma inStep_expr g1 g2 h1 h2 expr :
  inStep g1 g2 h1 h2 ->
  exists op,
    inStep g1 g2 (snd (CodeGenerator.genExpression expr h1))
      (snd (CodeGenerator.genExpression expr h2))
    /\ fst (CodeGenerator.genExpression expr h1) = op
    /\ fst (CodeGenerator.genExpression expr h2) = op.
Proof.
  intros (c & A1 & A2 & Ht & Hl).
  destruct (genExpression_same expr h1 h2 Ht) as (op & ce & E1 & E2).
  exists op. rewrite E1, E2. cbn [fst snd]. repeat split.
  exists (c ++ ce). unfold extend, code in *. cbn.
  rewrite A1, A2, <- !app_assoc, Ht, Hl. auto.
Qed.

Lemma inStep_expr_then g1 g2 h1 h2 expr (k1 k2 : Operand.t -> Instruction.t) :
  (forall r, k1 r = k2 r) ->
  inStep g1 g2 h1 h2 ->
  inStep g1 g2
    (let '(result, s) := CodeGenerator.genExpression expr h1 in
     CodeGenerator.emitInstruction (k1 result) s)
    (let '(result, s) := CodeGenerator.genExpression expr h2 in
     CodeGenerator.emitInstruction (k2 result) s).
Proof.
  intros Hk H. destruct (inStep_expr _ _ _ _ expr H) as (op & Hs & F1 & F2).
  destruct (CodeGenerator.genExpression expr h1) as [r1 s1].
  destruct (CodeGenerator.genExpression expr h2) as [r2 s2].
  cbn [fst snd] in *. subst r1 r2. now apply inStep_emit.
Qed.

Lemma inStep_counters g1 g2 h1 h2 :
  inStep g1 g2 h1 h2 ->
  CodeGenerator.tempCounter h1 = CodeGenerator.tempCounter h2
  /\ CodeGenerator.labelCounter h1 = CodeGenerator.labelCounter h2.
Proof. intros (c & _ & _ & Ht & Hl). auto. Qed.

Lemma inStep_fold (gen : Statement -> CodeGenerator.t -> CodeGenerator.t) stmts :
  list_all Statement
    (fun st => forall g1 g2,
                 CodeGenerator.tempCounter g1 = CodeGenerator.tempCounter g2 ->
                 CodeGenerator.labelCounter g1 = CodeGenerator.labelCounter g2 ->
                 inStep g1 g2 (gen st g1) (gen st g2))
    stmts ->
  forall g1 g2 h1 h2,
    inStep g1 g2 h1 h2 ->
    inStep g1 g2 (fold_left (fun s st => gen st s) stmts h1)
      (fold_left (fun s st => gen st s) stmts h2).
Proof.
  induction 1 as [|st Hst rest _ IH]; intros g1 g2 h1 h2 H; cbn; [exact H|].
  apply IH. eapply inStep_trans; [exact H|].
  destruct (inStep_counters _ _ _ _ H) as [Ht Hl]. now apply Hst.
Qed.

Lemma inStep_register g1 g2 h1 h2 x ty :
  inStep g1 g2 h1 h2 ->
  inStep g1 g2 (CodeGenerator.registerType x ty h1)
    (CodeGenerator.registerType x ty h2).
Proof. intros (c & A1 & A2 & Ht & Hl). exists c. auto. Qed.

Lemma inStep_forCond g1 g2 h1 h2 cond l1 l2 :
  l1 = l2 ->
  inStep g1 g2 h1 h2 ->
  inStep g1 g2 (forCond cond l1 h1) (forCond cond l2 h2).
Proof.
  intros <- H. destruct cond; try exact H;
    apply (inStep_expr_then _ _ _ _ _
             (fun r => Instruction.createIfGoto r l1)
             (fun r => Instruction.createIfGoto r l1)); auto.
Qed.

Lemma inStep_forUpdate g1 g2 h1 h2 update :
  inStep g1 g2 h1 h2 ->
  inStep g1 g2 (forUpdate update h1) (forUpdate update h2).
Proof.
  intros H. destruct (inStep_expr _ _ _ _ update H) as (res & Hs & _).
  destruct update; try exact H; exact Hs.
Qed.

Ltac in_step :=
  repeat first
    [ apply inStep_emit; [cbn; congruence|]
    | apply inStep_forUpdate
    | apply inStep_forCond; [cbn; congruence|]
    | apply inStep_labels; [cbn; congruence|]
    | eapply inStep_fold; [eassumption|] ].

Lemma genStatement_inStep stmt : forall g1 g2,
  CodeGenerator.tempCounter g1 = CodeGenerator.tempCounter g2 ->
  CodeGenerator.labelCounter g1 = CodeGenerator.labelCounter g2 ->
  inStep g1 g2 (CodeGenerator.genStatement stmt g1)
    (CodeGenerator.genStatement stmt g2).
Proof.
  induction stmt as
    [ | | varName dataType initializer line | varName value
    | cond thenBranch IHthen elseBranch IHelse | cond body IHbody
    | init IHinit cond update body IHbody | stmts IHstmts | value | value ];
    intros g1 g2 Ht Hl; cbn [CodeGenerator.genStatement];
    pose proof (inStep_start g1 g2 Ht Hl) as H0.
  - exact H0.
  - exact H0.
  - unfold CodeGenerator.genDecl.
    destruct initializer;
      [ now apply inStep_register
      | apply (inStep_expr_then _ _ _ _ _
                 (fun r => Instruction.createAssign
                             (Operand.named varName Operand.Type_.VAR) r)
                 (fun r => Instruction.createAssign
                             (Operand.named varName Operand.Type_.VAR) r));
        [reflexivity | now apply inStep_register] .. ].
  - apply (inStep_expr_then _ _ _ _ _
             (fun r => Instruction.createAssign
                         (Operand.named varName Operand.Type_.VAR) r)
             (fun r => Instruction.createAssign
                         (Operand.named varName Operand.Type_.VAR) r));
      [reflexivity | exact H0].
  - destruct (inStep_expr _ _ _ _ cond H0) as (c & Hs & F1 & F2).
    destruct (CodeGenerator.genExpression cond g1) as [c1 s1].
    destruct (CodeGenerator.genExpression cond g2) as [c2 s2].
    cbn [fst snd] in *. subst c1 c2.
    destruct (inStep_counters _ _ _ _ Hs) as [Hts Hls].
    unfold CodeGenerator.genLabel. cbv beta iota zeta.
    cbn [CodeGenerator.labelCounter CodeGenerator.tempCounter
         CodeGenerator.ir CodeGenerator.variableTypes].
    destruct elseBranch as [|e es]; in_step; exact Hs.
  - unfold CodeGenerator.genLabel. cbv beta iota zeta.
    cbn [CodeGenerator.labelCounter CodeGenerator.tempCounter
         CodeGenerator.ir CodeGenerator.variableTypes].
    match goal with
    | |- context [CodeGenerator.genExpression cond ?s] => set (k1 := s)
    end.
    match goal with
    | |- context [CodeGenerator.genExpression cond (CodeGenerator.emitInstruction ?i ?s)] =>
        set (k2 := CodeGenerator.emitInstruction i s)
    end.
    assert (Hk : inStep g1 g2 k1 k2) by (subst k1 k2; in_step; exact H0).
    destruct (inStep_expr _ _ _ _ cond Hk) as (c & Hs & F1 & F2).
    destruct (CodeGenerator.genExpression cond k1) as [c1 s1].
    destruct (CodeGenerator.genExpression cond k2) as [c2 s2].
    cbn [fst snd] in *. subst c1 c2.
    in_step. exact Hs.
  - specialize (IHinit g1 g2 Ht Hl).
    destruct (inStep_counters _ _ _ _ IHinit) as [Ht0 Hl0].
    revert IHinit Ht0 Hl0.
    generalize (CodeGenerator.genStatement init g1) as a1.
    generalize (CodeGenerator.genStatement init g2) as a2.
    intros a2 a1 Ha Ht0 Hl0.
    unfold CodeGenerator.genLabel. cbv beta iota zeta.
    change (inStep g1 g2
              (CodeGenerator.emitInstruction
                 (Instruction.createLabel
                    (lname (CodeGenerator.labelCounter a1 + 1)))
                 (CodeGenerator.emitInstruction
                    (Instruction.createGoto
                       (lname (CodeGenerator.labelCounter a1)))
                    (forUpdate update
                       (fold_left (fun s st => CodeGenerator.genStatement st s)
                          body
                          (forCond cond
                             (lname (CodeGenerator.labelCounter a1 + 1))
                             (CodeGenerator.emitInstruction
                                (Instruction.createLabel
                                   (lname (CodeGenerator.labelCounter a1)))
                                (CodeGenerator.mk (CodeGenerator.ir a1)
                                   (CodeGenerator.tempCounter a1)
                                   (CodeGenerator.labelCounter a1 + 1 + 1)
                                   (CodeGenerator.variableTypes a1))))))))
              (CodeGenerator.emitInstruction
                 (Instruction.createLabel
                    (lname (CodeGenerator.labelCounter a2 + 1)))
                 (CodeGenerator.emitInstruction
                    (Instruction.createGoto
                       (lname (CodeGenerator.labelCounter a2)))
                    (forUpdate update
                       (fold_left (fun s st => CodeGenerator.genStatement st s)
                          body
                          (forCond cond
                             (lname (CodeGenerator.labelCounter a2 + 1))
                             (CodeGenerator.emitInstruction
                                (Instruction.createLabel
                                   (lname (CodeGenerator.labelCounter a2)))
                                (CodeGenerator.mk (CodeGenerator.ir a2)
                                   (CodeGenerator.tempCounter a2)
                                   (CodeGenerator.labelCounter a2 + 1 + 1)
                                   (CodeGenerator.variableTypes a2))))))))).
    in_step. exact Ha.
  - now apply (inStep_fold _ _ IHstmts).
  - destruct value;
      [ apply inStep_emit; [reflexivity | exact H0]
      | apply (inStep_expr_then _ _ _ _ _
                 (fun r => Instruction.createReturn r)
                 (fun r => Instruction.createReturn r));
        [reflexivity | exact H0] .. ].
  - apply (inStep_expr_then _ _ _ _ _
             (fun r => Instruction.createPrint r)
             (fun r => Instruction.createPrint r));
      [reflexivity | exact H0].
Qed.

(** X27: the instructions [generate] returns, and the counters it ends
    with, depend only on the program, not on the generator it is called on:
    generating a program again, or after another program, gives the same
    instruction list. *)
Theorem X27_generate_instructions_reproducible (g1 g2 : CodeGenerator.t)
    (program : ProgramPtr) :
  IRProgram.instructions (fst (CodeGenerator.generate g1 program))
  = IRProgram.instructions (fst (CodeGenerator.generate g2 program))
  /\ CodeGenerator.tempCounter (snd (CodeGenerator.generate g1 program))
     = CodeGenerator.tempCounter (snd (CodeGenerator.generate g2 program))
  /\ CodeGenerator.labelCounter (snd (CodeGenerator.generate g1 program))
     = CodeGenerator.labelCounter (snd (CodeGenerator.generate g2 program)).
Proof.
  unfold CodeGenerator.generate. destruct program as [prog|]; cbn [fst snd].
  - set (a1 := CodeGenerator.mk _ 0 0 (CodeGenerator.variableTypes g1)).
    set (a2 := CodeGenerator.mk _ 0 0 (CodeGenerator.variableTypes g2)).
    destruct (fold_collectDecl_frame (statements prog) a1) as (Hc1 & Ht1 & Hl1).
    destruct (fold_collectDecl_frame (statements prog) a2) as (Hc2 & Ht2 & Hl2).
    set (b1 := fold_left CodeGenerator.collectDecl (statements prog) a1) in *.
    set (b2 := fold_left CodeGenerator.collectDecl (statements prog) a2) in *.
    assert (Hb : inStep b1 b2 b1 b2)
      by (apply inStep_start; [now rewrite Ht1, Ht2 | now rewrite Hl1, Hl2]).
    destruct (inStep_fold CodeGenerator.genStatement (statements prog)
                ltac:(apply list_all_forall; intros; now apply genStatement_inStep)
                b1 b2 b1 b2 Hb) as (chunk & A1 & A2 & Ht & Hl).
    unfold code in *. rewrite A1, A2, Hc1, Hc2. auto.
  - auto.
Qed.

Lemma dispatch_Throw_cases program self instr what :
  Interpreter.dispatch program self instr = Throw what ->
  isDataError what
  \/ (isJump instr = true
      /\ Interpreter.findLabel program (Instruction.label instr) = Throw what).
Proof.
  unfold Interpreter.dispatch, Interpreter.executeBinOp, Interpreter.executeUnOp,
    Interpreter.executeAssign, Interpreter.advance, mbind, outcome_bind,
    isDataError, isJump.
  intros H.
  repeat case_match; simplify_eq;
    repeat match goal with
           | H : Interpreter.getValue _ _ = Throw _ |- _ =>
               apply getValue_Throw in H; subst
           | H : Interpreter.binResult _ _ _ = Throw _ |- _ =>
               apply binResult_Throw in H; destruct H; subst
           end; eauto 6.
Qed.

(** X28: running generated code never fails with "Label not found": when
    [execute] returns [false] on a program [generate] returned, the
    instruction at the counter threw "Undefined variable: x", "Division by
    zero" or "Modulo by zero". *)
Theorem X28_generated_code_fails_on_data_only (g : CodeGenerator.t)
    (program : ProgramPtr) (prior : Interpreter.t) (fuel : nat)
    (s : Interpreter.t) :
  Interpreter.execute fuel prior (fst (CodeGenerator.generate g program))
  = Some (false, s) ->
  exists instr what,
    Interpreter.fetch (fst (CodeGenerator.generate g program)) s = Some instr
    /\ Interpreter.dispatch (fst (CodeGenerator.generate g program)) s instr
       = Throw what
    /\ isDataError what.
Proof.
  intros H. apply loop_false in H as (instr & what & Hf & Hd).
  exists instr, what. split; [exact Hf|]. split; [exact Hd|].
  destruct (dispatch_Throw_cases _ _ _ _ Hd) as [Hdata | [Hj Hl]];
    [exact Hdata|].
  exfalso.
  assert (Hin : In instr (IRProgram.instructions
                            (fst (CodeGenerator.generate g program)))).
  { unfold Interpreter.fetch in Hf.
    destruct (Interpreter.pc s <? _); [|discriminate].
    apply list_elem_of_In. eapply list_elem_of_lookup_2. exact Hf. }
  destruct (closedChunk_resolved _ _ _ _ _ (generate_closed g program)
              instr Hin Hj) as (target & Ht & Hn).
  destruct (findLabel_finds _ _ _ Ht Hn) as [j Hfound].
  congruence.
Qed.

Lemma X28_witness :
  exists instr what,
    Interpreter.fetch
      (fst (CodeGenerator.generate CodeGenerator.fresh (Some print_div_zero)))
      (Interpreter.mk ∅ [] 0) = Some instr
    /\ Interpreter.dispatch
         (fst (CodeGenerator.generate CodeGenerator.fresh (Some print_div_zero)))
         (Interpreter.mk ∅ [] 0) instr
       = Throw what
    /\ isDataError what.
Proof.
  apply (X28_generated_code_fails_on_data_only CodeGenerator.fresh
           (Some print_div_zero) Interpreter.fresh 1%nat
           (Interpreter.mk ∅ [] 0)).
  vm_compute. reflexivity.
Defined.
